(** * devops.helpers.templates: environment template synthesis

    A shallow embedding of [devops/helpers/templates.py] and proofs about
    the NUMA planner, the interface layout, the address pools, the
    configuration assembler and the YAML template loader.

    Python values are modelled as follows: [int] is [Z] (with [//] as
    [Z.div] and [%] as [Z.modulo], both flooring as in Python), [str] is
    [string], lists are [list], dictionaries are [gmap string _], and a
    raised exception is the [Raise] branch of [result].  A character of
    a [string] stands for the code point of its number, so that the
    strings are the texts over the code points below 256. *)

From stdpp Require Import base option list gmap strings pretty sorting.
From Stdlib Require Import ZArith Ascii.

Open Scope string_scope.
Open Scope Z_scope.

Set Warnings "-register-all".

(** ** Python prelude *)

Module Py.

(** The exceptions the modelled code can raise.  [DevopsError] is the only
    exception class of the project ([devops.error]); the others are
    Python builtins or come from the libraries the code calls. *)
Inductive exn : Type :=
  | DevopsError (msg : string)
  | KeyError (key : string)
  | IndexError
  | ValueError
  | TypeError
  | AttributeError
  | StopIteration
  | AddrFormatError
  | YAMLError.

Inductive result (A : Type) : Type :=
  | Ok (a : A)
  | Raise (e : exn).
Arguments Ok {A} a.
Arguments Raise {A} e.

#[global] Instance result_ret : MRet result := fun A a => Ok a.
#[global] Instance result_bind : MBind result := fun A B f m =>
  match m with
  | Ok a => f a
  | Raise e => Raise e
  end.
#[global] Instance result_fmap : FMap result := fun A B f m =>
  match m with
  | Ok a => Ok (f a)
  | Raise e => Raise e
  end.

(** [str(n)] for an int. *)
Definition str (n : Z) : string := pretty n.

(** [range(a, b)]. *)
Definition range (a b : Z) : list Z := seqZ a (b - a).

(** [sep.join(l)]. *)
Definition join (sep : string) (l : list string) : string :=
  String.concat sep l.

(** [needle in s] on strings. *)
Fixpoint contains (needle s : string) : bool :=
  String.prefix needle s ||
  match s with
  | EmptyString => false
  | String _ s' => contains needle s'
  end.

(** Truth value of an int and of an optional int ([None] and [0] are
    false). *)
Definition truthy (n : Z) : bool := negb (n =? 0).
Definition truthy_opt (o : option Z) : bool :=
  match o with
  | Some n => truthy n
  | None => false
  end.

(** [a or b] where [a] may be [None]. *)
Definition or_else (a : option Z) (b : Z) : Z :=
  match a with
  | Some n => if truthy n then n else b
  | None => b
  end.

(** [d[k]] on a dictionary. *)
Definition getitem {V} (d : gmap string V) (k : string) : result V :=
  match d !! k with
  | Some v => Ok v
  | None => Raise (KeyError k)
  end.

(** [l[i]] on a list, for a non-negative index. *)
Definition index {A} (l : list A) (i : nat) : result A :=
  match l !! i with
  | Some a => Ok a
  | None => Raise IndexError
  end.

(** A dictionary comprehension [{key(x): val(x) for x in l}]: later
    elements overwrite earlier ones. *)
Definition dict_of {A V} (key : A -> string) (val : A -> V) (l : list A)
  : gmap string V :=
  foldl (fun d x => <[key x := val x]> d) ∅ l.

(** The number of items of a comma-joined string. *)
Fixpoint commas (s : string) : nat :=
  match s with
  | EmptyString => 0%nat
  | String c s' => ((if Ascii.eqb c ","%char then 1 else 0) + commas s')%nat
  end.

Definition count_items (s : string) : nat :=
  match s with
  | EmptyString => 0%nat
  | _ => S (commas s)
  end.

(** [str.isspace] on a character, which is also what [str.strip]
    removes: tab, line feed, vertical tab, form feed, carriage return,
    the four separators 0x1c-0x1f, space, next line (U+0085) and
    no-break space (U+00A0). *)
Definition isspace (c : ascii) : bool :=
  let n := Z.of_N (N_of_ascii c) in
  ((9 <=? n) && (n <=? 13)) || ((28 <=? n) && (n <=? 32)) ||
  (n =? 133) || (n =? 160).

Fixpoint lstrip (s : string) : string :=
  match s with
  | String c s' => if isspace c then lstrip s' else s
  | EmptyString => EmptyString
  end.

Fixpoint rstrip (s : string) : string :=
  match s with
  | String c s' =>
      match rstrip s' with
      | EmptyString => if isspace c then EmptyString else String c EmptyString
      | r => String c r
      end
  | EmptyString => EmptyString
  end.

(** [s.strip()]. *)
Definition strip (s : string) : string := rstrip (lstrip s).

(** [s.split(sep, 1)] for a one-character separator: the text before the
    first separator and, when there is one, the text after it. *)
Fixpoint split1 (sep : ascii) (s : string) : string * option string :=
  match s with
  | EmptyString => (EmptyString, None)
  | String c s' =>
      if Ascii.eqb c sep then (EmptyString, Some s')
      else let '(a, b) := split1 sep s' in (String c a, b)
  end.

(** [s.split(sep)] for a one-character separator. *)
Fixpoint split (sep : ascii) (s : string) : list string :=
  match s with
  | EmptyString => [EmptyString]
  | String c s' =>
      if Ascii.eqb c sep then EmptyString :: split sep s'
      else match split sep s' with
           | w :: ws => String c w :: ws
           | [] => [String c EmptyString]
           end
  end.

Definition digit_of (c : ascii) : option Z :=
  let n := Z.of_N (N_of_ascii c) in
  if (48 <=? n) && (n <=? 57) then Some (n - 48) else None.

Fixpoint parse_digits (acc : Z) (s : string) : option Z :=
  match s with
  | EmptyString => Some acc
  | String c s' =>
      match digit_of c with
      | Some d => parse_digits (10 * acc + d) s'
      | None => None
      end
  end.

Definition parse_decimal (s : string) : result Z :=
  match s with
  | EmptyString => Raise ValueError
  | _ => match parse_digits 0 s with
         | Some n => Ok n
         | None => Raise ValueError
         end
  end.

(** The white space [int] skips around a number: tab, line feed,
    vertical tab, form feed, carriage return, space, next line (U+0085)
    and no-break space (U+00A0); the separators 0x1c-0x1f are not
    skipped. *)
Definition int_isspace (c : ascii) : bool :=
  let n := Z.of_N (N_of_ascii c) in
  ((9 <=? n) && (n <=? 13)) || (n =? 32) || (n =? 133) || (n =? 160).

Fixpoint int_lstrip (s : string) : string :=
  match s with
  | String c s' => if int_isspace c then int_lstrip s' else s
  | EmptyString => EmptyString
  end.

Fixpoint int_rstrip (s : string) : string :=
  match s with
  | String c s' =>
      match int_rstrip s' with
      | EmptyString =>
          if int_isspace c then EmptyString else String c EmptyString
      | r => String c r
      end
  | EmptyString => EmptyString
  end.

(** The digits of a number after its first digit: decimal digits, with
    single underscores allowed between two digits. *)
Fixpoint int_digits (acc : Z) (s : string) : option Z :=
  match s with
  | EmptyString => Some acc
  | String c s' =>
      match digit_of c with
      | Some d => int_digits (10 * acc + d) s'
      | None =>
          if Ascii.eqb c "_"%char then
            match s' with
            | String c' _ =>
                match digit_of c' with
                | Some _ => int_digits acc s'
                | None => None
                end
            | EmptyString => None
            end
          else None
      end
  end.

(** The number of decimal digits of a text. *)
Fixpoint digit_count (s : string) : Z :=
  match s with
  | EmptyString => 0
  | String c s' =>
      (match digit_of c with Some _ => 1 | None => 0 end) + digit_count s'
  end.

(** A number without sign: it starts with a digit, and has no more than
    4300 digits ([sys.int_max_str_digits]). *)
Definition int_literal (s : string) : result Z :=
  match s with
  | String c _ =>
      match digit_of c, int_digits 0 s with
      | Some _, Some n =>
          if digit_count s <=? 4300 then Ok n else Raise ValueError
      | _, _ => Raise ValueError
      end
  | EmptyString => Raise ValueError
  end.

(** [int(s)] for a string, as Python 3.11 reads it: white space around,
    an optional sign, then decimal digits with single underscores
    between them. *)
Definition int (s : string) : result Z :=
  match int_rstrip (int_lstrip s) with
  | String "-"%char s' => Z.opp <$> int_literal s'
  | String "+"%char s' => int_literal s'
  | s' => int_literal s'
  end.

(** [s[-2:]]: the last two characters (the whole string when shorter). *)
Definition last2 (s : string) : string :=
  String.substring (String.length s - 2) 2 s.

(** ['{0:0>2}'.format(n)]: [str(n)] right-aligned in two columns, filled
    with ["0"]. *)
Definition format_02 (n : Z) : string :=
  let s := str n in
  String.string_of_list_ascii
    (replicate (2 - String.length s) "0"%char) +:+ s.

(** [sorted(l)] on strings, which Python compares by code point. *)
Definition sorted (l : list string) : list string :=
  merge_sort (fun a b => String.leb a b) l.

(** A loop [for x in l: s = body(s, x)] whose body may raise. *)
Fixpoint for_each {A S} (body : S -> A -> result S) (s : S) (l : list A)
  : result S :=
  match l with
  | [] => Ok s
  | x :: l' => s' ← body s x; for_each body s' l'
  end.

(** The keys of a dictionary, in its iteration order. *)
Definition keys {V} (d : gmap string V) : list string :=
  (map_to_list d).*1.

End Py.
Import Py.

(** ** NUMA planner *)

Record numa_cell : Type := NumaCell {
  cpus : string;
  memory : Z
}.

Definition numa_cpu_error (numa_nodes vcpu : Z) (name : string) : string :=
  "NUMA_NODES=" +:+ str numa_nodes +:+
  " is not a multiple of the number of CPU=" +:+ str vcpu +:+
  " for node '" +:+ name +:+ "'".

Definition numa_memory_error (numa_nodes memory : Z) (name : string)
  : string :=
  "NUMA_NODES=" +:+ str numa_nodes +:+
  " is not a multiple of the amount of MEMORY=" +:+ str memory +:+
  " for node '" +:+ name +:+ "'".

Definition _calculate_numa (numa_nodes vcpu memory : Z) (name : string)
  : result (list numa_cell) :=
  if truthy numa_nodes then
    let cpus_per_numa := vcpu / numa_nodes in
    if negb (cpus_per_numa * numa_nodes =? vcpu) then
      Raise (DevopsError (numa_cpu_error numa_nodes vcpu name))
    else
      let memory_per_numa := memory / numa_nodes in
      if negb (memory_per_numa * numa_nodes =? memory) then
        Raise (DevopsError (numa_memory_error numa_nodes memory name))
      else
        Ok ((fun x =>
               let cpus := range (x * cpus_per_numa)
                                 ((x + 1) * cpus_per_numa) in
               {| cpus := join "," (str <$> cpus);
                  memory := memory_per_numa |})
              <$> range 0 numa_nodes)
  else Ok [].

(** ** The part of [netaddr] the address pools use

    [netaddr] is an external library.  The model covers IPv4 networks in
    plain CIDR notation: four decimal parts without leading zeros, then
    [/p] with [p] in decimal digits, or a bare address, which is a [/32].
    Where the model gives a network, the library gives that network.
    [AddrFormatError] stands for every other text, also for the
    notations the library accepts and the model leaves out (IPv6,
    netmask suffixes, abbreviated addresses, a prefix that only [int]
    reads), so nothing is concluded from that answer. *)

Module netaddr.

Record IPNetwork_t : Type := {
  value : Z;
  prefixlen : Z
}.

Definition width : Z := 32.

(** One part of a dotted address: one to three digits, at most 255 and
    without a leading zero. *)
Definition parse_octet (s : string) : result Z :=
  match parse_decimal s with
  | Ok n =>
      if ((String.length s <=? 3)%nat && (n <=? 255)
          && (negb (String.prefix "0" s)
              || (String.length s =? 1)%nat))%bool
      then Ok n
      else Raise AddrFormatError
  | Raise _ => Raise AddrFormatError
  end.

Definition parse_ipv4 (s : string) : result Z :=
  match split "."%char s with
  | [a; b; c; d] =>
      a ← parse_octet a; b ← parse_octet b;
      c ← parse_octet c; d ← parse_octet d;
      mret (((a * 256 + b) * 256 + c) * 256 + d)
  | _ => Raise AddrFormatError
  end.

(** A prefix length in decimal digits, which the library reads with
    [int]. *)
Definition parse_prefix (s : string) : result Z :=
  match parse_decimal s with
  | Ok n =>
      if (n <=? width) && (digit_count s <=? 4300) then Ok n
      else Raise AddrFormatError
  | Raise _ => Raise AddrFormatError
  end.

(** [netaddr.IPNetwork(s)]. *)
Definition IPNetwork (s : string) : result IPNetwork_t :=
  match split1 "/"%char s with
  | (addr, Some p) =>
      v ← parse_ipv4 addr; p ← parse_prefix p;
      mret {| value := v; prefixlen := p |}
  | (addr, None) =>
      v ← parse_ipv4 addr;
      mret {| value := v; prefixlen := width |}
  end.

(** [net.size]: the number of addresses of the network. *)
Definition size (net : IPNetwork_t) : Z := 2 ^ (width - prefixlen net).

(** [net.first]: the network address. *)
Definition first (net : IPNetwork_t) : Z :=
  value net / size net * size net.

(** [next(net.subnet(prefixlen=p))]: the first subnet of [net] with prefix
    length [p].  The generator yields nothing when [p] is shorter than the
    prefix of [net], so that [next] raises [StopIteration]; a prefix
    longer than the address width is refused when the subnet is built. *)
Definition next_subnet (net : IPNetwork_t) (p : Z) : result IPNetwork_t :=
  if negb (prefixlen net <=? p) then Raise StopIteration
  else if negb (p <=? width) then Raise AddrFormatError
  else Ok {| value := first net; prefixlen := p |}.

End netaddr.

(** ** Data model of the generated configuration *)

Module Interface.
Record t : Type := {
  label : string;
  l2_network_device : string;
  interface_model : string
}.
End Interface.

(** The value of one [network_config] entry: [{'networks': [...]}]. *)
Module NetworkConfig.
Record t : Type := {
  networks : list string
}.
End NetworkConfig.

(** A volume dictionary; the keys a volume does not carry are [None]. *)
Module Volume.
Record t : Type := {
  name : string;
  capacity : option Z;
  format : option string;
  source_image : option string;
  device : option string;
  bus : option string;
  multipath_count : option Z
}.
End Volume.

Module Node.
Record params_t : Type := {
  vcpu : Z;
  memory : Z;
  boot : list string;
  bootmenu_timeout : option Z;
  numa : list numa_cell;
  volumes : list Volume.t;
  interfaces : list Interface.t;
  network_config : gmap string NetworkConfig.t
}.
Record t : Type := {
  name : string;
  role : string;
  params : params_t
}.
End Node.

Module AddressPool.
Record params_t : Type := {
  ip_reserved : gmap string Z;
  ip_ranges : gmap string (list Z);
  vlan_start : option Z;
  vlan_end : option Z
}.
Record t : Type := {
  net : string;
  params : params_t
}.
End AddressPool.

Module L2NetworkDevice.
Record t : Type := {
  address_pool : string;
  dhcp : bool;
  forward_mode : option string
}.
End L2NetworkDevice.

(** One entry of [NODEGROUPS]. *)
Module NodeGroup.
Record t : Type := {
  name : string;
  pools : list string
}.
End NodeGroup.

Module Driver.
Record params_t : Type := {
  connection_string : string;
  storage_pool_name : string;
  stp : bool;
  hpet : bool;
  use_host_cpu : bool;
  enable_acpi : bool;
  enable_nwfilters : bool
}.
Record t : Type := {
  name : string;
  params : params_t
}.
End Driver.

Module Group.
Record t : Type := {
  driver : Driver.t;
  name : string;
  network_pools : gmap string string;
  l2_network_devices : gmap string L2NetworkDevice.t;
  nodes : list Node.t
}.
End Group.

(** The value under [config['template']['devops_settings']]. *)
Module DevopsSettings.
Record t : Type := {
  env_name : string;
  address_pools : gmap string AddressPool.t;
  groups : list Group.t
}.
End DevopsSettings.

(** ** Interface layout *)

Definition e1000 (label iname : string) : Interface.t :=
  {| Interface.label := label;
     Interface.l2_network_device := iname;
     Interface.interface_model := "e1000" |}.

(** [[{'label': 'iface' + str(n), ...} for n, iname in enumerate(order)]] *)
Definition sequential_interfaces (order : list string) : list Interface.t :=
  imap (fun n iname => e1000 ("iface" +:+ str (Z.of_nat n)) iname) order.

(** [{label: iname for iname in d for label in d[iname]}]: the bonding
    dictionary [{net_name: [eth0, eth1]}] turned into
    [{eth0: net_name, eth1: net_name}]. *)
Definition invert_bonding (d : gmap string (list string))
  : gmap string string :=
  foldl (fun ifaces '(iname, labels) =>
           foldl (fun ifaces label => <[label := iname]> ifaces)
                 ifaces labels)
        ∅ (map_to_list d).

(** The deprecated bonding layout: one interface per label, sorted by
    label.  Iterating over [None] is a [TypeError]. *)
Definition bonding_interfaces
    (networks_bondinginterfaces : option (gmap string (list string)))
  : result (list Interface.t) :=
  match networks_bondinginterfaces with
  | None => Raise TypeError
  | Some d =>
      let ifaces := invert_bonding d in
      mapM (fun label => iname ← getitem ifaces label;
                         mret (e1000 label iname))
           (sorted (keys ifaces))
  end.

(** The logical network an interface is exposed under. *)
Definition network_of (l2_network_device : string) : string :=
  if decide (l2_network_device ≠ "admin") then l2_network_device
  else "fuelweb_admin".

Definition make_network_config (interfaces : list Interface.t)
  : gmap string NetworkConfig.t :=
  dict_of Interface.label
    (fun iface =>
       {| NetworkConfig.networks :=
            [network_of (Interface.l2_network_device iface)] |})
    interfaces.

(** ** Node builders *)

Definition create_admin_config
    (admin_vcpu admin_memory admin_sysvolume_capacity : Z)
    (admin_iso_path boot_from : string)
    (interfaceorder : list string)
    (numa_nodes : Z)
    (networks_bonding : bool)
    (networks_bondinginterfaces : option (gmap string (list string)))
  : result Node.t :=
  admin_interfaces ←
    (if networks_bonding then bonding_interfaces networks_bondinginterfaces
     else Ok (sequential_interfaces interfaceorder));
  let network_config := make_network_config admin_interfaces in
  let '(boot_device_order, iso_device, iso_bus, bootmenu_timeout) :=
    if decide (boot_from = "usb")
    then (["hd"], "disk", "usb", 3000)
    else (["hd"; "cdrom"], "cdrom", "ide", 0) in
  numa ← _calculate_numa numa_nodes admin_vcpu admin_memory "admin";
  mret {|
    Node.name := "admin";
    Node.role := "fuel_master";
    Node.params := {|
      Node.vcpu := admin_vcpu;
      Node.memory := admin_memory;
      Node.boot := boot_device_order;
      Node.bootmenu_timeout := Some bootmenu_timeout;
      Node.numa := numa;
      Node.volumes := [
        {| Volume.name := "system";
           Volume.capacity := Some admin_sysvolume_capacity;
           Volume.format := Some "qcow2";
           Volume.source_image := None;
           Volume.device := None;
           Volume.bus := None;
           Volume.multipath_count := None |};
        {| Volume.name := "iso";
           Volume.capacity := None;
           Volume.format := Some "raw";
           Volume.source_image := Some admin_iso_path;
           Volume.device := Some iso_device;
           Volume.bus := Some iso_bus;
           Volume.multipath_count := None |} ];
      Node.interfaces := admin_interfaces;
      Node.network_config := network_config |} |}.

(** A slave volume: [{'name': ..., 'capacity': ..., 'multipath_count': ...}]
    (the swift volume has no [multipath_count]). *)
Definition slave_volume (name : string) (capacity : Z)
    (multipath_count : option Z) : Volume.t :=
  {| Volume.name := name;
     Volume.capacity := Some capacity;
     Volume.format := None;
     Volume.source_image := None;
     Volume.device := None;
     Volume.bus := None;
     Volume.multipath_count := multipath_count |}.

(** [networks_nodegroups[nodegroups_idx]['pools']] with
    [nodegroups_idx = 1 - int(slave_name[-2:]) % 2]. *)
Definition nodegroup_pools (slave_name : string)
    (networks_nodegroups : option (list NodeGroup.t))
  : result (list string) :=
  n ← int (last2 slave_name);
  let nodegroups_idx := 1 - n mod 2 in
  match networks_nodegroups with
  | None => Raise TypeError
  | Some groups =>
      group ← index groups (Z.to_nat nodegroups_idx);
      mret (NodeGroup.pools group)
  end.

Definition slave_volumes (slave_volume_capacity : Z)
    (second_volume_capacity third_volume_capacity : option Z)
    (use_all_disks : bool) (multipath_count : Z) : list Volume.t :=
  let volumes :=
    [slave_volume "system" slave_volume_capacity (Some multipath_count)] in
  if use_all_disks then
    (volumes ++
     [ slave_volume "cinder"
         (or_else second_volume_capacity slave_volume_capacity)
         (Some multipath_count);
       slave_volume "swift"
         (or_else third_volume_capacity slave_volume_capacity) None ])%list
  else
    let volumes :=
      match second_volume_capacity with
      | Some c => if truthy c
                  then (volumes ++ [slave_volume "cinder" c
                                      (Some multipath_count)])%list
                  else volumes
      | None => volumes
      end in
    match third_volume_capacity with
    | Some c => if truthy c
                then (volumes ++ [slave_volume "swift" c None])%list
                else volumes
    | None => volumes
    end.

Definition create_slave_config
    (slave_name slave_role : string)
    (slave_vcpu slave_memory slave_volume_capacity : Z)
    (interfaceorder : list string)
    (numa_nodes : Z)
    (second_volume_capacity third_volume_capacity : option Z)
    (use_all_disks : bool)
    (multipath_count : Z)
    (networks_multiplenetworks : bool)
    (networks_nodegroups : option (list NodeGroup.t))
    (networks_bonding : bool)
    (networks_bondinginterfaces : option (gmap string (list string)))
  : result Node.t :=
  slave_interfaces ←
    (if networks_multiplenetworks then
       sequential_interfaces <$>
         nodegroup_pools slave_name networks_nodegroups
     else if networks_bonding then
       bonding_interfaces networks_bondinginterfaces
     else Ok (sequential_interfaces interfaceorder));
  let network_config := make_network_config slave_interfaces in
  let volumes :=
    slave_volumes slave_volume_capacity second_volume_capacity
                  third_volume_capacity use_all_disks multipath_count in
  numa ← _calculate_numa numa_nodes slave_vcpu slave_memory slave_name;
  mret {|
    Node.name := slave_name;
    Node.role := slave_role;
    Node.params := {|
      Node.vcpu := slave_vcpu;
      Node.memory := slave_memory;
      Node.boot := ["network"; "hd"];
      Node.bootmenu_timeout := None;
      Node.numa := numa;
      Node.volumes := volumes;
      Node.interfaces := slave_interfaces;
      Node.network_config := network_config |} |}.

(** ** Network pools, address pools and L2 network devices *)

Definition create_netpools (interfaceorder : list string)
  : gmap string string :=
  foldl (fun netpool iname =>
           let netname :=
             if decide (iname = "admin") then "fuelweb_admin" else iname in
           <[netname := iname]> netpool)
        ∅ interfaceorder.

(** The pool every network starts with. *)
Definition default_address_pool (net : string) : AddressPool.t :=
  {| AddressPool.net := net;
     AddressPool.params := {|
       AddressPool.ip_reserved :=
         <["l2_network_device" := 1]> (<["gateway" := 1]> ∅);
       AddressPool.ip_ranges := <["default" := [2; -2]]> ∅;
       AddressPool.vlan_start := None;
       AddressPool.vlan_end := None |} |}.

(** [pool['params']['vlan_start'] = s; pool['params']['vlan_end'] = e] *)
Definition set_vlan (s e : Z) (pool : AddressPool.t) : AddressPool.t :=
  let p := AddressPool.params pool in
  {| AddressPool.net := AddressPool.net pool;
     AddressPool.params := {|
       AddressPool.ip_reserved := AddressPool.ip_reserved p;
       AddressPool.ip_ranges := AddressPool.ip_ranges p;
       AddressPool.vlan_start := Some s;
       AddressPool.vlan_end := Some e |} |}.

(** [pool['params']['ip_ranges'][name] = range] *)
Definition set_ip_range (name : string) (range : list Z)
    (pool : AddressPool.t) : AddressPool.t :=
  let p := AddressPool.params pool in
  {| AddressPool.net := AddressPool.net pool;
     AddressPool.params := {|
       AddressPool.ip_reserved := AddressPool.ip_reserved p;
       AddressPool.ip_ranges := <[name := range]> (AddressPool.ip_ranges p);
       AddressPool.vlan_start := AddressPool.vlan_start p;
       AddressPool.vlan_end := AddressPool.vlan_end p |} |}.

(** [address_pools[k] = f(address_pools[k])]: an update in place of the
    entry under [k]. *)
Definition update_item {V} (k : string) (f : V -> V) (d : gmap string V)
  : result (gmap string V) :=
  v ← getitem d k; mret (<[k := f v]> d).

(** The size of the first subnet of the public pool:
    [next(IPNetwork(pools['public'][0]).subnet(int(pools['public'][1]))).size] *)
Definition public_network_size (networks_pools : gmap string (list string))
  : result Z :=
  public ← getitem networks_pools "public";
  cidr ← index public 0;
  net ← netaddr.IPNetwork cidr;
  public ← getitem networks_pools "public";
  prefix ← index public 1;
  new_prefix ← int prefix;
  subnet ← netaddr.next_subnet net new_prefix;
  mret (netaddr.size subnet).

(** The body of the loop [for address_pool in address_pools]. *)
Definition address_pool_overrides
    (networks_pools : gmap string (list string))
    (address_pools : gmap string AddressPool.t) (address_pool : string)
  : result (gmap string AddressPool.t) :=
  address_pools ←
    (if contains "private" address_pool
     then update_item address_pool (set_vlan 900 999) address_pools
     else Ok address_pools);
  if contains "public" address_pool then
    let default_pool_name := "default" in
    let floating_pool_name := "floating" in
    network_size ← public_network_size networks_pools;
    address_pools ←
      update_item address_pool
        (set_ip_range default_pool_name [2; network_size / 2 - 1])
        address_pools;
    update_item address_pool
      (set_ip_range floating_pool_name [network_size / 2; -2])
      address_pools
  else Ok address_pools.

Definition create_address_pools (interfaceorder : list string)
    (networks_pools : gmap string (list string))
  : result (gmap string AddressPool.t) :=
  pools ← mapM (fun iname =>
                  subnets ← getitem networks_pools iname;
                  mret (iname, default_address_pool (join ":" subnets)))
               interfaceorder;
  let address_pools := dict_of fst snd pools in
  for_each (address_pool_overrides networks_pools)
           address_pools (keys address_pools).

Definition create_l2_network_devices (interfaceorder : list string)
    (networks_dhcp : gmap string bool)
    (networks_forwarding : gmap string (option string))
  : result (gmap string L2NetworkDevice.t) :=
  devices ← mapM (fun iname =>
                    dhcp ← getitem networks_dhcp iname;
                    mode ← getitem networks_forwarding iname;
                    mret (iname,
                          {| L2NetworkDevice.address_pool := iname;
                             L2NetworkDevice.dhcp := dhcp;
                             L2NetworkDevice.forward_mode := mode |}))
                 interfaceorder;
  mret (dict_of fst snd devices).

(** ** The configuration assembler *)

(** The arguments of [create_devops_config]. *)
Module Args.
Record t : Type := {
  boot_from : string;
  env_name : string;
  admin_vcpu : Z;
  admin_memory : Z;
  admin_sysvolume_capacity : Z;
  admin_iso_path : string;
  nodes_count : Z;
  numa_nodes : Z;
  slave_vcpu : Z;
  slave_memory : Z;
  slave_volume_capacity : Z;
  second_volume_capacity : option Z;
  third_volume_capacity : option Z;
  use_all_disks : bool;
  multipath_count : Z;
  ironic_nodes_count : Z;
  networks_bonding : bool;
  networks_bondinginterfaces : option (gmap string (list string));
  networks_multiplenetworks : bool;
  networks_nodegroups : option (list NodeGroup.t);
  networks_interfaceorder : list string;
  networks_pools : gmap string (list string);
  networks_forwarding : gmap string (option string);
  networks_dhcp : gmap string bool;
  driver_enable_acpi : bool;
  driver_enable_nwfilers : bool
}.
End Args.

(** [networks_bondinginterfaces.keys()]; [None] has no such attribute. *)
Definition bonding_keys
    (networks_bondinginterfaces : option (gmap string (list string)))
  : result (list string) :=
  match networks_bondinginterfaces with
  | Some d => Ok (keys d)
  | None => Raise AttributeError
  end.

(** The body of the loop [for slave_n in range(1, nodes_count)]. *)
Definition slave_node (a : Args.t) (l2_interfaceorder : list string)
    (slave_n : Z) : result Node.t :=
  let slave_name := "slave-" +:+ format_02 slave_n in
  create_slave_config slave_name "fuel_slave"
    (Args.slave_vcpu a) (Args.slave_memory a)
    (Args.slave_volume_capacity a) l2_interfaceorder
    (Args.numa_nodes a)
    (Args.second_volume_capacity a) (Args.third_volume_capacity a)
    (Args.use_all_disks a) (Args.multipath_count a)
    (Args.networks_multiplenetworks a) (Args.networks_nodegroups a)
    (Args.networks_bonding a) (Args.networks_bondinginterfaces a).

(** The body of the loop
    [for ironic_n in range(1, ironic_nodes_count + 1)]; the arguments the
    call leaves out take their defaults. *)
Definition ironic_node (a : Args.t) (ironic_n : Z) : result Node.t :=
  let ironic_name := "ironic-slave-" +:+ format_02 ironic_n in
  create_slave_config ironic_name "ironic_slave"
    (Args.slave_vcpu a) (Args.slave_memory a)
    (Args.slave_volume_capacity a) ["ironic"]
    (Args.numa_nodes a)
    None None false 0 false None false None.

(** [for x in l: config_nodes.append(build(x))] *)
Definition append_each {A B} (build : A -> result B)
    (config_nodes : list B) (l : list A) : result (list B) :=
  for_each (fun config_nodes x =>
              config ← build x; mret (config_nodes ++ [config])%list)
           config_nodes l.

Definition create_devops_config (a : Args.t) : result DevopsSettings.t :=
  l2_interfaceorder ←
    (if Args.networks_bonding a
     then bonding_keys (Args.networks_bondinginterfaces a)
     else Ok (Args.networks_interfaceorder a));
  address_pools ←
    create_address_pools (Args.networks_interfaceorder a)
                         (Args.networks_pools a);
  let netpools := create_netpools (Args.networks_interfaceorder a) in
  l2_network_devices ←
    create_l2_network_devices l2_interfaceorder (Args.networks_dhcp a)
                              (Args.networks_forwarding a);
  admin_config ←
    create_admin_config (Args.admin_vcpu a) (Args.admin_memory a)
      (Args.admin_sysvolume_capacity a) (Args.admin_iso_path a)
      (Args.boot_from a) l2_interfaceorder (Args.numa_nodes a)
      (Args.networks_bonding a) (Args.networks_bondinginterfaces a);
  let config_nodes := [admin_config] in
  config_nodes ←
    append_each (slave_node a l2_interfaceorder) config_nodes
                (range 1 (Args.nodes_count a));
  config_nodes ←
    append_each (ironic_node a) config_nodes
                (range 1 (Args.ironic_nodes_count a + 1));
  mret {|
    DevopsSettings.env_name := Args.env_name a;
    DevopsSettings.address_pools := address_pools;
    DevopsSettings.groups := [
      {| Group.driver := {|
           Driver.name := "devops.driver.libvirt";
           Driver.params := {|
             Driver.connection_string := "qemu:///system";
             Driver.storage_pool_name := "default";
             Driver.stp := true;
             Driver.hpet := false;
             Driver.use_host_cpu := true;
             Driver.enable_acpi := Args.driver_enable_acpi a;
             Driver.enable_nwfilters := Args.driver_enable_nwfilers a |} |};
         Group.name := "default";
         Group.network_pools := netpools;
         Group.l2_network_devices := l2_network_devices;
         Group.nodes := config_nodes |} ] |}.

(** ** The template loader *)

Module posixpath.

Fixpoint all_sep (s : string) : bool :=
  match s with
  | EmptyString => true
  | String c s' => Ascii.eqb c "/"%char && all_sep s'
  end.

(** [s.rstrip('/')] *)
Fixpoint rstrip_sep (s : string) : string :=
  match s with
  | String c s' =>
      match rstrip_sep s' with
      | EmptyString =>
          if Ascii.eqb c "/"%char then EmptyString else String c EmptyString
      | r => String c r
      end
  | EmptyString => EmptyString
  end.

(** [p[:p.rfind('/') + 1]]: the text up to and including the last
    separator. *)
Fixpoint head (p : string) : string :=
  match p with
  | EmptyString => EmptyString
  | String c p' =>
      match head p' with
      | EmptyString =>
          if Ascii.eqb c "/"%char then String c EmptyString else EmptyString
      | h => String c h
      end
  end.

Definition dirname (p : string) : string :=
  let head := head p in
  if negb (all_sep head) then rstrip_sep head else head.

Fixpoint endswith_sep (s : string) : bool :=
  match s with
  | EmptyString => false
  | String c EmptyString => Ascii.eqb c "/"%char
  | String _ s' => endswith_sep s'
  end.

(** [os.path.join(a, b)] *)
Definition join (a b : string) : string :=
  if String.prefix "/" b then b
  else if (if decide (a = EmptyString) then true else endswith_sep a)
       then a +:+ b
       else a +:+ "/" +:+ b.

End posixpath.

Module yaml.

(** The node graph PyYAML composes from a document: a tag and, by kind,
    a text, a list of items or a list of key/value pairs. *)
Inductive node : Type :=
  | ScalarNode (tag value : string)
  | SequenceNode (tag : string) (value : list node)
  | MappingNode (tag : string) (value : list (node * node)).

Definition n_tag (n : node) : string :=
  match n with
  | ScalarNode tag _ | SequenceNode tag _ | MappingNode tag _ => tag
  end.

Definition DEFAULT_MAPPING_TAG : string := "tag:yaml.org,2002:map".
Definition DEFAULT_SEQUENCE_TAG : string := "tag:yaml.org,2002:seq".

(** The name PyYAML gives a loader that reads from a string. *)
Definition string_stream_name : string := "<unicode string>".

End yaml.
Import yaml.

(** The objects a template loads to: [None] for an empty document, what
    PyYAML builds for a scalar, a list, and the [OrderedDict] made of the
    constructed pairs, in source order. *)
Inductive object (scalar : Type) : Type :=
  | ObjNone
  | ObjScalar (s : scalar)
  | ObjList (items : list (object scalar))
  | ObjOrderedDict (pairs : list (object scalar * object scalar)).
Arguments ObjNone {scalar}.
Arguments ObjScalar {scalar} s.
Arguments ObjList {scalar} items.
Arguments ObjOrderedDict {scalar} pairs.

(** A computation of the loader: [None] when the nesting of [yaml.load]
    calls exceeds the depth it was given, otherwise a value or the
    exception raised. *)
Definition loading (A : Type) : Type := option (result A).

Definition loading_bind {A B} (m : loading A) (f : A -> loading B)
  : loading B :=
  match m with
  | Some (Ok a) => f a
  | Some (Raise e) => Some (Raise e)
  | None => None
  end.

Notation "x ←@ m ; k" := (loading_bind m (fun x => k))
  (at level 20, m at level 100, k at level 200, only parsing,
   right associativity).

Definition include_missing_error (loader_name file_name : string) : string :=
  "Cannot load the environment template " +:+ loader_name +:+
  " : include file " +:+ file_name +:+ " doesn't exist.".

Definition env_required_error (tag filename : string) : string :=
  "Environment variable is required after " +:+ tag +:+ " in " +:+ filename.

Definition env_unset_error (var filename : string) : string :=
  "Environment variable " +:+ var +:+ " is not set from shell" +:+
  " environment! No default value provided in file " +:+ filename.

Definition template_missing_error (config_file : string) : string :=
  "Cannot load the environment template " +:+ config_file +:+
  " : file doesn't exist.".

Section TemplateLoader.

(** PyYAML and the world the loader reads.  [compose] is PyYAML's
    parser and composer: the root node of a text, [None] for an empty
    document.  [construct_scalar] is what its standard constructors
    build for a scalar of a resolved tag.  [files] gives the text of
    each regular file by path, and [environ] is [os.environ]. *)
Context {scalar : Type}.
Variable compose : string -> result (option node).
Variable construct_scalar : string -> string -> result scalar.
Variable files : string -> option string.
Variable environ : string -> option string.

Section Constructors.

(** [yaml.load(stream, TemplateLoader)] for a stream of a given name
    and text. *)
Variable load : string -> string -> loading (object scalar).

Definition yaml_include (loader_name : string) (n : node)
  : loading (object scalar) :=
  match n with
  | ScalarNode _ value =>
      let file_name :=
        posixpath.join (posixpath.dirname loader_name) value in
      match files file_name with
      | None =>
          Some (Raise (DevopsError
                         (include_missing_error loader_name file_name)))
      | Some inputfile => load file_name inputfile
      end
  | _ => Some (Raise TypeError)
  end.

Definition yaml_get_env_variable (loader_name : string) (n : node)
  : loading (object scalar) :=
  match n with
  | ScalarNode tag value =>
      if decide (strip value = EmptyString) then
        Some (Raise (DevopsError (env_required_error tag loader_name)))
      else
        let node_value := split1 ","%char value in
        let env_variable := strip (fst node_value) in
        let default_val := strip <$> snd node_value in
        let value :=
          match environ env_variable with
          | Some v => Some v
          | None => default_val
          end in
        match value with
        | None =>
            Some (Raise (DevopsError
                           (env_unset_error env_variable loader_name)))
        | Some value => load string_stream_name value
        end
  | _ => Some (Raise AttributeError)
  end.

(** [construct_object]: the two directives by tag, the mapping
    constructor of the loader (pairs in source order), PyYAML's own
    for sequences and scalars.  The model covers the documents whose
    sequences and mappings carry the default tags and whose mappings
    have neither merge keys nor keys that cannot be hashed; for a
    sequence or a mapping of another tag, which [yaml.Loader] may
    construct, the model answers [YAMLError], and nothing is concluded
    from that answer. *)
Fixpoint construct_object (loader_name : string) (n : node)
  : loading (object scalar) :=
  if decide (n_tag n = "!include") then yaml_include loader_name n
  else if decide (n_tag n = "!os_env")
  then yaml_get_env_variable loader_name n
  else
    match n with
    | ScalarNode tag value =>
        Some (ObjScalar <$> construct_scalar tag value)
    | SequenceNode tag items =>
        if decide (tag = DEFAULT_SEQUENCE_TAG) then
          items ←@
            (fix construct_sequence (items : list node)
               : loading (list (object scalar)) :=
               match items with
               | [] => Some (Ok [])
               | child :: items' =>
                   x ←@ construct_object loader_name child;
                   xs ←@ construct_sequence items';
                   Some (Ok (x :: xs))
               end) items;
          Some (Ok (ObjList items))
        else Some (Raise YAMLError)
    | MappingNode tag pairs =>
        if decide (tag = DEFAULT_MAPPING_TAG) then
          pairs ←@
            (fix construct_pairs (pairs : list (node * node))
               : loading (list (object scalar * object scalar)) :=
               match pairs with
               | [] => Some (Ok [])
               | (key_node, value_node) :: pairs' =>
                   key ←@ construct_object loader_name key_node;
                   value ←@ construct_object loader_name value_node;
                   kvs ←@ construct_pairs pairs';
                   Some (Ok ((key, value) :: kvs))
               end) pairs;
          Some (Ok (ObjOrderedDict pairs))
        else Some (Raise YAMLError)
    end.

End Constructors.

(** [yaml.load(stream, TemplateLoader)], to a nesting depth. *)
Fixpoint yaml_load (depth : nat) (name text : string)
  : loading (object scalar) :=
  match depth with
  | O => None
  | S depth' =>
      match compose text with
      | Raise e => Some (Raise e)
      | Ok None => Some (Ok ObjNone)
      | Ok (Some root) => construct_object (yaml_load depth') name root
      end
  end.

Definition yaml_template_load (depth : nat) (config_file : string)
  : loading (object scalar) :=
  match files config_file with
  | None => Some (Raise (DevopsError (template_missing_error config_file)))
  | Some f => yaml_load depth config_file f
  end.

(** [get_devops_config]; [devops_file] is [devops.__file__]. *)
Definition get_devops_config (devops_file : string) (depth : nat)
    (filename : string) : loading (object scalar) :=
  match files filename with
  | Some _ => yaml_template_load depth filename
  | None =>
      let config_file :=
        posixpath.join
          (posixpath.join (posixpath.dirname devops_file) "templates")
          filename in
      yaml_template_load depth config_file
  end.

End TemplateLoader.

(** ** devops.helpers.helpers

    The helpers of [devops/helpers/helpers.py] that compute a value: the
    search for a free port, the MAC generator, the attribute chain and
    the underscore join.  What they take from the world is a parameter:
    the answer of a TCP probe, the bytes of [os.urandom], the [getattr]
    of the objects. *)

Section FreePort.

(** [tcp_ping(host, port)]: whether a TCP connection to the port can be
    established.  The loop of [get_free_port] probes a port once, so
    what a probe answers is taken as a function of the port. *)
Variable tcp_ping : string -> Z -> bool.

(** [for port in ports: if not tcp_ping('localhost', port): return port],
    then the [raise] after the loop. *)
Fixpoint probe_ports (ports : list Z) : result Z :=
  match ports with
  | [] => Raise (DevopsError "No free ports available")
  | port :: ports' =>
      if negb (tcp_ping "localhost" port) then Ok port
      else probe_ports ports'
  end.

Definition get_free_port : result Z := probe_ports (range 32000 32100).

End FreePort.

(** One hexadecimal digit, lowercase. *)
Definition hex_digit (n : N) : ascii :=
  match n with
  | 0 => "0" | 1 => "1" | 2 => "2" | 3 => "3" | 4 => "4" | 5 => "5"
  | 6 => "6" | 7 => "7" | 8 => "8" | 9 => "9" | 10 => "a" | 11 => "b"
  | 12 => "c" | 13 => "d" | 14 => "e" | _ => "f"
  end%N%char.

(** ['{:02x}'.format(b)] for an item of a [bytearray]. *)
Definition format_02x (b : Byte.byte) : string :=
  let n := Byte.to_N b in
  String (hex_digit (n `div` 16))
         (String (hex_digit (n `mod` 16)) EmptyString).

(** [generate_mac]; [urandom] is [os.urandom].  [str.format] raises
    [IndexError] for a positional field without an argument and ignores
    arguments it has no field for. *)
Definition generate_mac (urandom : nat -> list Byte.byte) : result string :=
  match urandom 5%nat with
  | b0 :: b1 :: b2 :: b3 :: b4 :: _ =>
      Ok ("64:" +:+ format_02x b0 +:+ ":" +:+ format_02x b1 +:+ ":" +:+
          format_02x b2 +:+ ":" +:+ format_02x b3 +:+ ":" +:+
          format_02x b4)
  | _ => Raise IndexError
  end.

Section DeepGetAttr.

(** Python objects and the builtin [getattr], which raises
    [AttributeError] for an attribute the object does not have. *)
Context {object : Type}.
Variable getattr : object -> string -> result object.

(** [deepgetattr], for a splitter of one character:
    [functools.reduce(getattr, attr.split(splitter), obj)], where an
    [AttributeError] gives [default] unless [do_raise] is set. *)
Definition deepgetattr (obj : object) (attr : string) (default : object)
    (splitter : ascii) (do_raise : bool) : result object :=
  match for_each getattr obj (split splitter attr) with
  | Raise AttributeError =>
      if do_raise then Raise AttributeError else Ok default
  | r => r
  end.

End DeepGetAttr.

(** [underscored], for arguments that are strings: [filter(bool, ...)]
    keeps the strings that are not empty. *)
Definition underscored (args : list string) : string :=
  join "_" (filter (fun s => s ≠ EmptyString) args).

(** ** devops.client.client

    [DevopsClient.create_env] of [devops/client/client.py].  The module
    [devops.settings] it reads is a parameter: a record of the settings
    the method uses. *)

Module settings.
Record t : Type := {
  ENV_NAME : string;
  HARDWARE : gmap string Z;
  ADMIN_NODE_VOLUME_SIZE : Z;
  ISO_PATH : string;
  NODES_COUNT : Z;
  NODE_VOLUME_SIZE : Z;
  USE_ALL_DISKS : bool;
  SLAVE_MULTIPATH_DISKS_COUNT : Z;
  IRONIC_NODES_COUNT : Z;
  BONDING : bool;
  BONDING_INTERFACES : option (gmap string (list string));
  MULTIPLE_NETWORKS : bool;
  NODEGROUPS : option (list NodeGroup.t);
  INTERFACE_ORDER : list string;
  POOLS : gmap string (list string);
  FORWARDING : gmap string (option string);
  DHCP : gmap string bool;
  DRIVER_PARAMETERS : gmap string bool;
  ENABLE_LIBVIRT_NWFILTERS : bool
}.
End settings.

(** [a or d[k]] for an int: the dictionary is read only when [a] is
    [None] or zero. *)
Definition or_getitem (a : option Z) (d : gmap string Z) (k : string)
  : result Z :=
  match a with
  | Some n => if truthy n then Ok n else getitem d k
  | None => getitem d k
  end.

(** [a or b] for a string: [None] and the empty string are false. *)
Definition or_string (a : option string) (b : string) : string :=
  match a with
  | Some (String c s) => String c s
  | _ => b
  end.

(** [net_pool or d[k]]: [None] and the empty list are false. *)
Definition or_pool (net_pool : option (list string))
    (d : gmap string (list string)) (k : string) : result (list string) :=
  match net_pool with
  | Some (subnet :: subnets) => Ok (subnet :: subnets)
  | _ => getitem d k
  end.

(** The keyword arguments [create_env] passes to
    [templates.create_devops_config], evaluated in the order they are
    written. *)
Definition create_env_arguments (s : settings.t)
    (boot_from : string) (env_name admin_iso_path : option string)
    (admin_vcpu admin_memory admin_sysvolume_capacity nodes_count
     slave_vcpu slave_memory second_volume_capacity
     third_volume_capacity : option Z)
    (net_pool : option (list string)) : result Args.t :=
  let hw := settings.HARDWARE s in
  admin_vcpu ← or_getitem admin_vcpu hw "admin_node_cpu";
  admin_memory ← or_getitem admin_memory hw "admin_node_memory";
  numa_nodes ← getitem hw "numa_nodes";
  slave_vcpu ← or_getitem slave_vcpu hw "slave_node_cpu";
  slave_memory ← or_getitem slave_memory hw "slave_node_memory";
  admin ← or_pool net_pool (settings.POOLS s) "admin";
  public ← or_pool net_pool (settings.POOLS s) "public";
  management ← or_pool net_pool (settings.POOLS s) "management";
  private ← or_pool net_pool (settings.POOLS s) "private";
  storage ← or_pool net_pool (settings.POOLS s) "storage";
  enable_acpi ← getitem (settings.DRIVER_PARAMETERS s) "enable_acpi";
  mret {|
    Args.boot_from := boot_from;
    Args.env_name := or_string env_name (settings.ENV_NAME s);
    Args.admin_vcpu := admin_vcpu;
    Args.admin_memory := admin_memory;
    Args.admin_sysvolume_capacity :=
      or_else admin_sysvolume_capacity (settings.ADMIN_NODE_VOLUME_SIZE s);
    Args.admin_iso_path := or_string admin_iso_path (settings.ISO_PATH s);
    Args.nodes_count := or_else nodes_count (settings.NODES_COUNT s);
    Args.numa_nodes := numa_nodes;
    Args.slave_vcpu := slave_vcpu;
    Args.slave_memory := slave_memory;
    Args.slave_volume_capacity := settings.NODE_VOLUME_SIZE s;
    Args.second_volume_capacity :=
      Some (or_else second_volume_capacity (settings.NODE_VOLUME_SIZE s));
    Args.third_volume_capacity :=
      Some (or_else third_volume_capacity (settings.NODE_VOLUME_SIZE s));
    Args.use_all_disks := settings.USE_ALL_DISKS s;
    Args.multipath_count := settings.SLAVE_MULTIPATH_DISKS_COUNT s;
    Args.ironic_nodes_count := settings.IRONIC_NODES_COUNT s;
    Args.networks_bonding := settings.BONDING s;
    Args.networks_bondinginterfaces := settings.BONDING_INTERFACES s;
    Args.networks_multiplenetworks := settings.MULTIPLE_NETWORKS s;
    Args.networks_nodegroups := settings.NODEGROUPS s;
    Args.networks_interfaceorder := settings.INTERFACE_ORDER s;
    Args.networks_pools :=
      <["storage" := storage]>
        (<["private" := private]>
           (<["management" := management]>
              (<["public" := public]> (<["admin" := admin]> ∅))));
    Args.networks_forwarding := settings.FORWARDING s;
    Args.networks_dhcp := settings.DHCP s;
    Args.driver_enable_acpi := enable_acpi;
    Args.driver_enable_nwfilers := settings.ENABLE_LIBVIRT_NWFILTERS s |}.

(** The configuration [create_env] builds and hands to
    [create_env_from_config]; making the environment out of it is the
    work of [devops.models] and is not modelled. *)
Definition create_env (s : settings.t)
    (boot_from : string) (env_name admin_iso_path : option string)
    (admin_vcpu admin_memory admin_sysvolume_capacity nodes_count
     slave_vcpu slave_memory second_volume_capacity
     third_volume_capacity : option Z)
    (net_pool : option (list string)) : result DevopsSettings.t :=
  arguments ←
    create_env_arguments s boot_from env_name admin_iso_path admin_vcpu
      admin_memory admin_sysvolume_capacity nodes_count slave_vcpu
      slave_memory second_volume_capacity third_volume_capacity net_pool;
  create_devops_config arguments.

(** ** Vocabulary of the statements *)

(** The logical network a device is listed under in [network_config]
    and in [network_pools]. *)
Definition logical_network (device : string) : string :=
  if decide (device = "admin") then "fuelweb_admin" else device.

(** The memory shares of the cells, added up. *)
Definition total_memory (cells : list numa_cell) : Z :=
  foldr Z.add 0 (memory <$> cells).

(** The numbers of CPU ids of the cells, added up. *)
Definition total_cpus (cells : list numa_cell) : nat :=
  sum_list (count_items ∘ cpus <$> cells).

(** The cell the planner builds for index [x]. *)
Definition cell_at (cpus_per_numa memory_per_numa x : Z) : numa_cell :=
  {| cpus := join "," (str <$> seqZ (x * cpus_per_numa) cpus_per_numa);
     memory := memory_per_numa |}.

(** What a node builder yields once the interfaces are laid out and the
    NUMA cells are planned. *)
Definition layout_of (node : Node.t) (interfaces : list Interface.t)
  : Prop :=
  Node.interfaces (Node.params node) = interfaces ∧
  Node.network_config (Node.params node) = make_network_config interfaces.

(** What the loop over the address pools does to the pool of one
    network, given the size of the public subnet. *)
Definition overridden (network_size : Z) (address_pool : string)
    (pool : AddressPool.t) : AddressPool.t :=
  let pool :=
    if contains "private" address_pool then set_vlan 900 999 pool
    else pool in
  if contains "public" address_pool then
    set_ip_range "floating" [network_size / 2; -2]
      (set_ip_range "default" [2; network_size / 2 - 1] pool)
  else pool.

(** The pools of the comprehension, before the loop. *)
Definition initial_pools (interfaceorder : list string)
    (networks_pools : gmap string (list string))
  : result (list (string * AddressPool.t)) :=
  mapM (fun iname =>
          subnets ← getitem networks_pools iname;
          mret (iname, default_address_pool (join ":" subnets)))
       interfaceorder.

(** Modelled from the spec: the reader of [ip_ranges] is not part of
    [templates.py]; the spec reads a negative bound of a range as an
    offset from the end of the pool ("offset -2, i.e. excluding the
    broadcast address"), so that in a pool of [size] addresses the bound
    [-2] is the address [size - 2]. *)
Definition resolve_offset (size offset : Z) : Z :=
  if offset <? 0 then size + offset else offset.

(** The legacy settings of a small environment: five networks, three
    nodes and one ironic node. *)
Definition example_pools : gmap string (list string) :=
  <["admin" := ["10.109.0.0/16"; "24"]]>
  (<["public" := ["10.0.0.0/24"; "25"]]>
  (<["management" := ["10.109.0.0/16"; "24"]]>
  (<["private" := ["10.109.0.0/16"; "24"]]>
  (<["storage" := ["10.109.0.0/16"; "24"]]> ∅)))).

Definition example_forwarding : gmap string (option string) :=
  <["admin" := Some "nat"]>
  (<["public" := Some "nat"]>
  (<["management" := None]>
  (<["private" := None]>
  (<["storage" := None]>
  (<["ironic" := None]> ∅))))).

Definition example_dhcp : gmap string bool :=
  <["admin" := false]>
  (<["public" := false]>
  (<["management" := false]>
  (<["private" := false]>
  (<["storage" := false]>
  (<["ironic" := false]> ∅))))).

Definition example_bonding : gmap string (list string) :=
  <["admin" := ["eth0"; "eth1"]]>
  (<["public" := ["eth2"; "eth3"; "eth4"; "eth5"]]> ∅).

Definition example_args (bonding : bool)
    (second_volume_capacity : option Z) : Args.t :=
  {| Args.boot_from := "cdrom";
     Args.env_name := "fuel_system_test";
     Args.admin_vcpu := 2;
     Args.admin_memory := 3072;
     Args.admin_sysvolume_capacity := 75;
     Args.admin_iso_path := "/tmp/fuel.iso";
     Args.nodes_count := 3;
     Args.numa_nodes := 0;
     Args.slave_vcpu := 2;
     Args.slave_memory := 3027;
     Args.slave_volume_capacity := 50;
     Args.second_volume_capacity := second_volume_capacity;
     Args.third_volume_capacity := None;
     Args.use_all_disks := false;
     Args.multipath_count := 0;
     Args.ironic_nodes_count := 1;
     Args.networks_bonding := bonding;
     Args.networks_bondinginterfaces := Some example_bonding;
     Args.networks_multiplenetworks := false;
     Args.networks_nodegroups := None;
     Args.networks_interfaceorder :=
       ["admin"; "public"; "management"; "private"; "storage"];
     Args.networks_pools := example_pools;
     Args.networks_forwarding := example_forwarding;
     Args.networks_dhcp := example_dhcp;
     Args.driver_enable_acpi := false;
     Args.driver_enable_nwfilers := false |}.

(** A node has a system volume as its first volume and neither a cinder
    nor a swift volume. *)
Definition system_volume_without_extras (node : Node.t) : Prop :=
  (∃ system others,
     Node.volumes (Node.params node) = system :: others ∧
     Volume.name system = "system") ∧
  Forall (fun volume => Volume.name volume ≠ "cinder" ∧
                        Volume.name volume ≠ "swift")
         (Node.volumes (Node.params node)).

(** [includes compose files p q]: the file [p] is a document whose root
    is the directive [!include] of a path that, joined to the directory
    of [p], is the file [q]. *)
Definition includes (compose : string -> result (option node))
    (files : string -> option string) (p q : string) : Prop :=
  ∃ text tag value,
    files p = Some text ∧
    compose text = Ok (Some (ScalarNode tag value)) ∧
    tag = "!include" ∧
    posixpath.join (posixpath.dirname p) value = q.

(** The composition of the few one-scalar documents of the examples, as
    PyYAML composes them: a tagged scalar for a directive, a string
    scalar for a plain word. *)
Definition compose_examples (text : string) : result (option node) :=
  if decide (text = "!include a.yaml")
  then Ok (Some (ScalarNode "!include" "a.yaml"))
  else if decide (text = "!include b.yaml")
  then Ok (Some (ScalarNode "!include" "b.yaml"))
  else if decide (text = "!os_env FOO,bar")
  then Ok (Some (ScalarNode "!os_env" "FOO,bar"))
  else if decide (text = "bar")
  then Ok (Some (ScalarNode "tag:yaml.org,2002:str" "bar"))
  else if decide (text = "baz")
  then Ok (Some (ScalarNode "tag:yaml.org,2002:str" "baz"))
  else Raise YAMLError.

(** PyYAML builds the string itself for a string scalar. *)
Definition construct_str (tag value : string) : result string :=
  if decide (tag = "tag:yaml.org,2002:str") then Ok value
  else Raise YAMLError.

(** Files where [a.yaml] includes itself, and [conf/a.yaml] and
    [conf/b.yaml] include each other. *)
Definition cyclic_files (path : string) : option string :=
  if decide (path = "a.yaml") then Some "!include a.yaml"
  else if decide (path = "conf/b.yaml") then Some "!include a.yaml"
  else if decide (path = "conf/a.yaml") then Some "!include b.yaml"
  else None.

(** An environment without [FOO], and one where [FOO=baz]. *)
Definition env_unset (name : string) : option string := None.

Definition env_foo_baz (name : string) : option string :=
  if decide (name = "FOO") then Some "baz" else None.

(** The bonding dictionary, as the list of its (label, device) pairs in
    the order the comprehension visits them. *)
Definition bonding_pairs (l : list (string * list string))
  : list (string * string) :=
  '(iname, labels) ← l; (fun label => (label, iname)) <$> labels.

(** The size [address_pool_overrides] splits the public ranges at, when
    the public entry gives one. *)
Definition public_size_or_zero (networks_pools : gmap string (list string))
  : Z :=
  match public_network_size networks_pools with
  | Ok size => size
  | Raise _ => 0
  end.

(** A composer for one-line documents, for the examples: a line that
    starts with a directive composes to a scalar of that tag, the empty
    text to no document, and any other line to a string scalar. *)
Definition compose_line (text : string) : result (option node) :=
  if String.prefix "!include " text then
    Ok (Some (ScalarNode "!include"
                (String.substring 9 (String.length text - 9) text)))
  else if String.prefix "!os_env " text then
    Ok (Some (ScalarNode "!os_env"
                (String.substring 8 (String.length text - 8) text)))
  else if decide (text = EmptyString) then Ok None
  else Ok (Some (ScalarNode "tag:yaml.org,2002:str" text)).

(** Files of the examples: a template that includes a file of its
    directory, and that file. *)
Definition nested_files (path : string) : option string :=
  if decide (path = "templates/default.yaml")
  then Some "!include parts/nodes.yaml"
  else if decide (path = "templates/parts/nodes.yaml")
  then Some "slave"
  else None.

(** The value of a lowercase hexadecimal digit. *)
Definition hex_value (c : ascii) : option N :=
  let n := N_of_ascii c in
  if ((48 <=? n) && (n <=? 57))%N then Some (n - 48)%N
  else if ((97 <=? n) && (n <=? 102))%N then Some (n - 87)%N
  else None.

(** The octets of a MAC address written as two-digit hexadecimal numbers
    with [":"] between them. *)
Fixpoint octets_of_mac (mac : string) : option (list N) :=
  match mac with
  | String h (String l rest) =>
      match hex_value h, hex_value l with
      | Some a, Some b =>
          match rest with
          | EmptyString => Some [16 * a + b]%N
          | String c rest' =>
              if Ascii.eqb c ":"%char
              then cons (16 * a + b)%N <$> octets_of_mac rest'
              else None
          end
      | _, _ => None
      end
  | _ => None
  end.

(** The five networks [create_env] gives a pool. *)
Definition client_networks : list string :=
  ["admin"; "public"; "management"; "private"; "storage"].

(** An argument of [create_env] as the method reads it: zero, the empty
    string and the empty list count as not given. *)
Definition given (a : option Z) : option Z :=
  match a with
  | Some n => if truthy n then Some n else None
  | None => None
  end.

Definition given_string (a : option string) : option string :=
  match a with
  | Some (String c s) => Some (String c s)
  | _ => None
  end.

Definition given_pool (a : option (list string)) : option (list string) :=
  match a with
  | Some (subnet :: subnets) => Some (subnet :: subnets)
  | _ => None
  end.

(** Settings for the examples. *)
Definition example_settings (interface_order : list string) : settings.t :=
  {| settings.ENV_NAME := "fuel_system_test";
     settings.HARDWARE :=
       <["admin_node_cpu" := 2]>
         (<["admin_node_memory" := 3072]>
            (<["numa_nodes" := 0]>
               (<["slave_node_cpu" := 2]>
                  (<["slave_node_memory" := 3027]> ∅))));
     settings.ADMIN_NODE_VOLUME_SIZE := 75;
     settings.ISO_PATH := "/tmp/fuel.iso";
     settings.NODES_COUNT := 3;
     settings.NODE_VOLUME_SIZE := 50;
     settings.USE_ALL_DISKS := false;
     settings.SLAVE_MULTIPATH_DISKS_COUNT := 0;
     settings.IRONIC_NODES_COUNT := 0;
     settings.BONDING := false;
     settings.BONDING_INTERFACES := Some example_bonding;
     settings.MULTIPLE_NETWORKS := false;
     settings.NODEGROUPS := None;
     settings.INTERFACE_ORDER := interface_order;
     settings.POOLS := example_pools;
     settings.FORWARDING := example_forwarding;
     settings.DHCP := example_dhcp;
     settings.DRIVER_PARAMETERS := <["enable_acpi" := false]> ∅;
     settings.ENABLE_LIBVIRT_NWFILTERS := false |}.

(** A scalar that is neither a directive of the loader nor tagged for a
    Python object ([!!python/name:...] and the like, which [yaml.Loader]
    resolves by importing and calling). *)
Definition plain_tag (tag : string) : bool :=
  negb (bool_decide (tag = "!include")) &&
  negb (bool_decide (tag = "!os_env")) &&
  negb (String.prefix "tag:yaml.org,2002:python/" tag).

(** A key that [flatten_mapping] leaves alone and that can be hashed: a
    scalar other than the merge key [<<] and the value key [=]. *)
Definition plain_key (n : node) : bool :=
  match n with
  | ScalarNode tag _ =>
      negb (bool_decide (tag = "tag:yaml.org,2002:merge")) &&
      negb (bool_decide (tag = "tag:yaml.org,2002:value"))
  | _ => false
  end.

(** A node graph the loader builds from the text alone: the scalars are
    plain, the sequences and the mappings carry the default tags of
    YAML, and the keys of the mappings are plain keys. *)
Fixpoint plain (n : node) : bool :=
  match n with
  | ScalarNode tag _ => plain_tag tag
  | SequenceNode tag items =>
      bool_decide (tag = DEFAULT_SEQUENCE_TAG) && forallb plain items
  | MappingNode tag pairs =>
      bool_decide (tag = DEFAULT_MAPPING_TAG) &&
      forallb (fun pair =>
                 plain_key (fst pair) && plain (fst pair)
                 && plain (snd pair)) pairs
  end.

(** A composer for the examples: every text is the mapping
    [{name: env, nodes: [admin, slave]}]. *)
Definition compose_mapping (text : string) : result (option node) :=
  Ok (Some (MappingNode DEFAULT_MAPPING_TAG
              [ (ScalarNode "tag:yaml.org,2002:str" "name",
                 ScalarNode "tag:yaml.org,2002:str" "env");
                (ScalarNode "tag:yaml.org,2002:str" "nodes",
                 SequenceNode DEFAULT_SEQUENCE_TAG
                   [ ScalarNode "tag:yaml.org,2002:str" "admin";
                     ScalarNode "tag:yaml.org,2002:str" "slave" ]) ])).

(** * Proofs *)

(** ** Decimal strings and comma-joined lists *)

Section Strings.

Lemma commas_app (a b : string) :
  commas (a +:+ b) = (commas a + commas b)%nat.
Proof. induction a as [|c a IH]; simpl; [done|]. rewrite IH. lia. Qed.

Lemma pretty_N_char_not_comma (x : N) :
  Ascii.eqb (pretty_N_char x) ","%char = false.
Proof. unfold pretty_N_char. by repeat case_match. Qed.

Lemma commas_pretty_N_go (x : N) (s : string) :
  commas (pretty_N_go x s) = commas s.
Proof.
  revert s. induction (N.lt_wf_0 x) as [x _ IH]; intros s.
  destruct (decide (x = 0)%N) as [->|Hx]; [done|].
  rewrite pretty_N_go_step by lia.
  rewrite IH by (apply N.div_lt; lia).
  simpl. by rewrite pretty_N_char_not_comma.
Qed.

Lemma pretty_N_go_length (x : N) (s : string) :
  (String.length s <= String.length (pretty_N_go x s))%nat.
Proof.
  revert s. induction (N.lt_wf_0 x) as [x _ IH]; intros s.
  destruct (decide (x = 0)%N) as [->|Hx]; [done|].
  rewrite pretty_N_go_step by lia.
  etrans; [|apply IH, N.div_lt; lia]. simpl. lia.
Qed.

Lemma pretty_N_nonempty (x : N) : pretty x ≠ EmptyString.
Proof.
  unfold pretty, pretty_N. case_decide; [done|].
  rewrite pretty_N_go_step by lia.
  intros E.
  pose proof (pretty_N_go_length (x `div` 10)
                (String (pretty_N_char (x `mod` 10)) EmptyString)) as H1.
  rewrite E in H1. simpl in H1. lia.
Qed.

Lemma commas_pretty_N (x : N) : commas (pretty x) = 0%nat.
Proof.
  unfold pretty, pretty_N. case_decide; [done|].
  by rewrite commas_pretty_N_go.
Qed.

Lemma commas_str (z : Z) : commas (str z) = 0%nat.
Proof.
  unfold str, pretty, pretty_Z. destruct z as [|p|p]; [done|..].
  - apply commas_pretty_N.
  - rewrite commas_app. unfold pretty, pretty_positive.
    by rewrite commas_pretty_N.
Qed.

Lemma str_nonempty (z : Z) : str z ≠ EmptyString.
Proof.
  unfold str, pretty, pretty_Z. destruct z as [|p|p]; [done|..].
  - apply pretty_N_nonempty.
  - done.
Qed.

Lemma count_items_cons (a : string) :
  a ≠ EmptyString -> count_items a = S (commas a).
Proof. by destruct a. Qed.

(** A comma-joined list of comma-free, non-empty items has as many
    items as the list. *)
Lemma count_items_join (l : list string) :
  Forall (fun a => a ≠ EmptyString /\ commas a = 0%nat) l ->
  count_items (join "," l) = length l.
Proof.
  intros Hl.
  assert (forall a l', a ≠ EmptyString -> commas a = 0%nat ->
            Forall (fun a => a ≠ EmptyString /\ commas a = 0%nat) l' ->
            join "," (a :: l') ≠ EmptyString /\
            commas (join "," (a :: l')) = length l') as Hgo.
  { intros a l'. revert a.
    induction l' as [|b l' IH]; intros a Ha Hc Hl'; simpl.
    - done.
    - apply Forall_cons in Hl' as [[Hb Hcb] Hl'].
      destruct (IH b Hb Hcb Hl') as [_ IHc].
      split; [by destruct a|].
      change (commas (a +:+ "," +:+ join "," (b :: l')) = S (length l')).
      rewrite !commas_app, Hc, IHc. done. }
  destruct Hl as [|a l' [Ha Hc] Hl']; [done|].
  destruct (Hgo a l' Ha Hc Hl') as [Hne Hcm].
  rewrite count_items_cons by done. by rewrite Hcm.
Qed.

Lemma count_items_join_str (l : list Z) :
  count_items (join "," (str <$> l)) = length l.
Proof.
  rewrite count_items_join, length_fmap; [done|].
  apply Forall_fmap, Forall_forall. intros z _. simpl.
  split; [apply str_nonempty | apply commas_str].
Qed.

Lemma prefix_app (a b : string) : String.prefix a (a +:+ b) = true.
Proof.
  induction a as [|c a IH]; simpl; [by destruct b|].
  destruct (Ascii.ascii_dec c c); [done|congruence].
Qed.

Lemma contains_app_r (needle a b : string) :
  contains needle b = true -> contains needle (a +:+ b) = true.
Proof.
  intros H. induction a as [|c a IH]; simpl; [done|].
  rewrite IH. apply orb_true_r.
Qed.

Lemma contains_prefix (needle s : string) :
  String.prefix needle s = true -> contains needle s = true.
Proof. intros H. destruct s; unfold contains; fold contains; by rewrite H. Qed.

Lemma contains_infix (needle a b : string) :
  contains needle (a +:+ needle +:+ b) = true.
Proof. apply contains_app_r, contains_prefix, prefix_app. Qed.

End Strings.

(** ** The NUMA planner *)

Section NumaPlanner.

Lemma exact_division (a n : Z) :
  n ≠ 0 -> (a / n * n =? a) = bool_decide (a mod n = 0).
Proof.
  intros Hn. pose proof (Z.div_mod a n Hn) as H.
  revert H. generalize (a / n) (a mod n). intros q r H.
  case_bool_decide; [apply Z.eqb_eq | apply Z.eqb_neq]; lia.
Qed.

Lemma calculate_numa_cells (numa_nodes vcpu mem : Z) (name : string) :
  numa_nodes ≠ 0 ->
  vcpu mod numa_nodes = 0 -> mem mod numa_nodes = 0 ->
  _calculate_numa numa_nodes vcpu mem name =
  Ok (cell_at (vcpu / numa_nodes) (mem / numa_nodes)
        <$> seqZ 0 numa_nodes).
Proof.
  intros Hn Hv Hm. unfold _calculate_numa, truthy.
  rewrite (proj2 (Z.eqb_neq _ _) Hn); simpl.
  rewrite !exact_division by done.
  rewrite !bool_decide_eq_true_2 by done; simpl.
  f_equal. unfold range. rewrite Z.sub_0_r.
  apply list_fmap_ext. intros _ x _. unfold cell_at.
  by replace ((x + 1) * (vcpu / numa_nodes) - x * (vcpu / numa_nodes))
    with (vcpu / numa_nodes) by ring.
Qed.

Lemma total_cpus_cons (cell : numa_cell) (cells : list numa_cell) :
  total_cpus (cell :: cells)
  = (count_items (cpus cell) + total_cpus cells)%nat.
Proof. done. Qed.

Lemma total_memory_cons (cell : numa_cell) (cells : list numa_cell) :
  total_memory (cell :: cells) = memory cell + total_memory cells.
Proof. done. Qed.

Lemma total_cpus_cells (c m : Z) (l : list Z) :
  total_cpus (cell_at c m <$> l) = (length l * Z.to_nat c)%nat.
Proof.
  induction l as [|x l IH]; [done|].
  rewrite fmap_cons, total_cpus_cons, IH.
  unfold cell_at at 1. cbn [cpus].
  rewrite count_items_join_str, length_seqZ. done.
Qed.

Lemma total_memory_cells (c m : Z) (l : list Z) :
  total_memory (cell_at c m <$> l) = Z.of_nat (length l) * m.
Proof.
  induction l as [|x l IH]; [done|].
  rewrite fmap_cons, total_memory_cons, IH.
  unfold cell_at at 1. cbn [memory length]. lia.
Qed.

End NumaPlanner.

(** C1. For [numa_nodes > 0] and a CPU count and a memory size that
    [numa_nodes] divides, [_calculate_numa] returns exactly [numa_nodes]
    cells; cell [i] holds the comma-joined ids [i*c, ..., (i+1)*c - 1]
    with [c = vcpu / numa_nodes] and the memory share
    [memory / numa_nodes]; the numbers of ids of the cells add up to
    [vcpu] and the memory shares add up to [memory]. *)
Theorem calculate_numa_exact_split
    (numa_nodes vcpu mem : Z) (name : string) :
  0 < numa_nodes -> 0 <= vcpu ->
  vcpu mod numa_nodes = 0 -> mem mod numa_nodes = 0 ->
  ∃ cells,
    _calculate_numa numa_nodes vcpu mem name = Ok cells ∧
    length cells = Z.to_nat numa_nodes ∧
    (∀ i, 0 <= i < numa_nodes ->
       cells !! Z.to_nat i =
       Some {| cpus := join ","
                 (str <$> seqZ (i * (vcpu / numa_nodes))
                               (vcpu / numa_nodes));
               memory := mem / numa_nodes |}) ∧
    Z.of_nat (total_cpus cells) = vcpu ∧
    total_memory cells = mem.
Proof.
  intros Hn Hv Hdv Hdm.
  eexists. split; [apply calculate_numa_cells; [lia|done..]|].
  assert (vcpu = numa_nodes * (vcpu / numa_nodes)) as Ev
    by (apply Z.div_exact; [lia|done]).
  assert (mem = numa_nodes * (mem / numa_nodes)) as Em
    by (apply Z.div_exact; [lia|done]).
  assert (0 <= vcpu / numa_nodes) as Hc by (apply Z.div_pos; lia).
  revert Ev Em Hc. generalize (vcpu / numa_nodes) (mem / numa_nodes).
  intros c m Ev Em Hc. repeat split.
  - by rewrite length_fmap, length_seqZ.
  - intros i Hi. rewrite list_lookup_fmap, lookup_seqZ_lt by lia.
    simpl. unfold cell_at. by rewrite Z2Nat.id by lia.
  - rewrite total_cpus_cells, length_seqZ.
    rewrite Nat2Z.inj_mul, !Z2Nat.id by lia. lia.
  - rewrite total_memory_cells, length_seqZ, Z2Nat.id by lia. lia.
Qed.

Lemma calculate_numa_exact_split_witness :
  ∃ cells,
    _calculate_numa 2 4 1024 "slave-01" = Ok cells ∧
    length cells = 2%nat ∧
    (∀ i, 0 <= i < 2 ->
       cells !! Z.to_nat i =
       Some {| cpus := join "," (str <$> seqZ (i * (4 / 2)) (4 / 2));
               memory := 1024 / 2 |}) ∧
    Z.of_nat (total_cpus cells) = 4 ∧
    total_memory cells = 1024.
Proof.
  apply (calculate_numa_exact_split 2 4 1024 "slave-01");
    [lia | lia | reflexivity | reflexivity].
Defined.

(** C3. For [numa_nodes > 0], a CPU count that [numa_nodes] does not
    divide makes [_calculate_numa] raise a [DevopsError] whose message
    contains the node name, and no cells are returned; when the CPU count
    divides evenly, a memory size that [numa_nodes] does not divide fails
    in the same way. *)
Theorem calculate_numa_rejects_uneven
    (numa_nodes vcpu mem : Z) (name : string) :
  0 < numa_nodes ->
  (vcpu mod numa_nodes ≠ 0 ->
   ∃ msg, _calculate_numa numa_nodes vcpu mem name
          = Raise (DevopsError msg) ∧
          msg = numa_cpu_error numa_nodes vcpu name ∧
          contains name msg = true) ∧
  (vcpu mod numa_nodes = 0 -> mem mod numa_nodes ≠ 0 ->
   ∃ msg, _calculate_numa numa_nodes vcpu mem name
          = Raise (DevopsError msg) ∧
          msg = numa_memory_error numa_nodes mem name ∧
          contains name msg = true).
Proof.
  intros Hn. unfold _calculate_numa, truthy.
  rewrite (proj2 (Z.eqb_neq numa_nodes 0)) by lia; simpl.
  rewrite !exact_division by lia.
  split.
  - intros Hv. rewrite bool_decide_eq_false_2 by done; simpl.
    eexists. split; [done|]. split; [done|].
    unfold numa_cpu_error.
    do 5 apply contains_app_r. apply contains_prefix, prefix_app.
  - intros Hv Hm. rewrite bool_decide_eq_true_2 by done; simpl.
    rewrite bool_decide_eq_false_2 by done; simpl.
    eexists. split; [done|]. split; [done|].
    unfold numa_memory_error.
    do 5 apply contains_app_r. apply contains_prefix, prefix_app.
Qed.

Lemma calculate_numa_rejects_uneven_witness :
  (∃ msg, _calculate_numa 2 5 1024 "slave-01" = Raise (DevopsError msg) ∧
          msg = numa_cpu_error 2 5 "slave-01" ∧
          contains "slave-01" msg = true) ∧
  (∃ msg, _calculate_numa 2 4 1023 "slave-01" = Raise (DevopsError msg) ∧
          msg = numa_memory_error 2 1023 "slave-01" ∧
          contains "slave-01" msg = true).
Proof.
  split.
  - apply (calculate_numa_rejects_uneven 2 5 1024 "slave-01");
      [lia | vm_compute; discriminate].
  - apply (calculate_numa_rejects_uneven 2 4 1023 "slave-01");
      [lia | reflexivity | vm_compute; discriminate].
Defined.

(** ** Dictionaries and loops *)

Section Dictionaries.

Context {A V : Type} (key : A -> string) (val : A -> V).

Lemma dict_of_snoc (l : list A) (x : A) :
  dict_of key val (l ++ [x]) = <[key x := val x]> (dict_of key val l).
Proof. unfold dict_of. by rewrite foldl_app. Qed.

Lemma lookup_dict_of_None (l : list A) (k : string) :
  k ∉ key <$> l -> dict_of key val l !! k = None.
Proof.
  induction l as [|x l IH] using rev_ind; intros Hk; [done|].
  rewrite dict_of_snoc. rewrite fmap_app, elem_of_app in Hk.
  rewrite lookup_insert_ne.
  - apply IH. tauto.
  - intros <-. apply Hk. right. simpl. apply list_elem_of_here.
Qed.

Lemma lookup_dict_of_Some (l : list A) (k : string) (v : V) :
  dict_of key val l !! k = Some v -> ∃ x, x ∈ l ∧ key x = k ∧ val x = v.
Proof.
  induction l as [|x l IH] using rev_ind; intros Hk; [done|].
  rewrite dict_of_snoc in Hk.
  destruct (decide (key x = k)) as [<-|Hne].
  - rewrite lookup_insert_eq in Hk. injection Hk as <-.
    exists x. rewrite elem_of_app, list_elem_of_singleton. tauto.
  - rewrite lookup_insert_ne in Hk by done.
    destruct (IH Hk) as (y & Hy & Hky & Hvy).
    exists y. rewrite elem_of_app. tauto.
Qed.

Lemma lookup_dict_of_is_Some (l : list A) (x : A) :
  x ∈ l -> is_Some (dict_of key val l !! key x).
Proof.
  induction l as [|y l IH] using rev_ind; intros Hx.
  - by apply elem_of_nil in Hx.
  - rewrite dict_of_snoc. destruct (decide (key y = key x)) as [E|Hne].
    + rewrite E, lookup_insert_eq. eauto.
    + rewrite lookup_insert_ne by done. apply IH.
      apply elem_of_app in Hx as [Hx|Hx]; [done|].
      apply list_elem_of_singleton in Hx. congruence.
Qed.

(** With distinct keys, every element is found under its key. *)
Lemma lookup_dict_of_NoDup (l : list A) (x : A) :
  NoDup (key <$> l) -> x ∈ l -> dict_of key val l !! key x = Some (val x).
Proof.
  induction l as [|y l IH] using rev_ind; intros Hnd Hx.
  - by apply elem_of_nil in Hx.
  - rewrite dict_of_snoc.
    rewrite fmap_app in Hnd. apply NoDup_app in Hnd as (Hl & Hy & _).
    apply elem_of_app in Hx as [Hx|Hx].
    + rewrite lookup_insert_ne; [by apply IH|].
      intros E. apply (Hy (key x)); [by apply list_elem_of_fmap_2|].
      rewrite <- E. simpl. apply list_elem_of_here.
    + apply list_elem_of_singleton in Hx as ->.
      by rewrite lookup_insert_eq.
Qed.

Lemma elem_of_keys_dict_of (l : list A) (k : string) :
  k ∈ keys (dict_of key val l) <-> k ∈ key <$> l.
Proof.
  unfold keys. split.
  - intros Hk. apply list_elem_of_fmap in Hk as ([k' v] & -> & Hkv).
    apply elem_of_map_to_list in Hkv.
    apply lookup_dict_of_Some in Hkv as (x & Hx & <- & _).
    exact (list_elem_of_fmap_2 key l x Hx).
  - intros Hk. apply list_elem_of_fmap in Hk as (x & -> & Hx).
    destruct (lookup_dict_of_is_Some l x Hx) as [v Hv].
    apply (list_elem_of_fmap_2' fst _ (key x, v)); [|done].
    by apply elem_of_map_to_list.
Qed.

End Dictionaries.

Section ResultMonad.

Context {A B : Type}.

Lemma mapM_Ok_cons (f : A -> result B) (x : A) (l : list A) (r : list B) :
  mapM f (x :: l) = Ok r <->
  ∃ y r', r = y :: r' ∧ f x = Ok y ∧ mapM f l = Ok r'.
Proof.
  simpl. unfold mbind, result_bind, mret, result_ret.
  destruct (f x) as [y|e]; [|split; [done|by intros (?&?&?&?&?)]].
  destruct (mapM f l) as [r'|e].
  - split; [intros [= <-]; eauto|].
    by intros (y' & r'' & -> & [= <-] & [= <-]).
  - split; [done|]. by intros (?&?&?&?&?).
Qed.

Lemma mapM_Ok_Forall2 (f : A -> result B) (l : list A) (r : list B) :
  mapM f l = Ok r <-> Forall2 (fun x y => f x = Ok y) l r.
Proof.
  revert r. induction l as [|x l IH]; intros r.
  - simpl. split.
    + intros [= <-]. constructor.
    + intros H. by apply Forall2_nil_inv_l in H as ->.
  - rewrite mapM_Ok_cons. split.
    + intros (y & r' & -> & Hy & Hr). constructor; [done|by apply IH].
    + intros H. apply Forall2_cons_inv_l in H as (y & r' & Hy & Hr & ->).
      exists y, r'. by rewrite IH.
Qed.

(** A comprehension raises what its first failing element raises. *)
Lemma mapM_Raise_first (f : A -> result B) (l1 l2 : list A) (x : A)
    (e : exn) :
  Forall (fun x => ∃ y, f x = Ok y) l1 -> f x = Raise e ->
  mapM f (l1 ++ x :: l2) = Raise e.
Proof.
  intros Hl1 Hx. induction Hl1 as [|z l1 [y Hy] _ IH]; simpl.
  - by rewrite Hx.
  - rewrite Hy. simpl. unfold mbind, result_bind at 1.
    simpl in IH. by rewrite IH.
Qed.

End ResultMonad.

(** ** Interface layout and network configuration *)

Section InterfaceLayout.

Lemma sequential_interfaces_lookup (order : list string) (n : nat) :
  sequential_interfaces order !! n =
  e1000 ("iface" +:+ str (Z.of_nat n)) <$> order !! n.
Proof. unfold sequential_interfaces. by rewrite list_lookup_imap. Qed.

Lemma sequential_interfaces_devices (order : list string) :
  Interface.l2_network_device <$> sequential_interfaces order = order.
Proof.
  apply list_eq. intros n.
  rewrite list_lookup_fmap, sequential_interfaces_lookup.
  by destruct (order !! n).
Qed.

Lemma sequential_interfaces_labels (order : list string) :
  NoDup (Interface.label <$> sequential_interfaces order).
Proof.
  apply NoDup_alt. intros i j lbl.
  rewrite !list_lookup_fmap, !sequential_interfaces_lookup.
  destruct (order !! i), (order !! j); simpl; try done.
  intros [= <-] [= E]. apply (inj str) in E. lia.
Qed.

Lemma sorted_Permutation (l : list string) : sorted l ≡ₚ l.
Proof. apply merge_sort_Permutation. Qed.

Lemma keys_NoDup {V} (d : gmap string V) : NoDup (keys d).
Proof. apply NoDup_fst_map_to_list. Qed.

Lemma bonding_interfaces_Ok
    (d : gmap string (list string)) (l : list Interface.t) :
  bonding_interfaces (Some d) = Ok l ->
  Interface.label <$> l = sorted (keys (invert_bonding d)) ∧
  Forall (fun iface =>
            invert_bonding d !! Interface.label iface
            = Some (Interface.l2_network_device iface)) l.
Proof.
  unfold bonding_interfaces. rewrite mapM_Ok_Forall2.
  generalize (sorted (keys (invert_bonding d))).
  intros labels H. induction H as [|lbl iface labels l Hi _ [IH1 IH2]].
  - done.
  - unfold getitem in Hi.
    destruct (invert_bonding d !! lbl) as [iname|] eqn:E; [|done].
    injection Hi as <-. simpl. split; [by f_equal|].
    constructor; [done|apply IH2].
Qed.

(** The bonding layout never fails on a dictionary: every sorted label is
    a key of the inverted dictionary. *)
Lemma bonding_interfaces_total (d : gmap string (list string)) :
  ∃ l, bonding_interfaces (Some d) = Ok l.
Proof.
  unfold bonding_interfaces.
  assert (Forall (fun lbl => is_Some (invert_bonding d !! lbl))
            (sorted (keys (invert_bonding d)))) as H.
  { apply Forall_forall. intros lbl Hl.
    rewrite sorted_Permutation in Hl. unfold keys in Hl.
    apply list_elem_of_fmap in Hl as ([k v] & -> & Hkv).
    apply elem_of_map_to_list in Hkv. eauto. }
  induction H as [|lbl labels [iname Hi] _ [l IH]].
  - by exists [].
  - exists (e1000 lbl iname :: l). apply mapM_Ok_cons.
    exists (e1000 lbl iname), l. unfold getitem. by rewrite Hi.
Qed.

Lemma bonding_interfaces_labels
    (d : gmap string (list string)) (l : list Interface.t) :
  bonding_interfaces (Some d) = Ok l -> NoDup (Interface.label <$> l).
Proof.
  intros H. apply bonding_interfaces_Ok in H as [-> _].
  rewrite sorted_Permutation. apply keys_NoDup.
Qed.

Lemma invert_bonding_dict_of (d : gmap string (list string)) :
  invert_bonding d = dict_of fst snd (bonding_pairs (map_to_list d)).
Proof.
  unfold invert_bonding, dict_of. generalize (map_to_list d).
  generalize (∅ : gmap string string).
  intros m l. revert m. induction l as [|[iname labels] l IH]; intros m.
  - done.
  - simpl. rewrite IH. unfold bonding_pairs. simpl.
    rewrite foldl_app. f_equal.
    clear. revert m. induction labels as [|label labels IH]; intros m.
    + done.
    + simpl. by rewrite IH.
Qed.

Lemma elem_of_bonding_pairs (d : gmap string (list string))
    (label iname : string) :
  (label, iname) ∈ bonding_pairs (map_to_list d) <->
  ∃ labels, d !! iname = Some labels ∧ label ∈ labels.
Proof.
  unfold bonding_pairs. rewrite list_elem_of_bind. split.
  - intros ([iname' labels] & Hin & Hd).
    apply list_elem_of_fmap in Hin as (label' & [= -> ->] & Hl).
    apply elem_of_map_to_list in Hd. eauto.
  - intros (labels & Hd & Hl). exists (iname, labels). split.
    + apply list_elem_of_fmap. eauto.
    + by apply elem_of_map_to_list.
Qed.

(** Every interface of the bonding layout is attached to a device under
    which the dictionary lists its label, and every label the dictionary
    lists has an interface. *)
Lemma bonding_interfaces_devices
    (d : gmap string (list string)) (l : list Interface.t)
    (iface : Interface.t) :
  bonding_interfaces (Some d) = Ok l -> iface ∈ l ->
  ∃ labels,
    d !! Interface.l2_network_device iface = Some labels ∧
    Interface.label iface ∈ labels.
Proof.
  intros H Hin. apply bonding_interfaces_Ok in H as [_ Hdev].
  rewrite Forall_forall in Hdev. specialize (Hdev iface Hin).
  rewrite invert_bonding_dict_of in Hdev.
  apply lookup_dict_of_Some in Hdev as ([lbl dev] & Hp & Hk & Hv).
  simpl in Hk, Hv. subst. by apply elem_of_bonding_pairs.
Qed.

Lemma bonding_interfaces_complete
    (d : gmap string (list string)) (l : list Interface.t)
    (iname label : string) (labels : list string) :
  bonding_interfaces (Some d) = Ok l ->
  d !! iname = Some labels -> label ∈ labels ->
  label ∈ Interface.label <$> l.
Proof.
  intros H Hd Hin. apply bonding_interfaces_Ok in H as [-> _].
  rewrite sorted_Permutation, invert_bonding_dict_of.
  apply elem_of_keys_dict_of.
  apply (list_elem_of_fmap_2 fst _ (label, iname)).
  apply elem_of_bonding_pairs. eauto.
Qed.

Lemma network_of_admin : network_of "admin" = "fuelweb_admin".
Proof. done. Qed.

Lemma network_of_other (device : string) :
  device ≠ "admin" -> network_of device = device.
Proof. intros H. unfold network_of. by rewrite decide_True. Qed.

Lemma make_network_config_lookup
    (interfaces : list Interface.t) (iface : Interface.t) :
  NoDup (Interface.label <$> interfaces) -> iface ∈ interfaces ->
  make_network_config interfaces !! Interface.label iface =
  Some {| NetworkConfig.networks :=
            [network_of (Interface.l2_network_device iface)] |}.
Proof. intros Hnd Hi. unfold make_network_config.
  by rewrite (lookup_dict_of_NoDup _ _ interfaces iface). Qed.

Lemma create_admin_config_Ok
    (admin_vcpu admin_memory admin_sysvolume_capacity : Z)
    (admin_iso_path boot_from : string) (interfaceorder : list string)
    (numa_nodes : Z) (networks_bonding : bool)
    (networks_bondinginterfaces : option (gmap string (list string)))
    (node : Node.t) :
  create_admin_config admin_vcpu admin_memory admin_sysvolume_capacity
    admin_iso_path boot_from interfaceorder numa_nodes networks_bonding
    networks_bondinginterfaces = Ok node ->
  ∃ interfaces numa,
    (if networks_bonding
     then bonding_interfaces networks_bondinginterfaces
     else Ok (sequential_interfaces interfaceorder)) = Ok interfaces ∧
    _calculate_numa numa_nodes admin_vcpu admin_memory "admin" = Ok numa ∧
    layout_of node interfaces ∧
    Node.name node = "admin" ∧ Node.role node = "fuel_master" ∧
    Node.numa (Node.params node) = numa ∧
    (Volume.name <$> Node.volumes (Node.params node)) = ["system"; "iso"].
Proof.
  unfold create_admin_config. intros H.
  destruct (if networks_bonding then _ else _) as [interfaces|e];
    [|done].
  simpl in H.
  destruct (_calculate_numa numa_nodes admin_vcpu admin_memory "admin")
    as [numa|e]; [|by destruct (decide (boot_from = "usb"))].
  exists interfaces, numa.
  destruct (decide (boot_from = "usb")); simpl in H;
    injection H as <-; by repeat split.
Qed.

Lemma create_slave_config_Ok
    (slave_name slave_role : string)
    (slave_vcpu slave_memory slave_volume_capacity : Z)
    (interfaceorder : list string) (numa_nodes : Z)
    (second_volume_capacity third_volume_capacity : option Z)
    (use_all_disks : bool) (multipath_count : Z)
    (networks_multiplenetworks : bool)
    (networks_nodegroups : option (list NodeGroup.t))
    (networks_bonding : bool)
    (networks_bondinginterfaces : option (gmap string (list string)))
    (node : Node.t) :
  create_slave_config slave_name slave_role slave_vcpu slave_memory
    slave_volume_capacity interfaceorder numa_nodes
    second_volume_capacity third_volume_capacity use_all_disks
    multipath_count networks_multiplenetworks networks_nodegroups
    networks_bonding networks_bondinginterfaces = Ok node ->
  ∃ interfaces numa,
    (if networks_multiplenetworks then
       sequential_interfaces <$>
         nodegroup_pools slave_name networks_nodegroups
     else if networks_bonding then
       bonding_interfaces networks_bondinginterfaces
     else Ok (sequential_interfaces interfaceorder)) = Ok interfaces ∧
    _calculate_numa numa_nodes slave_vcpu slave_memory slave_name
      = Ok numa ∧
    layout_of node interfaces ∧
    Node.name node = slave_name ∧ Node.role node = slave_role ∧
    Node.numa (Node.params node) = numa ∧
    Node.volumes (Node.params node) =
      slave_volumes slave_volume_capacity second_volume_capacity
        third_volume_capacity use_all_disks multipath_count.
Proof.
  unfold create_slave_config. intros H.
  destruct (if networks_multiplenetworks then _ else _)
    as [interfaces|e]; [|done].
  simpl in H.
  destruct (_calculate_numa numa_nodes slave_vcpu slave_memory slave_name)
    as [numa|e]; [|done].
  exists interfaces, numa. simpl in H. injection H as <-.
  by repeat split.
Qed.

(** The labels of a node's interfaces are pairwise distinct, in each of
    the three layouts. *)
Lemma layout_labels_NoDup
    (multiple bonding : bool) (pools : result (list string))
    (bondinginterfaces : option (gmap string (list string)))
    (interfaceorder : list string) (interfaces : list Interface.t) :
  (if multiple then sequential_interfaces <$> pools
   else if bonding then bonding_interfaces bondinginterfaces
   else Ok (sequential_interfaces interfaceorder)) = Ok interfaces ->
  NoDup (Interface.label <$> interfaces).
Proof.
  destruct multiple; [|destruct bonding].
  - destruct pools as [p|e]; [|done]. intros [= <-].
    apply sequential_interfaces_labels.
  - destruct bondinginterfaces as [d|]; [|done].
    apply bonding_interfaces_labels.
  - intros [= <-]. apply sequential_interfaces_labels.
Qed.

End InterfaceLayout.

Section NetworkPools.

Lemma network_of_logical (device : string) :
  network_of device = logical_network device.
Proof. unfold network_of, logical_network. by repeat case_decide. Qed.

Lemma create_netpools_dict (interfaceorder : list string) :
  create_netpools interfaceorder = dict_of logical_network id interfaceorder.
Proof. done. Qed.

End NetworkPools.

(** C10 (as the code has it). In the [network_config] of the admin node
    and of a slave node, every interface is listed, under its label,
    with the logical network of its device: ["fuelweb_admin"] for the
    device ["admin"], the device name itself for any other device.  The
    interfaces themselves carry the device names as they were given,
    ["admin"] included: the names of the ordering in the sequential
    layout, the pools of the node group with multiple networks, and with
    bonding a key of the bonding dictionary that lists the label of the
    interface.  Every entry of [network_pools] maps the logical network
    of a device of the ordering to that device, and a device is found
    under its logical network when no other device of the ordering
    shares that logical network. *)
Theorem admin_device_exposed_as_fuelweb_admin
    (admin_vcpu admin_memory admin_sysvolume_capacity : Z)
    (admin_iso_path boot_from : string) (admin_order : list string)
    (numa_nodes : Z) (networks_bonding : bool)
    (networks_bondinginterfaces : option (gmap string (list string)))
    (slave_name slave_role : string)
    (slave_vcpu slave_memory slave_volume_capacity : Z)
    (slave_order : list string)
    (second_volume_capacity third_volume_capacity : option Z)
    (use_all_disks : bool) (multipath_count : Z)
    (networks_multiplenetworks : bool)
    (networks_nodegroups : option (list NodeGroup.t))
    (interfaceorder : list string)
    (admin slave : Node.t) :
  create_admin_config admin_vcpu admin_memory admin_sysvolume_capacity
    admin_iso_path boot_from admin_order numa_nodes networks_bonding
    networks_bondinginterfaces = Ok admin ->
  create_slave_config slave_name slave_role slave_vcpu slave_memory
    slave_volume_capacity slave_order numa_nodes
    second_volume_capacity third_volume_capacity use_all_disks
    multipath_count networks_multiplenetworks networks_nodegroups
    networks_bonding networks_bondinginterfaces = Ok slave ->
  (∀ node iface,
     node ∈ [admin; slave] ->
     iface ∈ Node.interfaces (Node.params node) ->
     Node.network_config (Node.params node) !! Interface.label iface =
     Some {| NetworkConfig.networks :=
               [logical_network (Interface.l2_network_device iface)] |}) ∧
  (networks_bonding = false ->
   Interface.l2_network_device <$> Node.interfaces (Node.params admin)
   = admin_order) ∧
  (networks_multiplenetworks = false -> networks_bonding = false ->
   Interface.l2_network_device <$> Node.interfaces (Node.params slave)
   = slave_order) ∧
  (networks_multiplenetworks = true ->
   ∃ pools,
     nodegroup_pools slave_name networks_nodegroups = Ok pools ∧
     Interface.l2_network_device <$> Node.interfaces (Node.params slave)
     = pools) ∧
  (networks_bonding = true ->
   ∃ bonding,
     networks_bondinginterfaces = Some bonding ∧
     ∀ node iface,
       node = admin ∨ (node = slave ∧ networks_multiplenetworks = false) ->
       iface ∈ Node.interfaces (Node.params node) ->
       ∃ labels,
         bonding !! Interface.l2_network_device iface = Some labels ∧
         Interface.label iface ∈ labels) ∧
  (∀ netname iname,
     create_netpools interfaceorder !! netname = Some iname ->
     iname ∈ interfaceorder ∧ netname = logical_network iname) ∧
  (∀ iname,
     iname ∈ interfaceorder ->
     (∀ other, other ∈ interfaceorder ->
        logical_network other = logical_network iname -> other = iname) ->
     create_netpools interfaceorder !! logical_network iname = Some iname) ∧
  logical_network "admin" = "fuelweb_admin" ∧
  (∀ device, device ≠ "admin" -> logical_network device = device).
Proof.
  intros Ha Hs.
  apply create_admin_config_Ok in Ha
    as (ia & na & Hia & _ & [Eia Eca] & _).
  apply create_slave_config_Ok in Hs
    as (ifs & ns & His & _ & [Eis Ecs] & _).
  assert (NoDup (Interface.label <$> ia)) as Hnda.
  { apply (layout_labels_NoDup false networks_bonding (Ok [])
             networks_bondinginterfaces admin_order). exact Hia. }
  assert (NoDup (Interface.label <$> ifs)) as Hnds.
  { by apply (layout_labels_NoDup networks_multiplenetworks
                networks_bonding
                (nodegroup_pools slave_name networks_nodegroups)
                networks_bondinginterfaces slave_order). }
  split; [|split; [|split; [|split; [|split; [|split; [|split; [|split]]]]]]].
  - intros node iface Hnode Hiface.
    rewrite <- network_of_logical.
    apply elem_of_cons in Hnode as [->|Hnode];
      [|apply list_elem_of_singleton in Hnode as ->].
    + rewrite Eca. rewrite Eia in Hiface.
      by apply make_network_config_lookup.
    + rewrite Ecs. rewrite Eis in Hiface.
      by apply make_network_config_lookup.
  - intros ->. injection Hia as <-. rewrite Eia.
    apply sequential_interfaces_devices.
  - intros -> ->. injection His as <-. rewrite Eis.
    apply sequential_interfaces_devices.
  - intros ->.
    destruct (nodegroup_pools slave_name networks_nodegroups)
      as [pools|e]; [|done].
    injection His as <-. exists pools. split; [done|]. rewrite Eis.
    apply sequential_interfaces_devices.
  - intros ->.
    destruct networks_bondinginterfaces as [bonding|]; [|done].
    exists bonding. split; [done|].
    intros node iface [->|[-> ->]] Hiface.
    + rewrite Eia in Hiface.
      by apply (bonding_interfaces_devices bonding ia).
    + rewrite Eis in Hiface.
      by apply (bonding_interfaces_devices bonding ifs).
  - intros netname iname H. rewrite create_netpools_dict in H.
    apply lookup_dict_of_Some in H as (x & Hx & <- & <-).
    done.
  - intros iname Hin Huniq. rewrite create_netpools_dict.
    destruct (lookup_dict_of_is_Some logical_network id interfaceorder
                iname Hin) as [v Hv].
    rewrite Hv. f_equal.
    apply lookup_dict_of_Some in Hv as (x & Hx & Hk & <-).
    apply Huniq; [done|]. exact Hk.
  - done.
  - intros device Hd. unfold logical_network. by rewrite decide_False.
Qed.

Lemma admin_device_exposed_as_fuelweb_admin_witness :
  ∃ admin slave,
    create_admin_config 2 3072 75 "/tmp/fuel.iso" "cdrom"
      ["admin"; "public"] 0 false None = Ok admin ∧
    create_slave_config "slave-01" "fuel_slave" 2 3072 50
      ["admin"; "public"] 0 None None false 0 false None false None
      = Ok slave ∧
    (∀ node iface,
       node ∈ [admin; slave] ->
       iface ∈ Node.interfaces (Node.params node) ->
       Node.network_config (Node.params node) !! Interface.label iface =
       Some {| NetworkConfig.networks :=
                 [logical_network (Interface.l2_network_device iface)] |}) ∧
    create_netpools ["admin"; "public"] !! "fuelweb_admin" = Some "admin".
Proof.
  eexists _, _. split; [vm_compute; reflexivity|].
  split; [vm_compute; reflexivity|].
  pose proof (admin_device_exposed_as_fuelweb_admin
                2 3072 75 "/tmp/fuel.iso" "cdrom" ["admin"; "public"] 0
                false None "slave-01" "fuel_slave" 2 3072 50
                ["admin"; "public"] None None false 0 false None
                ["admin"; "public"] _ _ eq_refl eq_refl)
    as (Hcfg & _ & _ & _ & _ & _ & Hpool & _).
  split; [exact Hcfg|].
  apply (Hpool "admin").
  - apply list_elem_of_here.
  - intros other Hin. vm_compute in Hin.
    repeat (apply elem_of_cons in Hin as [->|Hin]; [by vm_compute|]).
    by apply elem_of_nil in Hin.
Defined.

(** C10, as stated, fails for [network_pools]: in an ordering that
    lists a device ["fuelweb_admin"] after the device ["admin"], the
    entry of ["fuelweb_admin"] names the later device, and the device
    ["admin"] is found under no logical network at all. *)
Lemma network_pools_admin_overwritten_counterexample :
  ¬ (∀ interfaceorder,
       "admin" ∈ interfaceorder ->
       create_netpools interfaceorder !! "fuelweb_admin" = Some "admin") ∧
  create_netpools ["admin"; "fuelweb_admin"] !! "fuelweb_admin"
  = Some "fuelweb_admin" ∧
  ∀ netname,
    create_netpools ["admin"; "fuelweb_admin"] !! netname ≠ Some "admin".
Proof.
  assert (create_netpools ["admin"; "fuelweb_admin"]
          = <["fuelweb_admin" := "fuelweb_admin"]> ∅) as E.
  { unfold create_netpools. simpl. apply insert_insert_eq. }
  split; [|split].
  - intros H. specialize (H ["admin"; "fuelweb_admin"]).
    rewrite E, lookup_insert_eq in H.
    by specialize (H (list_elem_of_here _ _)).
  - by rewrite E, lookup_insert_eq.
  - intros netname. rewrite E.
    destruct (decide (netname = "fuelweb_admin")) as [->|Hne].
    + by rewrite lookup_insert_eq.
    + by rewrite lookup_insert_ne.
Qed.

(** C4 (as the code has it). The admin node carries a system volume and
    an iso volume.  With [boot_from = "usb"] the iso volume is a ["disk"]
    on the ["usb"] bus, the node boots from ["hd"] and the boot menu
    timeout is 3000; with any other [boot_from] the iso volume is a
    ["cdrom"] on the ["ide"] bus, the node boots from ["hd"] then
    ["cdrom"], and the boot menu timeout is 0. *)
Theorem admin_iso_device_and_bootmenu
    (admin_vcpu admin_memory admin_sysvolume_capacity : Z)
    (admin_iso_path boot_from : string) (interfaceorder : list string)
    (numa_nodes : Z) (networks_bonding : bool)
    (networks_bondinginterfaces : option (gmap string (list string)))
    (node : Node.t) :
  create_admin_config admin_vcpu admin_memory admin_sysvolume_capacity
    admin_iso_path boot_from interfaceorder numa_nodes networks_bonding
    networks_bondinginterfaces = Ok node ->
  ∃ system iso,
    Node.volumes (Node.params node) = [system; iso] ∧
    Volume.name system = "system" ∧ Volume.name iso = "iso" ∧
    Volume.source_image iso = Some admin_iso_path ∧
    (boot_from = "usb" ->
     Volume.device iso = Some "disk" ∧ Volume.bus iso = Some "usb" ∧
     Node.boot (Node.params node) = ["hd"] ∧
     Node.bootmenu_timeout (Node.params node) = Some 3000) ∧
    (boot_from ≠ "usb" ->
     Volume.device iso = Some "cdrom" ∧ Volume.bus iso = Some "ide" ∧
     Node.boot (Node.params node) = ["hd"; "cdrom"] ∧
     Node.bootmenu_timeout (Node.params node) = Some 0).
Proof.
  unfold create_admin_config. intros H.
  destruct (if networks_bonding then _ else _) as [interfaces|e];
    [|done].
  simpl in H.
  destruct (_calculate_numa numa_nodes admin_vcpu admin_memory "admin")
    as [numa|e]; [|by destruct (decide (boot_from = "usb"))].
  destruct (decide (boot_from = "usb")) as [Hb|Hb]; simpl in H;
    injection H as <-; eexists _, _; simpl; by repeat split.
Qed.

Lemma admin_iso_device_and_bootmenu_witness :
  ∃ node system iso,
    create_admin_config 2 3072 75 "/tmp/fuel.iso" "usb"
      ["admin"; "public"] 0 false None = Ok node ∧
    Node.volumes (Node.params node) = [system; iso] ∧
    Volume.device iso = Some "disk" ∧ Volume.bus iso = Some "usb" ∧
    Node.bootmenu_timeout (Node.params node) = Some 3000.
Proof.
  eexists _.
  destruct (admin_iso_device_and_bootmenu 2 3072 75 "/tmp/fuel.iso" "usb"
              ["admin"; "public"] 0 false None _ eq_refl)
    as (system & iso & Hv & _ & _ & _ & Husb & _).
  destruct (Husb eq_refl) as (Hd & Hb & _ & Ht).
  exists system, iso. by repeat split.
Defined.

(** C4, as stated, fails: booting from usb does not give a zero boot
    menu timeout, and booting from cdrom does not give a non-zero one. *)
Lemma admin_bootmenu_counterexample :
  ¬ (∀ node,
       create_admin_config 2 3072 75 "/tmp/fuel.iso" "usb"
         ["admin"; "public"] 0 false None = Ok node ->
       Node.bootmenu_timeout (Node.params node) = Some 0) ∧
  ¬ (∀ node,
       create_admin_config 2 3072 75 "/tmp/fuel.iso" "cdrom"
         ["admin"; "public"] 0 false None = Ok node ->
       ∃ t, Node.bootmenu_timeout (Node.params node) = Some t ∧ t ≠ 0).
Proof.
  split.
  - intros Husb. by specialize (Husb _ eq_refl).
  - intros Hcd. destruct (Hcd _ eq_refl) as (t & [= <-] & Ht). done.
Qed.

(** ** Address pools *)

Section AddressPools.

Lemma update_item_Ok {V} (k : string) (f : V -> V) (d d' : gmap string V) :
  update_item k f d = Ok d' <->
  ∃ v, d !! k = Some v ∧ d' = <[k := f v]> d.
Proof.
  unfold update_item, getitem. destruct (d !! k) as [v|]; simpl.
  - split; [intros [= <-]; eauto|]. by intros (v' & [= <-] & ->).
  - split; [done|]. by intros (v' & ? & _).
Qed.

Lemma address_pool_overrides_Ok
    (networks_pools : gmap string (list string))
    (aps : gmap string AddressPool.t) (k : string) (pool : AddressPool.t)
    (network_size : Z) :
  aps !! k = Some pool ->
  (contains "public" k = true ->
   public_network_size networks_pools = Ok network_size) ->
  address_pool_overrides networks_pools aps k =
  Ok (<[k := overridden network_size k pool]> aps).
Proof.
  intros Hk Hsize. unfold address_pool_overrides, overridden.
  assert (∀ (f : AddressPool.t -> AddressPool.t) d v,
            d !! k = Some v -> update_item k f d = Ok (<[k := f v]> d))
    as Hupd by (intros f d v Hv; apply update_item_Ok; eauto).
  destruct (contains "private" k); simpl.
  - rewrite (Hupd _ _ _ Hk). simpl.
    destruct (contains "public" k); simpl.
    + rewrite Hsize by done. simpl.
      rewrite (Hupd _ _ _ (lookup_insert_eq _ _ _)). simpl.
      rewrite (Hupd _ _ _ (lookup_insert_eq _ _ _)).
      by rewrite !insert_insert_eq.
    + done.
  - destruct (contains "public" k); simpl.
    + rewrite Hsize by done. simpl.
      rewrite (Hupd _ _ _ Hk). simpl.
      rewrite (Hupd _ _ _ (lookup_insert_eq _ _ _)).
      by rewrite !insert_insert_eq.
    + by rewrite insert_id.
Qed.

(** A step of the loop, when it returns, has replaced the pool under its
    key and nothing else. *)
Lemma address_pool_overrides_inv
    (networks_pools : gmap string (list string))
    (aps aps' : gmap string AddressPool.t) (k : string) :
  is_Some (aps !! k) ->
  address_pool_overrides networks_pools aps k = Ok aps' ->
  ∃ pool pool', aps !! k = Some pool ∧ aps' = <[k := pool']> aps.
Proof.
  intros [pool Hk] H. exists pool.
  destruct (contains "public" k) eqn:Hpub.
  - destruct (public_network_size networks_pools) as [size|e] eqn:Hs.
    + rewrite (address_pool_overrides_Ok _ _ _ pool size) in H by done.
      injection H as <-. eauto.
    + unfold address_pool_overrides in H. rewrite Hpub, Hs in H.
      by destruct (if contains "private" k then _ else _).
  - rewrite (address_pool_overrides_Ok _ _ _ pool 0) in H
      by (try done; intros; congruence).
    injection H as <-. eauto.
Qed.

Lemma for_each_overrides_Ok
    (networks_pools : gmap string (list string)) (network_size : Z)
    (ks : list string) (aps : gmap string AddressPool.t) :
  NoDup ks ->
  Forall (fun k => is_Some (aps !! k)) ks ->
  (∀ k, k ∈ ks -> contains "public" k = true ->
        public_network_size networks_pools = Ok network_size) ->
  ∃ aps',
    for_each (address_pool_overrides networks_pools) aps ks = Ok aps' ∧
    ∀ k, aps' !! k =
         if decide (k ∈ ks) then overridden network_size k <$> aps !! k
         else aps !! k.
Proof.
  intros Hnd. revert aps.
  induction Hnd as [|k ks Hk Hnd IH]; intros aps Hall Hsize.
  - exists aps. split; [done|]. intros k. rewrite decide_False; [done|].
    apply not_elem_of_nil.
  - apply Forall_cons in Hall as [[pool Hpool] Hall]. simpl.
    rewrite (address_pool_overrides_Ok _ _ _ pool network_size);
      [|done|intros; apply (Hsize k); [apply list_elem_of_here|done]].
    simpl.
    destruct (IH (<[k := overridden network_size k pool]> aps))
      as (aps' & -> & Hlook).
    + eapply Forall_impl; [exact Hall|]. intros j Hj. simpl.
      destruct (decide (k = j)) as [->|Hne].
      * rewrite lookup_insert_eq. eauto.
      * by rewrite lookup_insert_ne.
    + intros j Hj. apply Hsize. by apply list_elem_of_further.
    + exists aps'. split; [done|]. intros j. rewrite Hlook.
      destruct (decide (j = k)) as [->|Hne].
      * rewrite decide_False by done.
        rewrite decide_True by apply list_elem_of_here.
        by rewrite lookup_insert_eq, Hpool.
      * rewrite lookup_insert_ne by done.
        destruct (decide (j ∈ ks)).
        -- rewrite decide_True; [done|]. by apply list_elem_of_further.
        -- rewrite decide_False; [done|].
           rewrite elem_of_cons. tauto.
Qed.

Lemma for_each_overrides_dom
    (networks_pools : gmap string (list string))
    (ks : list string) (aps aps' : gmap string AddressPool.t) :
  Forall (fun k => is_Some (aps !! k)) ks ->
  for_each (address_pool_overrides networks_pools) aps ks = Ok aps' ->
  ∀ j, is_Some (aps' !! j) <-> is_Some (aps !! j).
Proof.
  revert aps. induction ks as [|k ks IH]; intros aps Hall H.
  - injection H as <-. done.
  - apply Forall_cons in Hall as [Hk Hall]. simpl in H.
    destruct (address_pool_overrides networks_pools aps k)
      as [aps1|e] eqn:E; [|done].
    apply address_pool_overrides_inv in E as (pool & pool' & Hp & ->);
      [|done].
    simpl in H.
    assert (Forall (fun i => is_Some (<[k := pool']> aps !! i)) ks)
      as Hall'.
    { eapply Forall_impl; [exact Hall|]. intros i Hi. simpl.
      destruct (decide (k = i)) as [->|Hne].
      - rewrite lookup_insert_eq. eauto.
      - by rewrite lookup_insert_ne. }
    intros j. rewrite (IH _ Hall' H).
    destruct (decide (k = j)) as [->|Hne].
    + rewrite lookup_insert_eq, Hp. split; eauto.
    + by rewrite lookup_insert_ne.
Qed.

Lemma initial_pools_Ok (interfaceorder : list string)
    (networks_pools : gmap string (list string))
    (l : list (string * AddressPool.t)) :
  initial_pools interfaceorder networks_pools = Ok l ->
  l.*1 = interfaceorder ∧
  Forall (fun '(iname, pool) =>
            ∃ subnets, networks_pools !! iname = Some subnets ∧
                       pool = default_address_pool (join ":" subnets)) l.
Proof.
  unfold initial_pools. rewrite mapM_Ok_Forall2.
  induction 1 as [|iname [k pool] order l Hi _ [IH1 IH2]]; [done|].
  unfold getitem in Hi.
  destruct (networks_pools !! iname) as [subnets|] eqn:E; [|done].
  injection Hi as <- <-. simpl. split; [by f_equal|].
  constructor; [eauto|done].
Qed.

Lemma initial_pools_total (interfaceorder : list string)
    (networks_pools : gmap string (list string)) :
  Forall (fun iname => is_Some (networks_pools !! iname)) interfaceorder ->
  ∃ l, initial_pools interfaceorder networks_pools = Ok l.
Proof.
  unfold initial_pools. induction 1 as [|iname order [subnets Hi] _ [l IH]].
  - by exists [].
  - eexists (_ :: l). apply mapM_Ok_cons. eexists _, l.
    split; [done|]. split; [|done]. unfold getitem. by rewrite Hi.
Qed.

Lemma create_address_pools_unfold (interfaceorder : list string)
    (networks_pools : gmap string (list string)) :
  create_address_pools interfaceorder networks_pools =
  (pools ← initial_pools interfaceorder networks_pools;
   for_each (address_pool_overrides networks_pools)
            (dict_of fst snd pools) (keys (dict_of fst snd pools))).
Proof. done. Qed.

Lemma keys_is_Some {V} (d : gmap string V) :
  Forall (fun k => is_Some (d !! k)) (keys d).
Proof.
  apply Forall_forall. intros k Hk. unfold keys in Hk.
  apply list_elem_of_fmap in Hk as ([k' v] & -> & Hkv).
  apply elem_of_map_to_list in Hkv. eauto.
Qed.

(** The address pools have exactly the networks of the ordering as keys. *)
Lemma create_address_pools_dom (interfaceorder : list string)
    (networks_pools : gmap string (list string))
    (aps : gmap string AddressPool.t) :
  create_address_pools interfaceorder networks_pools = Ok aps ->
  ∀ k, is_Some (aps !! k) <-> k ∈ interfaceorder.
Proof.
  rewrite create_address_pools_unfold. intros H.
  destruct (initial_pools interfaceorder networks_pools) as [l|e] eqn:E;
    [|done].
  simpl in H. intros k.
  rewrite (for_each_overrides_dom _ _ _ _ (keys_is_Some _) H).
  apply initial_pools_Ok in E as [<- _].
  split.
  - intros [v Hv]. apply lookup_dict_of_Some in Hv as (x & Hx & <- & _).
    by apply list_elem_of_fmap_2.
  - intros Hk. apply list_elem_of_fmap in Hk as (x & -> & Hx).
    by apply lookup_dict_of_is_Some.
Qed.

End AddressPools.

(** C9 (as the code has it). When a network of the ordering has no
    entry in [networks_pools], [create_address_pools] fails with the
    [KeyError] of the dictionary lookup, carrying the first such network
    of the ordering; no [DevopsError] is raised. *)
Theorem create_address_pools_unresolved_network
    (interfaceorder : list string)
    (networks_pools : gmap string (list string)) :
  Exists (fun iname => networks_pools !! iname = None) interfaceorder ->
  ∃ resolved missing rest,
    interfaceorder = (resolved ++ missing :: rest)%list ∧
    Forall (fun iname => is_Some (networks_pools !! iname)) resolved ∧
    networks_pools !! missing = None ∧
    create_address_pools interfaceorder networks_pools
    = Raise (KeyError missing).
Proof.
  intros Hex.
  assert (∃ resolved missing rest,
            interfaceorder = (resolved ++ missing :: rest)%list ∧
            Forall (fun iname => is_Some (networks_pools !! iname))
                   resolved ∧
            networks_pools !! missing = None)
    as (resolved & missing & rest & -> & Hres & Hmiss).
  { induction Hex as [iname l Hi|iname l _ (res & m & rest & -> & Hr & Hm)].
    - by exists [], iname, l.
    - destruct (networks_pools !! iname) as [subnets|] eqn:E.
      + exists (iname :: res), m, rest.
        split; [done|]. split; [|done]. constructor; [eauto|done].
      + by exists [], iname, (res ++ m :: rest)%list. }
  exists resolved, missing, rest. repeat split; try done.
  rewrite create_address_pools_unfold. unfold initial_pools.
  rewrite (mapM_Raise_first _ resolved rest missing (KeyError missing)).
  - done.
  - eapply Forall_impl; [exact Hres|]. intros iname [subnets Hs]. simpl.
    unfold getitem. rewrite Hs. eauto.
  - unfold getitem. by rewrite Hmiss.
Qed.

Lemma create_address_pools_unresolved_network_witness :
  ∃ resolved missing rest,
    ["admin"; "storage"; "public"] = (resolved ++ missing :: rest)%list ∧
    Forall (fun iname =>
              is_Some ((<["admin" := ["10.109.0.0/16"; "24"]]> ∅
                        : gmap string (list string)) !! iname)) resolved ∧
    (<["admin" := ["10.109.0.0/16"; "24"]]> ∅
     : gmap string (list string)) !! missing = None ∧
    create_address_pools ["admin"; "storage"; "public"]
      (<["admin" := ["10.109.0.0/16"; "24"]]> ∅)
    = Raise (KeyError missing).
Proof.
  apply (create_address_pools_unresolved_network
           ["admin"; "storage"; "public"]
           (<["admin" := ["10.109.0.0/16"; "24"]]> ∅)).
  apply Exists_cons_tl, Exists_cons_hd. reflexivity.
Defined.

(** C9, as stated, fails: the failure is not the project's error. *)
Lemma create_address_pools_unresolved_counterexample :
  ¬ ∃ msg,
      create_address_pools ["admin"; "storage"]
        (<["admin" := ["10.109.0.0/16"; "24"]]> ∅)
      = Raise (DevopsError msg).
Proof. intros [msg H]. vm_compute in H. discriminate H. Qed.

(** C2 (as the code has it). When every network of the ordering has an
    entry in [networks_pools] and the entry of ["public"] starts with the
    subnet ["10.0.0.0/24"] and the prefix length ["25"], the pool of
    every network of the ordering whose name contains ["public"] has the
    default range [[2, 63]] and the floating range [[64, -2]]: the end of
    the floating range is the offset [-2], which in the 128 addresses of
    the subnet is address 126, so that the two ranges are disjoint and
    lie within [[2, 126]]. *)
Theorem public_pool_default_and_floating_ranges
    (interfaceorder : list string)
    (networks_pools : gmap string (list string))
    (more : list string) (name : string) :
  Forall (fun iname => is_Some (networks_pools !! iname)) interfaceorder ->
  networks_pools !! "public" = Some ("10.0.0.0/24" :: "25" :: more) ->
  name ∈ interfaceorder -> contains "public" name = true ->
  ∃ address_pools pool,
    create_address_pools interfaceorder networks_pools = Ok address_pools ∧
    address_pools !! name = Some pool ∧
    ∃ default_end floating_start floating_end,
      AddressPool.ip_ranges (AddressPool.params pool) !! "default"
      = Some [2; default_end] ∧
      AddressPool.ip_ranges (AddressPool.params pool) !! "floating"
      = Some [floating_start; floating_end] ∧
      default_end = 63 ∧ floating_start = 64 ∧ floating_end = -2 ∧
      resolve_offset 128 floating_end = 126 ∧
      default_end < floating_start ∧
      floating_start <= resolve_offset 128 floating_end.
Proof.
  intros Hall Hpub Hname Hcontains.
  assert (public_network_size networks_pools = Ok 128) as Hsize.
  { unfold public_network_size, getitem. rewrite Hpub. reflexivity. }
  rewrite create_address_pools_unfold.
  destruct (initial_pools_total _ _ Hall) as [l Hl]. rewrite Hl. simpl.
  destruct (for_each_overrides_Ok networks_pools 128
              (keys (dict_of fst snd l)) (dict_of fst snd l))
    as (aps & Haps & Hlook);
    [apply keys_NoDup | apply keys_is_Some | done |].
  apply initial_pools_Ok in Hl as [Hkeys _].
  assert (name ∈ l.*1) as Hin by by rewrite Hkeys.
  apply list_elem_of_fmap in Hin as ([k pool0] & -> & Hin).
  destruct (lookup_dict_of_is_Some fst snd l _ Hin) as [pool Hpool].
  simpl in *.
  exists aps, (overridden 128 k pool). split; [done|].
  split.
  { rewrite Hlook, decide_True, Hpool; [done|].
    apply elem_of_keys_dict_of.
    exact (list_elem_of_fmap_2 fst l (k, pool0) Hin). }
  exists 63, 64, (-2).
  unfold overridden. rewrite Hcontains.
  unfold set_ip_range; simpl.
  split; [by rewrite lookup_insert_ne, lookup_insert_eq|].
  split; [by rewrite lookup_insert_eq|]. done.
Qed.

Lemma public_pool_default_and_floating_ranges_witness :
  ∃ address_pools pool,
    create_address_pools ["admin"; "public"]
      (<["admin" := ["10.109.0.0/16"; "24"]]>
         (<["public" := ["10.0.0.0/24"; "25"]]> ∅)) = Ok address_pools ∧
    address_pools !! "public" = Some pool ∧
    ∃ default_end floating_start floating_end,
      AddressPool.ip_ranges (AddressPool.params pool) !! "default"
      = Some [2; default_end] ∧
      AddressPool.ip_ranges (AddressPool.params pool) !! "floating"
      = Some [floating_start; floating_end] ∧
      default_end = 63 ∧ floating_start = 64 ∧ floating_end = -2 ∧
      resolve_offset 128 floating_end = 126 ∧
      default_end < floating_start ∧
      floating_start <= resolve_offset 128 floating_end.
Proof.
  apply (public_pool_default_and_floating_ranges
           ["admin"; "public"]
           (<["admin" := ["10.109.0.0/16"; "24"]]>
              (<["public" := ["10.0.0.0/24"; "25"]]> ∅))
           [] "public").
  - apply Forall_cons_2; [eexists; reflexivity|].
    apply Forall_cons_2; [eexists; reflexivity|]. apply Forall_nil_2.
  - reflexivity.
  - apply list_elem_of_further, list_elem_of_here.
  - reflexivity.
Defined.

(** C2, as stated, fails: the floating range the code stores ends with
    the offset [-2], not with the address 126. *)
Lemma public_pool_floating_counterexample :
  ¬ ∃ address_pools pool,
      create_address_pools ["admin"; "public"]
        (<["admin" := ["10.109.0.0/16"; "24"]]>
           (<["public" := ["10.0.0.0/24"; "25"]]> ∅)) = Ok address_pools ∧
      address_pools !! "public" = Some pool ∧
      AddressPool.ip_ranges (AddressPool.params pool) !! "floating"
      = Some [64; 126].
Proof.
  intros (aps & pool & Haps & Hpool & Hfl).
  vm_compute in Haps. injection Haps as <-.
  vm_compute in Hpool. injection Hpool as <-.
  vm_compute in Hfl. discriminate Hfl.
Qed.

(** ** The configuration assembler *)

Section Assembler.

Lemma append_each_mapM {A B} (build : A -> result B)
    (config_nodes : list B) (l : list A) :
  append_each build config_nodes l =
  (configs ← mapM build l; mret (config_nodes ++ configs)%list).
Proof.
  unfold append_each. revert config_nodes.
  induction l as [|x l IH]; intros config_nodes; simpl.
  - unfold mret, result_ret. by rewrite app_nil_r.
  - destruct (build x) as [y|e]; simpl; [|done].
    rewrite IH. destruct (mapM build l) as [ys|e]; simpl; [|done].
    unfold mret, result_ret. by rewrite <- app_assoc.
Qed.

Lemma create_l2_network_devices_dom (interfaceorder : list string)
    (networks_dhcp : gmap string bool)
    (networks_forwarding : gmap string (option string))
    (devices : gmap string L2NetworkDevice.t) :
  create_l2_network_devices interfaceorder networks_dhcp
    networks_forwarding = Ok devices ->
  ∀ k, is_Some (devices !! k) <-> k ∈ interfaceorder.
Proof.
  unfold create_l2_network_devices. intros H.
  destruct (mapM _ interfaceorder) as [l|e] eqn:E; [|done].
  injection H as <-.
  assert (l.*1 = interfaceorder) as <-.
  { apply mapM_Ok_Forall2 in E.
    induction E as [|iname [k dev] order l Hi _ IH]; [done|].
    unfold getitem in Hi.
    destruct (networks_dhcp !! iname); [|done].
    destruct (networks_forwarding !! iname); [|done].
    injection Hi as <- <-. simpl. by f_equal. }
  intros k. split.
  - intros [v Hv]. apply lookup_dict_of_Some in Hv as (x & Hx & <- & _).
    by apply list_elem_of_fmap_2.
  - intros Hk. apply list_elem_of_fmap in Hk as (x & -> & Hx).
    by apply lookup_dict_of_is_Some.
Qed.

(** The parts a configuration is assembled from. *)
Lemma create_devops_config_Ok (a : Args.t) (config : DevopsSettings.t) :
  create_devops_config a = Ok config ->
  ∃ l2_interfaceorder l2_network_devices admin slaves ironics group,
    (if Args.networks_bonding a
     then bonding_keys (Args.networks_bondinginterfaces a)
     else Ok (Args.networks_interfaceorder a)) = Ok l2_interfaceorder ∧
    create_address_pools (Args.networks_interfaceorder a)
      (Args.networks_pools a) = Ok (DevopsSettings.address_pools config) ∧
    create_l2_network_devices l2_interfaceorder (Args.networks_dhcp a)
      (Args.networks_forwarding a) = Ok l2_network_devices ∧
    create_admin_config (Args.admin_vcpu a) (Args.admin_memory a)
      (Args.admin_sysvolume_capacity a) (Args.admin_iso_path a)
      (Args.boot_from a) l2_interfaceorder (Args.numa_nodes a)
      (Args.networks_bonding a) (Args.networks_bondinginterfaces a)
      = Ok admin ∧
    mapM (slave_node a l2_interfaceorder) (range 1 (Args.nodes_count a))
      = Ok slaves ∧
    mapM (ironic_node a) (range 1 (Args.ironic_nodes_count a + 1))
      = Ok ironics ∧
    DevopsSettings.groups config = [group] ∧
    Group.network_pools group
      = create_netpools (Args.networks_interfaceorder a) ∧
    Group.l2_network_devices group = l2_network_devices ∧
    Group.nodes group = (admin :: slaves ++ ironics)%list.
Proof.
  unfold create_devops_config. intros H.
  destruct (if Args.networks_bonding a then _ else _) as [l2|e] eqn:E1;
    [|done].
  simpl in H.
  destruct (create_address_pools _ _) as [aps|e] eqn:E2; [|done].
  simpl in H.
  destruct (create_l2_network_devices _ _ _) as [devices|e] eqn:E3;
    [|done].
  simpl in H.
  destruct (create_admin_config _ _ _ _ _ _ _ _ _) as [admin|e] eqn:E4;
    [|done].
  simpl in H. rewrite !append_each_mapM in H.
  destruct (mapM (slave_node a l2) _) as [slaves|e] eqn:E5; [|done].
  simpl in H. rewrite append_each_mapM in H.
  destruct (mapM (ironic_node a) _) as [ironics|e] eqn:E6; [|done].
  simpl in H. injection H as <-.
  eexists l2, devices, admin, slaves, ironics, _. simpl.
  repeat split; done.
Qed.

End Assembler.

(** C6 (as the code has it). With bonding requested, the keys of the
    bonding dictionary are the ordering of the L2 network devices only:
    the L2 network devices have exactly those keys, while the address
    pools and the network pools are built from the caller-supplied
    [networks_interfaceorder]. *)
Theorem bonding_orders_l2_devices_only
    (a : Args.t) (bonding : gmap string (list string))
    (config : DevopsSettings.t) :
  Args.networks_bonding a = true ->
  Args.networks_bondinginterfaces a = Some bonding ->
  create_devops_config a = Ok config ->
  ∃ group,
    DevopsSettings.groups config = [group] ∧
    create_l2_network_devices (keys bonding) (Args.networks_dhcp a)
      (Args.networks_forwarding a) = Ok (Group.l2_network_devices group) ∧
    (∀ k, is_Some (Group.l2_network_devices group !! k)
          <-> k ∈ keys bonding) ∧
    create_address_pools (Args.networks_interfaceorder a)
      (Args.networks_pools a) = Ok (DevopsSettings.address_pools config) ∧
    (∀ k, is_Some (DevopsSettings.address_pools config !! k)
          <-> k ∈ Args.networks_interfaceorder a) ∧
    Group.network_pools group
      = create_netpools (Args.networks_interfaceorder a).
Proof.
  intros Hb Hd H.
  apply create_devops_config_Ok in H
    as (l2 & devices & admin & slaves & ironics & group
        & Hl2 & Haps & Hdev & _ & _ & _ & Hg & Hnp & Hgd & _).
  rewrite Hb, Hd in Hl2. injection Hl2 as <-.
  exists group. rewrite Hgd.
  repeat split; try done.
  - by apply (create_l2_network_devices_dom _ _ _ _ Hdev).
  - by apply (create_l2_network_devices_dom _ _ _ _ Hdev).
  - by apply (create_address_pools_dom _ _ _ Haps).
  - by apply (create_address_pools_dom _ _ _ Haps).
Qed.

Lemma bonding_orders_l2_devices_only_witness :
  ∃ config group,
    create_devops_config (example_args true None) = Ok config ∧
    DevopsSettings.groups config = [group] ∧
    (∀ k, is_Some (Group.l2_network_devices group !! k)
          <-> k ∈ keys example_bonding) ∧
    (∀ k, is_Some (DevopsSettings.address_pools config !! k)
          <-> k ∈ ["admin"; "public"; "management"; "private"; "storage"]).
Proof.
  destruct (create_devops_config (example_args true None))
    as [config|e] eqn:E; [|by vm_compute in E].
  destruct (bonding_orders_l2_devices_only
              (example_args true None) example_bonding config
              eq_refl eq_refl E)
    as (group & Hg & _ & Hl2 & _ & Haps & _).
  exists config, group.
  split; [reflexivity|]. split; [exact Hg|]. split; [exact Hl2|].
  exact Haps.
Defined.

(** C6, as stated, fails: with bonding requested the address pools are
    not the ones built from the keys of the bonding dictionary. *)
Lemma bonding_address_pools_counterexample :
  ¬ (∀ config,
       create_devops_config (example_args true None) = Ok config ->
       create_address_pools (keys example_bonding) example_pools
       = Ok (DevopsSettings.address_pools config)).
Proof.
  intros H.
  destruct (create_devops_config (example_args true None))
    as [config|e] eqn:E; [|by vm_compute in E].
  specialize (H config eq_refl).
  apply create_devops_config_Ok in E
    as (_ & _ & _ & _ & _ & _ & _ & Haps & _).
  pose proof (create_address_pools_dom _ _ _ H "management") as H1.
  pose proof (create_address_pools_dom _ _ _ Haps "management") as H2.
  assert ("management" ∈ keys example_bonding) as Hin.
  { apply H1, H2. cbn [Args.networks_interfaceorder example_args].
    rewrite !elem_of_cons. tauto. }
  vm_compute in Hin.
  repeat (apply elem_of_cons in Hin as [Hin|Hin]; [discriminate Hin|]).
  by apply elem_of_nil in Hin.
Qed.

Section AssemblerNodes.

Lemma slave_volumes_system_only (capacity : Z) (second third : option Z)
    (multipath_count : Z) :
  truthy_opt second = false -> truthy_opt third = false ->
  slave_volumes capacity second third false multipath_count
  = [slave_volume "system" capacity (Some multipath_count)].
Proof.
  unfold slave_volumes, truthy_opt. intros H2 H3.
  destruct second as [c2|], third as [c3|]; by rewrite ?H2, ?H3.
Qed.

Lemma range_1_3 : range 1 3 = [1; 2].
Proof. reflexivity. Qed.

Lemma range_1_2 : range 1 (1 + 1) = [1].
Proof. reflexivity. Qed.

Lemma mapM_Ok_nil {A B} (f : A -> result B) (r : list B) :
  mapM f [] = Ok r -> r = [].
Proof. by intros [= <-]. Qed.

End AssemblerNodes.

(** C7 (as the code has it). With [nodes_count = 3],
    [ironic_nodes_count = 1], [use_all_disks] unset and no second or
    third volume capacity given, a configuration that is assembled has
    exactly four nodes, in order: the admin node, the slaves
    ["slave-01"] and ["slave-02"], and the ironic node
    ["ironic-slave-01"].  The admin node has the volumes system and iso,
    every other node the system volume alone; no node has a cinder or a
    swift volume. *)
Theorem three_nodes_one_ironic (a : Args.t) (config : DevopsSettings.t) :
  Args.nodes_count a = 3 -> Args.ironic_nodes_count a = 1 ->
  Args.use_all_disks a = false ->
  truthy_opt (Args.second_volume_capacity a) = false ->
  truthy_opt (Args.third_volume_capacity a) = false ->
  create_devops_config a = Ok config ->
  ∃ group admin slave1 slave2 ironic,
    DevopsSettings.groups config = [group] ∧
    Group.nodes group = [admin; slave1; slave2; ironic] ∧
    (Node.name admin = "admin" ∧ Node.role admin = "fuel_master" ∧
     Volume.name <$> Node.volumes (Node.params admin) = ["system"; "iso"]) ∧
    (Node.name slave1 = "slave-01" ∧ Node.role slave1 = "fuel_slave" ∧
     Volume.name <$> Node.volumes (Node.params slave1) = ["system"]) ∧
    (Node.name slave2 = "slave-02" ∧ Node.role slave2 = "fuel_slave" ∧
     Volume.name <$> Node.volumes (Node.params slave2) = ["system"]) ∧
    (Node.name ironic = "ironic-slave-01" ∧
     Node.role ironic = "ironic_slave" ∧
     Volume.name <$> Node.volumes (Node.params ironic) = ["system"]) ∧
    Forall system_volume_without_extras (Group.nodes group).
Proof.
  intros Hn Hi Hu H2 H3 H.
  apply create_devops_config_Ok in H
    as (l2 & devices & admin & slaves & ironics & group
        & _ & _ & _ & Hadmin & Hslaves & Hironics & Hg & _ & _ & Hnodes).
  rewrite Hn, range_1_3 in Hslaves. rewrite Hi, range_1_2 in Hironics.
  apply mapM_Ok_cons in Hslaves as (slave1 & r1 & -> & Hs1 & Hslaves).
  apply mapM_Ok_cons in Hslaves as (slave2 & r2 & -> & Hs2 & Hslaves).
  apply mapM_Ok_nil in Hslaves as ->.
  apply mapM_Ok_cons in Hironics as (ironic & r3 & -> & Hir & Hironics).
  apply mapM_Ok_nil in Hironics as ->.
  apply create_admin_config_Ok in Hadmin
    as (_ & _ & _ & _ & _ & Han & Har & _ & Hav).
  unfold slave_node in Hs1, Hs2. unfold ironic_node in Hir.
  apply create_slave_config_Ok in Hs1
    as (_ & _ & _ & _ & _ & Hn1 & Hr1 & _ & Hv1).
  apply create_slave_config_Ok in Hs2
    as (_ & _ & _ & _ & _ & Hn2 & Hr2 & _ & Hv2).
  apply create_slave_config_Ok in Hir
    as (_ & _ & _ & _ & _ & Hn3 & Hr3 & _ & Hv3).
  rewrite Hu, slave_volumes_system_only in Hv1, Hv2 by done.
  rewrite slave_volumes_system_only in Hv3 by done.
  exists group, admin, slave1, slave2, ironic.
  split; [done|]. split; [done|].
  split; [done|].
  split; [by rewrite Hv1|]. split; [by rewrite Hv2|].
  split; [by rewrite Hv3|].
  rewrite Hnodes. unfold system_volume_without_extras.
  repeat apply Forall_cons_2; try apply Forall_nil_2.
  - destruct (Node.volumes (Node.params admin)) as [|v1 [|v2 [|]]];
      try done.
    injection Hav as E1 E2. split; [eauto|].
    repeat apply Forall_cons_2; try apply Forall_nil_2;
      rewrite ?E1, ?E2; done.
  - rewrite Hv1. split; [eauto|]. by apply Forall_cons_2.
  - rewrite Hv2. split; [eauto|]. by apply Forall_cons_2.
  - rewrite Hv3. split; [eauto|]. by apply Forall_cons_2.
Qed.

Lemma three_nodes_one_ironic_witness :
  ∃ config group admin slave1 slave2 ironic,
    create_devops_config (example_args false None) = Ok config ∧
    DevopsSettings.groups config = [group] ∧
    Group.nodes group = [admin; slave1; slave2; ironic] ∧
    Node.name <$> Group.nodes group
    = ["admin"; "slave-01"; "slave-02"; "ironic-slave-01"] ∧
    Forall system_volume_without_extras (Group.nodes group).
Proof.
  destruct (create_devops_config (example_args false None))
    as [config|e] eqn:E; [|by vm_compute in E].
  destruct (three_nodes_one_ironic (example_args false None) config
              eq_refl eq_refl eq_refl eq_refl eq_refl E)
    as (group & admin & slave1 & slave2 & ironic & Hg & Hnodes
        & (Ha & _) & (H1 & _) & (H2 & _) & (H3 & _) & Hall).
  exists config, group, admin, slave1, slave2, ironic.
  split; [reflexivity|]. split; [exact Hg|]. split; [exact Hnodes|].
  split; [|exact Hall].
  rewrite Hnodes. cbn [fmap list_fmap]. by rewrite Ha, H1, H2, H3.
Defined.

(** C7, as stated, fails: with [use_all_disks] unset but a second volume
    capacity given, the slaves carry a cinder volume. *)
Lemma explicit_second_volume_counterexample :
  ¬ (∀ config group,
       create_devops_config (example_args false (Some 50)) = Ok config ->
       DevopsSettings.groups config = [group] ->
       Forall system_volume_without_extras (Group.nodes group)).
Proof.
  intros H.
  destruct (create_devops_config (example_args false (Some 50)))
    as [config|e] eqn:E; [|by vm_compute in E].
  apply create_devops_config_Ok in E
    as (l2 & devices & admin & slaves & ironics & group
        & _ & _ & _ & _ & Hslaves & _ & Hg & _ & _ & Hnodes).
  specialize (H config group eq_refl Hg). rewrite Hnodes in H.
  change (range 1 (Args.nodes_count (example_args false (Some 50))))
    with [1; 2] in Hslaves.
  apply mapM_Ok_cons in Hslaves as (slave1 & r1 & -> & Hs1 & _).
  apply Forall_cons in H as [_ H]. apply Forall_cons in H as [[_ H] _].
  unfold slave_node in Hs1.
  apply create_slave_config_Ok in Hs1
    as (_ & _ & _ & _ & _ & _ & _ & _ & Hv1).
  rewrite Hv1 in H. vm_compute in H.
  apply Forall_cons in H as [_ H]. apply Forall_cons in H as [[H _] _].
  by apply H.
Qed.

(** ** The template loader *)

Section TemplateLoaderProofs.

Context {scalar : Type}.
Variable compose : string -> result (option node).
Variable construct_scalar : string -> string -> result scalar.
Variable files : string -> option string.
Variable environ : string -> option string.

Lemma construct_object_include
    (load : string -> string -> loading (object scalar))
    (loader_name value : string) :
  construct_object construct_scalar files environ load loader_name
    (ScalarNode "!include" value)
  = yaml_include files load loader_name (ScalarNode "!include" value).
Proof. done. Qed.

Lemma construct_object_os_env
    (load : string -> string -> loading (object scalar))
    (loader_name value : string) :
  construct_object construct_scalar files environ load loader_name
    (ScalarNode "!os_env" value)
  = yaml_get_env_variable environ load loader_name
      (ScalarNode "!os_env" value).
Proof. done. Qed.

Lemma construct_object_scalar
    (load : string -> string -> loading (object scalar))
    (loader_name tag value : string) :
  tag ≠ "!include" -> tag ≠ "!os_env" ->
  construct_object construct_scalar files environ load loader_name
    (ScalarNode tag value)
  = Some (ObjScalar <$> construct_scalar tag value).
Proof.
  intros H1 H2. simpl. by rewrite !decide_False.
Qed.

(** The environment variable wins over the default of the directive. *)
Lemma yaml_get_env_variable_set
    (load : string -> string -> loading (object scalar))
    (loader_name tag value v : string) :
  strip value ≠ EmptyString ->
  environ (strip (split1 ","%char value).1) = Some v ->
  yaml_get_env_variable environ load loader_name (ScalarNode tag value)
  = load string_stream_name v.
Proof.
  intros Hv He. unfold yaml_get_env_variable.
  rewrite decide_False by done. by rewrite He.
Qed.

Lemma yaml_get_env_variable_default
    (load : string -> string -> loading (object scalar))
    (loader_name tag value default_val : string) :
  strip value ≠ EmptyString ->
  environ (strip (split1 ","%char value).1) = None ->
  (split1 ","%char value).2 = Some default_val ->
  yaml_get_env_variable environ load loader_name (ScalarNode tag value)
  = load string_stream_name (strip default_val).
Proof.
  intros Hv He Hd. unfold yaml_get_env_variable.
  rewrite decide_False by done. by rewrite He, Hd.
Qed.


(** C5 (as the code has it). The loader keeps no record of the files
    being resolved.  When every file of a set is a document whose root
    includes a file of the set again (so that the inclusions run in a
    cycle), loading a file of the set completes at no nesting depth:
    neither a document nor an error, a [DevopsError] included, comes
    out. *)
Theorem include_cycle_never_completes (chain : string -> Prop) :
  (∀ p, chain p -> ∃ q, includes compose files p q ∧ chain q) ->
  ∀ depth config_file,
    chain config_file ->
    yaml_template_load compose construct_scalar files environ
      depth config_file = None.
Proof.
  intros Hchain depth.
  assert (∀ p text, chain p -> files p = Some text ->
            yaml_load compose construct_scalar files environ depth p text
            = None) as Hload.
  { induction depth as [|depth IH]; intros p text Hp Hf; [done|].
    destruct (Hchain p Hp)
      as (q & (text' & tag & value & Hf' & Hc & -> & Hq) & Hcq).
    rewrite Hf in Hf'. injection Hf' as <-.
    simpl. rewrite Hc, construct_object_include.
    unfold yaml_include. rewrite Hq.
    destruct (Hchain q Hcq) as (_ & (textq & _ & _ & Hfq & _) & _).
    rewrite Hfq. by apply IH. }
  intros p Hp. unfold yaml_template_load.
  destruct (Hchain p Hp) as (_ & (text & _ & _ & Hf & _) & _).
  rewrite Hf. by apply Hload.
Qed.

End TemplateLoaderProofs.


Lemma include_cycle_never_completes_witness :
  (∀ depth,
     yaml_template_load compose_examples construct_str cyclic_files
       env_unset depth "a.yaml" = None) ∧
  (∀ depth,
     yaml_template_load compose_examples construct_str cyclic_files
       env_unset depth "conf/a.yaml" = None).
Proof.
  split; intros depth.
  - apply (include_cycle_never_completes compose_examples construct_str
             cyclic_files env_unset (fun p => p = "a.yaml")); [|done].
    intros p ->. exists "a.yaml". split; [|done].
    by exists "!include a.yaml", "!include", "a.yaml".
  - apply (include_cycle_never_completes compose_examples construct_str
             cyclic_files env_unset
             (fun p => p = "conf/a.yaml" ∨ p = "conf/b.yaml"));
      [|by left].
    intros p [->| ->].
    + exists "conf/b.yaml". split; [|by right].
      by exists "!include b.yaml", "!include", "b.yaml".
    + exists "conf/a.yaml". split; [|by left].
      by exists "!include a.yaml", "!include", "a.yaml".
Defined.

(** C5, as stated, fails: the loading of a file that includes itself
    comes to no outcome at any depth, so no [DevopsError] reports the
    cycle. *)
Lemma include_cycle_counterexample :
  ¬ ∃ depth outcome,
      yaml_template_load compose_examples construct_str cyclic_files
        env_unset depth "a.yaml" = Some outcome.
Proof.
  intros (depth & outcome & H).
  assert (∀ d, yaml_load compose_examples construct_str cyclic_files
                 env_unset d "a.yaml" "!include a.yaml" = None) as Hnone.
  { induction d as [|d IH]; [done|].
    (* one more level opens [a.yaml] again *)
    change (yaml_load compose_examples construct_str cyclic_files
              env_unset d "a.yaml" "!include a.yaml" = None).
    exact IH. }
  change (yaml_load compose_examples construct_str cyclic_files
            env_unset depth "a.yaml" "!include a.yaml"
          = Some outcome) in H.
  by rewrite Hnone in H.
Qed.

(** * Further properties *)

(** ** More on decimal strings *)

Section DecimalStrings.

Lemma string_app_assoc (a b c : string) :
  (a +:+ b) +:+ c = a +:+ (b +:+ c).
Proof.
  induction a as [|x a IH]; [done|].
  change (String x ((a +:+ b) +:+ c) = String x (a +:+ b +:+ c)).
  by f_equal.
Qed.

Lemma string_app_nil_r (a : string) : a +:+ EmptyString = a.
Proof.
  induction a as [|x a IH]; [done|].
  change (String x (a +:+ EmptyString) = String x a). by f_equal.
Qed.

Lemma string_app_length (a b : string) :
  String.length (a +:+ b) = (String.length a + String.length b)%nat.
Proof.
  induction a as [|x a IH]; [done|].
  change (S (String.length (a +:+ b))
          = S (String.length a + String.length b)). by f_equal.
Qed.

Lemma pretty_N_go_app (x : N) (s : string) :
  pretty_N_go x s = pretty_N_go x EmptyString +:+ s.
Proof.
  revert s. induction (N.lt_wf_0 x) as [x _ IH]; intros s.
  destruct (decide (x = 0)%N) as [->|Hx]; [done|].
  rewrite !(pretty_N_go_step x) by lia.
  rewrite (IH (x `div` 10)%N) by (apply N.div_lt; lia).
  rewrite (IH (x `div` 10)%N ltac:(apply N.div_lt; lia)
             (String _ EmptyString)).
  by rewrite string_app_assoc.
Qed.

(** The decimal string of a number from 10 on is the decimal string of
    its tens followed by its last digit. *)
Lemma pretty_N_tens (x : N) :
  (10 ≤ x)%N ->
  pretty x = pretty (x `div` 10)%N
             +:+ String (pretty_N_char (x `mod` 10)) EmptyString.
Proof.
  intros Hx. unfold pretty, pretty_N.
  rewrite !decide_False
    by (try lia; intros E; apply N.div_small_iff in E; lia).
  rewrite (pretty_N_go_step x) by lia. apply pretty_N_go_app.
Qed.

Lemma pretty_N_digit (x : N) :
  (x < 10)%N -> pretty x = String (pretty_N_char x) EmptyString.
Proof.
  intros Hx.
  assert (x = 0 ∨ x = 1 ∨ x = 2 ∨ x = 3 ∨ x = 4 ∨ x = 5 ∨ x = 6
          ∨ x = 7 ∨ x = 8 ∨ x = 9)%N as H by lia.
  by repeat (destruct H as [->|H]; [done|]); subst.
Qed.

Lemma pretty_N_length_ge (x : N) :
  (10 ≤ x)%N -> (2 ≤ String.length (pretty x))%nat.
Proof.
  intros Hx. rewrite pretty_N_tens, string_app_length by done. simpl.
  pose proof (pretty_N_nonempty (x `div` 10)%N).
  destruct (pretty (x `div` 10)%N); [done|]. simpl. lia.
Qed.

Lemma str_nonneg (n : Z) : 0 <= n -> str n = pretty (Z.to_N n).
Proof. intros H. by destruct n. Qed.

End DecimalStrings.

(** ** More on the NUMA planner *)

Section NumaPlannerMore.

Lemma concat_cell_ids (c : Z) (k : nat) :
  0 <= c ->
  concat ((fun x => seqZ (x * c) c) <$> seqZ 0 (Z.of_nat k))
  = seqZ 0 (Z.of_nat k * c).
Proof.
  intros Hc. induction k as [|k IH]; [done|].
  rewrite seqZ_S, fmap_app, concat_app, IH. simpl.
  rewrite app_nil_r.
  replace (Z.of_nat (S k) * c) with (Z.of_nat k * c + c) by lia.
  rewrite seqZ_app by lia. repeat f_equal; lia.
Qed.

End NumaPlannerMore.

(** X1. [_calculate_numa] returns cells only for an exact split: when it
    returns, either [numa_nodes] is zero and there is no cell, or
    [numa_nodes] divides both the CPU count and the memory, there are
    [max(numa_nodes, 0)] cells, and each cell has the memory share
    [memory / numa_nodes], [numa_nodes] times which is the memory. *)
Theorem calculate_numa_only_exact
    (numa_nodes vcpu mem : Z) (name : string) (cells : list numa_cell) :
  _calculate_numa numa_nodes vcpu mem name = Ok cells ->
  (numa_nodes = 0 ∧ cells = []) ∨
  (numa_nodes ≠ 0 ∧ vcpu mod numa_nodes = 0 ∧ mem mod numa_nodes = 0 ∧
   length cells = Z.to_nat numa_nodes ∧
   Forall (fun cell => memory cell = mem / numa_nodes ∧
                       memory cell * numa_nodes = mem) cells).
Proof.
  intros H. destruct (decide (numa_nodes = 0)) as [->|Hn].
  - left. by injection H as <-.
  - right. split; [done|].
    unfold _calculate_numa, truthy in H.
    rewrite (proj2 (Z.eqb_neq _ _) Hn) in H; simpl in H.
    rewrite !exact_division in H by done.
    destruct (decide (vcpu mod numa_nodes = 0)) as [Hv|Hv];
      [|by rewrite bool_decide_eq_false_2 in H by done].
    rewrite bool_decide_eq_true_2 in H by done; simpl in H.
    destruct (decide (mem mod numa_nodes = 0)) as [Hm|Hm];
      [|by rewrite bool_decide_eq_false_2 in H by done].
    rewrite bool_decide_eq_true_2 in H by done; simpl in H.
    injection H as <-. split; [done|]. split; [done|].
    split; [rewrite length_fmap; unfold range;
            by rewrite length_seqZ, Z.sub_0_r|].
    apply Forall_fmap, Forall_forall. intros x _. simpl.
    split; [done|].
    pose proof (Z.div_mod mem numa_nodes Hn) as E. rewrite Hm in E.
    revert E. generalize (mem / numa_nodes). intros q E. lia.
Qed.

Lemma calculate_numa_only_exact_witness :
  ∃ cells,
    _calculate_numa 2 4 1024 "admin" = Ok cells ∧
    ((2 = 0 ∧ cells = []) ∨
     (2 ≠ 0 ∧ 4 mod 2 = 0 ∧ 1024 mod 2 = 0 ∧
      length cells = Z.to_nat 2 ∧
      Forall (fun cell => memory cell = 1024 / 2 ∧
                          memory cell * 2 = 1024) cells)).
Proof.
  eexists. split; [reflexivity|].
  apply (calculate_numa_only_exact 2 4 1024 "admin"). reflexivity.
Defined.

(** X2. The CPU ids of the cells partition the CPUs of the node: for
    [numa_nodes > 0] and a non-negative CPU count, the cells that
    [_calculate_numa] returns hold, cell after cell, the comma-joined
    decimal ids of lists that, put end to end, are exactly
    [0, 1, ..., vcpu - 1]. *)
Theorem calculate_numa_partitions_cpus
    (numa_nodes vcpu mem : Z) (name : string) (cells : list numa_cell) :
  0 < numa_nodes -> 0 <= vcpu ->
  _calculate_numa numa_nodes vcpu mem name = Ok cells ->
  ∃ ids : list (list Z),
    cpus <$> cells = (fun l => join "," (str <$> l)) <$> ids ∧
    concat ids = seqZ 0 vcpu.
Proof.
  intros Hn Hv H.
  assert (vcpu mod numa_nodes = 0 ∧ mem mod numa_nodes = 0) as [Hdv Hdm].
  { unfold _calculate_numa, truthy in H.
    rewrite (proj2 (Z.eqb_neq numa_nodes 0)) in H by lia; simpl in H.
    rewrite !exact_division in H by lia.
    destruct (decide (vcpu mod numa_nodes = 0)) as [Hv'|Hv'];
      [|by rewrite bool_decide_eq_false_2 in H by done].
    rewrite bool_decide_eq_true_2 in H by done; simpl in H.
    destruct (decide (mem mod numa_nodes = 0)) as [Hm|Hm];
      [done|by rewrite bool_decide_eq_false_2 in H by done]. }
  rewrite calculate_numa_cells in H by (try done; lia).
  injection H as <-.
  exists ((fun x => seqZ (x * (vcpu / numa_nodes)) (vcpu / numa_nodes))
            <$> seqZ 0 numa_nodes).
  split.
  - rewrite <- !list_fmap_compose. by apply list_fmap_ext.
  - assert (vcpu = numa_nodes * (vcpu / numa_nodes)) as Ev
      by (apply Z.div_exact; [lia|done]).
    assert (0 <= vcpu / numa_nodes) as Hc by (apply Z.div_pos; lia).
    revert Ev Hc. generalize (vcpu / numa_nodes). intros c Ev Hc.
    rewrite <- (Z2Nat.id numa_nodes) by lia.
    rewrite concat_cell_ids by done. f_equal. lia.
Qed.

Lemma calculate_numa_partitions_cpus_witness :
  ∃ cells (ids : list (list Z)),
    _calculate_numa 2 4 1024 "admin" = Ok cells ∧
    cpus <$> cells = (fun l => join "," (str <$> l)) <$> ids ∧
    concat ids = seqZ 0 4.
Proof.
  eexists.
  destruct (calculate_numa_partitions_cpus 2 4 1024 "admin" _
              ltac:(lia) ltac:(lia) eq_refl) as (ids & H1 & H2).
  exists ids. split; [reflexivity|]. by split.
Defined.

(** ** More on the interface layouts *)

Section InterfaceLayoutMore.

#[local] Instance string_leb_total :
  Total (fun a b : string => String.leb a b).
Proof.
  intros a b. destruct (String.leb_total a b) as [H|H]; rewrite H; auto.
Qed.

Lemma sorted_Sorted (l : list string) :
  Sorted (fun a b : string => String.leb a b) (sorted l).
Proof. apply (Sorted_merge_sort _). Qed.

End InterfaceLayoutMore.

(** X3. The interfaces of the admin node and of a slave node have
    pairwise distinct labels, whatever the layout, and the node's
    [network_config] has exactly one entry per interface: its keys are
    the labels of the interfaces. *)
Theorem node_interface_labels_distinct
    (admin_vcpu admin_memory admin_sysvolume_capacity : Z)
    (admin_iso_path boot_from : string) (admin_order : list string)
    (numa_nodes : Z) (networks_bonding : bool)
    (networks_bondinginterfaces : option (gmap string (list string)))
    (slave_name slave_role : string)
    (slave_vcpu slave_memory slave_volume_capacity : Z)
    (slave_order : list string)
    (second_volume_capacity third_volume_capacity : option Z)
    (use_all_disks : bool) (multipath_count : Z)
    (networks_multiplenetworks : bool)
    (networks_nodegroups : option (list NodeGroup.t))
    (admin slave : Node.t) :
  create_admin_config admin_vcpu admin_memory admin_sysvolume_capacity
    admin_iso_path boot_from admin_order numa_nodes networks_bonding
    networks_bondinginterfaces = Ok admin ->
  create_slave_config slave_name slave_role slave_vcpu slave_memory
    slave_volume_capacity slave_order numa_nodes
    second_volume_capacity third_volume_capacity use_all_disks
    multipath_count networks_multiplenetworks networks_nodegroups
    networks_bonding networks_bondinginterfaces = Ok slave ->
  ∀ node, node ∈ [admin; slave] ->
    NoDup (Interface.label <$> Node.interfaces (Node.params node)) ∧
    (∀ label,
       is_Some (Node.network_config (Node.params node) !! label) <->
       label ∈ Interface.label <$> Node.interfaces (Node.params node)) ∧
    Forall (fun iface => Interface.interface_model iface = "e1000")
           (Node.interfaces (Node.params node)).
Proof.
  intros Ha Hs.
  apply create_admin_config_Ok in Ha
    as (ia & na & Hia & _ & [Eia Eca] & _).
  apply create_slave_config_Ok in Hs
    as (ifs & ns & His & _ & [Eis Ecs] & _).
  assert (∀ (multiple bonding : bool) pools order l,
            (if multiple then sequential_interfaces <$> pools
             else if bonding
                  then bonding_interfaces networks_bondinginterfaces
                  else Ok (sequential_interfaces order)) = Ok l ->
            Forall (fun iface => Interface.interface_model iface = "e1000")
                   l) as Hmodel.
  { assert (∀ order, Forall (fun iface =>
                               Interface.interface_model iface = "e1000")
                            (sequential_interfaces order)) as Hseq.
    { intros order. apply Forall_forall. intros iface Hin.
      apply list_elem_of_lookup in Hin as [i Hi].
      rewrite sequential_interfaces_lookup in Hi.
      destruct (order !! i); [|done]. by injection Hi as <-. }
    intros [] [] pools order l H; try (destruct pools; [|done]);
      try (injection H as <-; apply Hseq).
    unfold bonding_interfaces in H.
    destruct networks_bondinginterfaces as [d|]; [|done].
    apply mapM_Ok_Forall2 in H. revert H.
    generalize (sorted (keys (invert_bonding d))).
    induction 1 as [|lbl iface labels l Hi _ IH]; [done|].
    constructor; [|done].
    destruct (getitem (invert_bonding d) lbl); [|done].
    by injection Hi as <-. }
  intros node Hnode.
  assert (∃ l, Node.interfaces (Node.params node) = l ∧
               Node.network_config (Node.params node)
               = make_network_config l ∧
               NoDup (Interface.label <$> l) ∧
               Forall (fun iface =>
                         Interface.interface_model iface = "e1000") l)
    as (l & -> & -> & Hnd & Hm).
  { apply elem_of_cons in Hnode as [->|Hnode];
      [|apply list_elem_of_singleton in Hnode as ->].
    - exists ia. repeat split; try done.
      + by apply (layout_labels_NoDup false networks_bonding (Ok [])
                    networks_bondinginterfaces admin_order).
      + by apply (Hmodel false networks_bonding (Ok []) admin_order).
    - exists ifs. repeat split; try done.
      + by apply (layout_labels_NoDup networks_multiplenetworks
                    networks_bonding
                    (nodegroup_pools slave_name networks_nodegroups)
                    networks_bondinginterfaces slave_order).
      + by apply (Hmodel networks_multiplenetworks networks_bonding
                    (nodegroup_pools slave_name networks_nodegroups)
                    slave_order). }
  split; [done|]. split; [|done].
  intros label. unfold make_network_config. split.
  - intros [v Hv]. apply lookup_dict_of_Some in Hv as (x & Hx & <- & _).
    by apply list_elem_of_fmap_2.
  - intros Hl. apply list_elem_of_fmap in Hl as (x & -> & Hx).
    by apply lookup_dict_of_is_Some.
Qed.

Lemma node_interface_labels_distinct_witness :
  ∃ admin slave,
    create_admin_config 2 3072 75 "/tmp/fuel.iso" "cdrom"
      ["admin"; "public"] 0 true (Some example_bonding) = Ok admin ∧
    create_slave_config "slave-01" "fuel_slave" 2 3072 50
      ["admin"; "public"] 0 None None false 0 false None
      true (Some example_bonding) = Ok slave ∧
    ∀ node, node ∈ [admin; slave] ->
      NoDup (Interface.label <$> Node.interfaces (Node.params node)) ∧
      (∀ label,
         is_Some (Node.network_config (Node.params node) !! label) <->
         label ∈ Interface.label <$> Node.interfaces (Node.params node)) ∧
      Forall (fun iface => Interface.interface_model iface = "e1000")
             (Node.interfaces (Node.params node)).
Proof.
  eexists _, _. split; [vm_compute; reflexivity|].
  split; [vm_compute; reflexivity|].
  exact (node_interface_labels_distinct
           2 3072 75 "/tmp/fuel.iso" "cdrom" ["admin"; "public"] 0
           true (Some example_bonding) "slave-01" "fuel_slave" 2 3072 50
           ["admin"; "public"] None None false 0 false None
           _ _ eq_refl eq_refl).
Defined.

(** X4. The bonding layout of the admin node and of a slave node has
    one interface per label of the bonding dictionary, in the sorted
    order of the labels: the labels of the interfaces are sorted, every
    interface is bound to a device that lists its label, and every
    label listed under a device is the label of an interface. *)
Theorem bonding_layout_sorted_and_complete
    (admin_vcpu admin_memory admin_sysvolume_capacity : Z)
    (admin_iso_path boot_from : string) (admin_order : list string)
    (slave_name slave_role : string)
    (slave_vcpu slave_memory slave_volume_capacity : Z)
    (slave_order : list string) (numa_nodes : Z)
    (second_volume_capacity third_volume_capacity : option Z)
    (use_all_disks : bool) (multipath_count : Z)
    (networks_nodegroups : option (list NodeGroup.t))
    (bonding : gmap string (list string)) (admin slave : Node.t) :
  create_admin_config admin_vcpu admin_memory admin_sysvolume_capacity
    admin_iso_path boot_from admin_order numa_nodes true (Some bonding)
  = Ok admin ->
  create_slave_config slave_name slave_role slave_vcpu slave_memory
    slave_volume_capacity slave_order numa_nodes
    second_volume_capacity third_volume_capacity use_all_disks
    multipath_count false networks_nodegroups true (Some bonding)
  = Ok slave ->
  ∀ node, node ∈ [admin; slave] ->
    Sorted (fun a b : string => String.leb a b)
      (Interface.label <$> Node.interfaces (Node.params node)) ∧
    (∀ iface, iface ∈ Node.interfaces (Node.params node) ->
       ∃ labels,
         bonding !! Interface.l2_network_device iface = Some labels ∧
         Interface.label iface ∈ labels) ∧
    (∀ iname labels label,
       bonding !! iname = Some labels -> label ∈ labels ->
       label ∈ Interface.label <$> Node.interfaces (Node.params node)).
Proof.
  intros Ha Hs.
  apply create_admin_config_Ok in Ha as (la & _ & Hla & _ & [Ea _] & _).
  apply create_slave_config_Ok in Hs as (ls & _ & Hls & _ & [Es _] & _).
  simpl in Hla, Hls.
  assert (∀ l, bonding_interfaces (Some bonding) = Ok l ->
               Sorted (fun a b : string => String.leb a b)
                 (Interface.label <$> l) ∧
               (∀ iface, iface ∈ l ->
                  ∃ labels,
                    bonding !! Interface.l2_network_device iface
                    = Some labels ∧
                    Interface.label iface ∈ labels) ∧
               (∀ iname labels label,
                  bonding !! iname = Some labels -> label ∈ labels ->
                  label ∈ Interface.label <$> l)) as Hlayout.
  { intros l Hl. split; [|split].
    - apply bonding_interfaces_Ok in Hl as [-> _]. apply sorted_Sorted.
    - intros iface Hin. by apply (bonding_interfaces_devices bonding l).
    - intros iname labels label Hd Hin.
      by apply (bonding_interfaces_complete bonding l iname label labels). }
  intros node Hnode.
  apply elem_of_cons in Hnode as [->|Hnode];
    [|apply list_elem_of_singleton in Hnode as ->].
  - rewrite Ea. by apply Hlayout.
  - rewrite Es. by apply Hlayout.
Qed.

Lemma bonding_layout_sorted_and_complete_witness :
  ∃ admin slave,
    create_admin_config 2 3072 75 "/tmp/fuel.iso" "cdrom"
      ["admin"; "public"] 0 true (Some example_bonding) = Ok admin ∧
    create_slave_config "slave-01" "fuel_slave" 2 3072 50
      ["admin"; "public"] 0 None None false 0 false None
      true (Some example_bonding) = Ok slave ∧
    Interface.label <$> Node.interfaces (Node.params admin)
    = ["eth0"; "eth1"; "eth2"; "eth3"; "eth4"; "eth5"] ∧
    ∀ node, node ∈ [admin; slave] ->
      Sorted (fun a b : string => String.leb a b)
        (Interface.label <$> Node.interfaces (Node.params node)).
Proof.
  eexists _, _. split; [vm_compute; reflexivity|].
  split; [vm_compute; reflexivity|]. split; [reflexivity|].
  intros node Hnode.
  apply (bonding_layout_sorted_and_complete
           2 3072 75 "/tmp/fuel.iso" "cdrom" ["admin"; "public"]
           "slave-01" "fuel_slave" 2 3072 50 ["admin"; "public"] 0
           None None false 0 None example_bonding _ _ eq_refl eq_refl
           node Hnode).
Defined.

(** ** Slave names and node groups *)

Section SlaveNames.

Lemma substring_app_skip (p s : string) (m : nat) :
  String.substring (String.length p) m (p +:+ s) = String.substring 0 m s.
Proof. induction p as [|c p IH]; [done|]. exact IH. Qed.

Lemma last2_app (p : string) (c1 c0 : ascii) :
  last2 (p +:+ String c1 (String c0 EmptyString))
  = String c1 (String c0 EmptyString).
Proof.
  unfold last2. rewrite string_app_length. simpl.
  replace (String.length p + 2 - 2)%nat with (String.length p) by lia.
  by rewrite substring_app_skip.
Qed.

Lemma int_two_digits (d1 d0 : N) :
  (d1 < 10)%N -> (d0 < 10)%N ->
  int (String (pretty_N_char d1) (String (pretty_N_char d0) EmptyString))
  = Ok (Z.of_N (10 * d1 + d0)).
Proof.
  intros H1 H0.
  assert (d1 = 0 ∨ d1 = 1 ∨ d1 = 2 ∨ d1 = 3 ∨ d1 = 4 ∨ d1 = 5 ∨ d1 = 6
          ∨ d1 = 7 ∨ d1 = 8 ∨ d1 = 9)%N as D1 by lia.
  assert (d0 = 0 ∨ d0 = 1 ∨ d0 = 2 ∨ d0 = 3 ∨ d0 = 4 ∨ d0 = 5 ∨ d0 = 6
          ∨ d0 = 7 ∨ d0 = 8 ∨ d0 = 9)%N as D0 by lia.
  repeat (destruct D1 as [->|D1]);
    repeat (destruct D0 as [->|D0]); try subst; reflexivity.
Qed.

(** The name of slave [n] ends with the last two decimal digits of
    [n]. *)
Lemma format_02_last_digits (p : string) (n : N) :
  ∃ q, p +:+ format_02 (Z.of_N n)
       = q +:+ String (pretty_N_char ((n `div` 10) `mod` 10))
                 (String (pretty_N_char (n `mod` 10)) EmptyString).
Proof.
  unfold format_02. rewrite str_nonneg, N2Z.id by lia.
  destruct (decide (n < 10)%N) as [Hn|Hn].
  - rewrite pretty_N_digit by done. simpl.
    exists p. rewrite N.div_small, (N.mod_small n) by done. done.
  - rewrite pretty_N_tens by lia.
    assert (2 ≤ String.length
                  (pretty (n `div` 10)%N
                   +:+ String (pretty_N_char (n `mod` 10)) EmptyString))%nat
      as Hlen.
    { rewrite <- pretty_N_tens by lia. apply pretty_N_length_ge. lia. }
    replace (2 - _)%nat with 0%nat by lia. simpl.
    destruct (decide (n `div` 10 < 10)%N) as [Ht|Ht].
    + rewrite (pretty_N_digit (n `div` 10)) by done.
      exists p. by rewrite (N.mod_small (n `div` 10)) by done.
    + rewrite (pretty_N_tens (n `div` 10)) by lia.
      exists (p +:+ pretty ((n `div` 10) `div` 10)%N).
      by rewrite !string_app_assoc.
Qed.

Lemma int_last2_slave_name (p : string) (n : Z) :
  0 <= n -> int (last2 (p +:+ format_02 n)) = Ok (n mod 100).
Proof.
  intros Hn. rewrite <- (Z2N.id n) at 1 by done.
  destruct (format_02_last_digits p (Z.to_N n)) as [q ->].
  rewrite last2_app, int_two_digits by (apply N.mod_lt; lia).
  f_equal.
  rewrite N2Z.inj_add, N2Z.inj_mul, !N2Z.inj_mod, N2Z.inj_div, Z2N.id
    by done.
  change (Z.of_N 10) with 10.
  pose proof (Z.div_mod n 10 ltac:(lia)) as E1.
  pose proof (Z.div_mod (n / 10) 10 ltac:(lia)) as E2.
  pose proof (Z.mod_pos_bound n 10 ltac:(lia)) as B1.
  pose proof (Z.mod_pos_bound (n / 10) 10 ltac:(lia)) as B2.
  apply (Z.mod_unique_pos n 100 (n / 10 / 10)); lia.
Qed.

End SlaveNames.

(** X5. With multiple networks, the slaves alternate between the two
    node groups by the parity of their number: the slave the assembler
    names for the number [n >= 0] takes its interfaces, in the sequential
    layout, from the pools of the node group of index [1 - n mod 2], so
    odd slaves use the first group and even slaves the second; a missing
    group is an [IndexError]. *)
Theorem slave_node_group_by_parity
    (a : Args.t) (l2_interfaceorder : list string) (n : Z)
    (groups : list NodeGroup.t) :
  0 <= n ->
  Args.networks_multiplenetworks a = true ->
  Args.networks_nodegroups a = Some groups ->
  nodegroup_pools ("slave-" +:+ format_02 n) (Some groups)
  = NodeGroup.pools <$> index groups (Z.to_nat (1 - n mod 2)) ∧
  (∀ node, slave_node a l2_interfaceorder n = Ok node ->
     ∃ group,
       groups !! Z.to_nat (1 - n mod 2) = Some group ∧
       Node.interfaces (Node.params node)
       = sequential_interfaces (NodeGroup.pools group)) ∧
  (groups !! Z.to_nat (1 - n mod 2) = None ->
   slave_node a l2_interfaceorder n = Raise IndexError).
Proof.
  intros Hn Hm Hg.
  assert (nodegroup_pools ("slave-" +:+ format_02 n) (Some groups)
          = NodeGroup.pools <$> index groups (Z.to_nat (1 - n mod 2)))
    as Hpools.
  { unfold nodegroup_pools. rewrite int_last2_slave_name by done. simpl.
    replace (n mod 100 mod 2) with (n mod 2).
    - by destruct (index groups _).
    - pose proof (Z.div_mod n 100 ltac:(lia)) as E3.
      pose proof (Z.div_mod (n mod 100) 2 ltac:(lia)) as E4.
      pose proof (Z.mod_pos_bound (n mod 100) 2 ltac:(lia)) as B4.
      symmetry.
      apply (Z.mod_unique_pos n 2 (50 * (n / 100) + n mod 100 / 2));
        lia. }
  split; [done|]. split.
  - intros node H. unfold slave_node in H.
    apply create_slave_config_Ok in H as (l & ns & Hl & _ & [-> _] & _).
    rewrite Hm, Hg, Hpools in Hl. unfold index in Hl.
    destruct (groups !! Z.to_nat (1 - n mod 2)) as [group|]; [|done].
    injection Hl as <-. eauto.
  - intros Hnone. unfold slave_node, create_slave_config.
    rewrite Hm, Hg, Hpools. unfold index. by rewrite Hnone.
Qed.

Lemma slave_node_group_by_parity_witness :
  nodegroup_pools ("slave-" +:+ format_02 107)
    (Some [ {| NodeGroup.name := "default";
               NodeGroup.pools := ["admin"; "public"] |};
            {| NodeGroup.name := "group-custom-1";
               NodeGroup.pools := ["admin2"; "public2"] |} ])
  = Ok ["admin"; "public"].
Proof.
  pose (groups :=
          [ {| NodeGroup.name := "default";
               NodeGroup.pools := ["admin"; "public"] |};
            {| NodeGroup.name := "group-custom-1";
               NodeGroup.pools := ["admin2"; "public2"] |} ]).
  pose (a := {| Args.boot_from := "cdrom";
     Args.env_name := "fuel_system_test";
     Args.admin_vcpu := 2;
     Args.admin_memory := 3072;
     Args.admin_sysvolume_capacity := 75;
     Args.admin_iso_path := "/tmp/fuel.iso";
     Args.nodes_count := 3;
     Args.numa_nodes := 0;
     Args.slave_vcpu := 2;
     Args.slave_memory := 3027;
     Args.slave_volume_capacity := 50;
     Args.second_volume_capacity := None;
     Args.third_volume_capacity := None;
     Args.use_all_disks := false;
     Args.multipath_count := 0;
     Args.ironic_nodes_count := 1;
     Args.networks_bonding := false;
     Args.networks_bondinginterfaces := None;
     Args.networks_multiplenetworks := true;
     Args.networks_nodegroups := Some groups;
     Args.networks_interfaceorder := ["admin"; "public"];
     Args.networks_pools := example_pools;
     Args.networks_forwarding := example_forwarding;
     Args.networks_dhcp := example_dhcp;
     Args.driver_enable_acpi := false;
     Args.driver_enable_nwfilers := false |}).
  destruct (slave_node_group_by_parity a ["admin"; "public"] 107 groups
              ltac:(lia) eq_refl eq_refl) as (H & _).
  exact H.
Defined.

(** X6. The volumes of a slave follow one rule in both branches of
    [use_all_disks]: first the system volume with the slave capacity;
    then a cinder volume when [use_all_disks] is set or a non-zero
    second capacity is given; then a swift volume when [use_all_disks]
    is set or a non-zero third capacity is given.  An extra volume has
    its given capacity when that is non-zero and the slave capacity
    otherwise; the system and cinder volumes carry the multipath count,
    the swift volume does not. *)
Theorem slave_volumes_rule
    (slave_name slave_role : string)
    (slave_vcpu slave_memory slave_volume_capacity : Z)
    (interfaceorder : list string) (numa_nodes : Z)
    (second_volume_capacity third_volume_capacity : option Z)
    (use_all_disks : bool) (multipath_count : Z)
    (networks_multiplenetworks : bool)
    (networks_nodegroups : option (list NodeGroup.t))
    (networks_bonding : bool)
    (networks_bondinginterfaces : option (gmap string (list string)))
    (node : Node.t) :
  create_slave_config slave_name slave_role slave_vcpu slave_memory
    slave_volume_capacity interfaceorder numa_nodes
    second_volume_capacity third_volume_capacity use_all_disks
    multipath_count networks_multiplenetworks networks_nodegroups
    networks_bonding networks_bondinginterfaces = Ok node ->
  Node.volumes (Node.params node) =
  ([ {| Volume.name := "system";
        Volume.capacity := Some slave_volume_capacity;
        Volume.format := None; Volume.source_image := None;
        Volume.device := None; Volume.bus := None;
        Volume.multipath_count := Some multipath_count |} ]
   ++ (if use_all_disks || truthy_opt second_volume_capacity
       then [ {| Volume.name := "cinder";
                 Volume.capacity :=
                   Some (or_else second_volume_capacity
                                 slave_volume_capacity);
                 Volume.format := None; Volume.source_image := None;
                 Volume.device := None; Volume.bus := None;
                 Volume.multipath_count := Some multipath_count |} ]
       else [])
   ++ (if use_all_disks || truthy_opt third_volume_capacity
       then [ {| Volume.name := "swift";
                 Volume.capacity :=
                   Some (or_else third_volume_capacity
                                 slave_volume_capacity);
                 Volume.format := None; Volume.source_image := None;
                 Volume.device := None; Volume.bus := None;
                 Volume.multipath_count := None |} ]
       else []))%list.
Proof.
  intros H.
  apply create_slave_config_Ok in H
    as (_ & _ & _ & _ & _ & _ & _ & _ & ->).
  unfold slave_volumes, slave_volume, truthy_opt, or_else.
  destruct use_all_disks; [done|]. simpl.
  destruct second_volume_capacity as [c2|],
           third_volume_capacity as [c3|];
    repeat (match goal with |- context [truthy ?c] =>
              destruct (truthy c) end); done.
Qed.

Lemma slave_volumes_rule_witness :
  ∃ node,
    create_slave_config "slave-01" "fuel_slave" 2 3072 50
      ["admin"; "public"] 0 (Some 0) (Some 30) false 2 false None
      false None = Ok node ∧
    Volume.name <$> Node.volumes (Node.params node) = ["system"; "swift"] ∧
    Volume.capacity <$> Node.volumes (Node.params node)
    = [Some 50; Some 30].
Proof.
  destruct (create_slave_config "slave-01" "fuel_slave" 2 3072 50
              ["admin"; "public"] 0 (Some 0) (Some 30) false 2 false None
              false None) as [node|e] eqn:E; [|by vm_compute in E].
  exists node. split; [reflexivity|].
  rewrite (slave_volumes_rule "slave-01" "fuel_slave" 2 3072 50
             ["admin"; "public"] 0 (Some 0) (Some 30) false 2 false None
             false None node E).
  by split.
Defined.

(** ** More on the address pools *)

Section AddressPoolsMore.

Lemma overridden_size (s1 s2 : Z) (k : string) (pool : AddressPool.t) :
  (contains "public" k = true -> s1 = s2) ->
  overridden s1 k pool = overridden s2 k pool.
Proof.
  unfold overridden. destruct (contains "public" k); [|done].
  by intros ->.
Qed.

Lemma address_pool_overrides_step
    (networks_pools : gmap string (list string))
    (aps aps' : gmap string AddressPool.t) (k : string) :
  is_Some (aps !! k) ->
  address_pool_overrides networks_pools aps k = Ok aps' ->
  ∃ pool,
    aps !! k = Some pool ∧
    (contains "public" k = true ->
     ∃ size, public_network_size networks_pools = Ok size) ∧
    aps' = <[k := overridden (public_size_or_zero networks_pools) k pool]>
             aps.
Proof.
  intros [pool Hk] H. exists pool. split; [done|].
  unfold public_size_or_zero.
  destruct (contains "public" k) eqn:Hpub.
  - destruct (public_network_size networks_pools) as [size|e] eqn:Hs.
    + rewrite (address_pool_overrides_Ok _ _ _ pool size) in H by done.
      injection H as <-. eauto.
    + unfold address_pool_overrides in H. rewrite Hpub, Hs in H.
      by destruct (if contains "private" k then _ else _).
  - rewrite (address_pool_overrides_Ok _ _ _ pool 0) in H
      by (try done; intros; congruence).
    injection H as <-. split; [done|]. f_equal.
    apply overridden_size. congruence.
Qed.

Lemma for_each_overrides_inv
    (networks_pools : gmap string (list string))
    (ks : list string) (aps aps' : gmap string AddressPool.t) :
  NoDup ks ->
  Forall (fun k => is_Some (aps !! k)) ks ->
  for_each (address_pool_overrides networks_pools) aps ks = Ok aps' ->
  (∀ k, k ∈ ks -> contains "public" k = true ->
        ∃ size, public_network_size networks_pools = Ok size) ∧
  ∀ k, aps' !! k =
       if decide (k ∈ ks)
       then overridden (public_size_or_zero networks_pools) k <$> aps !! k
       else aps !! k.
Proof.
  intros Hnd. revert aps.
  induction Hnd as [|k ks Hk Hnd IH]; intros aps Hall H.
  - injection H as <-. split; [by intros k Hin%elem_of_nil|].
    intros k. rewrite decide_False; [done|]. apply not_elem_of_nil.
  - apply Forall_cons in Hall as [Hsome Hall]. simpl in H.
    destruct (address_pool_overrides networks_pools aps k)
      as [aps1|e] eqn:E; [|done].
    simpl in H.
    apply address_pool_overrides_step in E as (pool & Hp & Hsz & ->);
      [|done].
    match type of H with
    | for_each _ ?aps1 _ = _ =>
        assert (Forall (fun j => is_Some (aps1 !! j)) ks) as Hall'
    end.
    { eapply Forall_impl; [exact Hall|]. intros j Hj. simpl.
      destruct (decide (k = j)) as [->|Hne].
      - rewrite lookup_insert_eq. eauto.
      - by rewrite lookup_insert_ne. }
    destruct (IH _ Hall' H) as [Hpub Hlook].
    split.
    + intros j Hj Hc. apply elem_of_cons in Hj as [->|Hj]; eauto.
    + intros j. rewrite Hlook.
      destruct (decide (j = k)) as [->|Hne].
      * rewrite decide_False by done.
        rewrite decide_True by apply list_elem_of_here.
        by rewrite lookup_insert_eq, Hp.
      * rewrite lookup_insert_ne by done.
        destruct (decide (j ∈ ks)).
        -- rewrite decide_True; [done|]. by apply list_elem_of_further.
        -- rewrite decide_False; [done|]. rewrite elem_of_cons. tauto.
Qed.

Lemma for_each_overrides_Raise
    (networks_pools : gmap string (list string)) (e : exn)
    (ks : list string) (aps : gmap string AddressPool.t) :
  Forall (fun k => is_Some (aps !! k)) ks ->
  Exists (fun k => contains "public" k = true) ks ->
  public_network_size networks_pools = Raise e ->
  for_each (address_pool_overrides networks_pools) aps ks = Raise e.
Proof.
  intros Hall Hex Hsize. revert aps Hall.
  induction ks as [|k ks IH]; intros aps Hall;
    [by apply Exists_nil in Hex|].
  apply Forall_cons in Hall as [[pool Hp] Hall]. simpl.
  destruct (contains "public" k) eqn:Hpub.
  - unfold address_pool_overrides. rewrite Hpub, Hsize.
    destruct (contains "private" k); [|done].
    unfold update_item, getitem. by rewrite Hp.
  - rewrite (address_pool_overrides_Ok _ _ _ pool 0)
      by (try done; intros; congruence).
    simpl. apply IH.
    + apply Exists_cons in Hex as [Hex|Hex]; [congruence|done].
    + eapply Forall_impl; [exact Hall|]. intros j Hj. simpl.
      destruct (decide (k = j)) as [->|Hne].
      * rewrite lookup_insert_eq. eauto.
      * by rewrite lookup_insert_ne.
Qed.

Lemma initial_pools_lookup (interfaceorder : list string)
    (networks_pools : gmap string (list string))
    (l : list (string * AddressPool.t)) (k : string) :
  initial_pools interfaceorder networks_pools = Ok l ->
  k ∈ interfaceorder ->
  ∃ subnets,
    networks_pools !! k = Some subnets ∧
    dict_of fst snd l !! k
    = Some (default_address_pool (join ":" subnets)).
Proof.
  intros Hl Hk. apply initial_pools_Ok in Hl as [Hkeys Hall].
  rewrite <- Hkeys in Hk.
  apply list_elem_of_fmap in Hk as ([k' pool0] & -> & Hin). simpl.
  destruct (lookup_dict_of_is_Some fst snd l _ Hin) as [pool Hpool].
  simpl in Hpool.
  pose proof Hpool as Hpool'.
  apply lookup_dict_of_Some in Hpool' as ([k2 pool2] & Hin2 & Hk2 & Hv2).
  simpl in Hk2, Hv2. subst k2 pool2.
  rewrite Forall_forall in Hall.
  destruct (Hall _ Hin2) as (subnets & Hs & ->).
  exists subnets. by rewrite Hpool.
Qed.

Lemma public_network_size_pow (networks_pools : gmap string (list string))
    (cidr prefix : string) (more : list string)
    (net : netaddr.IPNetwork_t) (p : Z) :
  networks_pools !! "public" = Some (cidr :: prefix :: more) ->
  netaddr.IPNetwork cidr = Ok net -> int prefix = Ok p ->
  netaddr.prefixlen net <= p <= 32 ->
  public_network_size networks_pools = Ok (2 ^ (32 - p)).
Proof.
  intros Hpub Hnet Hint [H1 H2].
  unfold public_network_size, getitem. rewrite Hpub. simpl.
  rewrite Hnet. simpl. rewrite Hint. simpl.
  unfold netaddr.next_subnet, netaddr.width.
  rewrite (proj2 (Z.leb_le _ _) H1), (proj2 (Z.leb_le _ _) H2). done.
Qed.

Lemma create_address_pools_total (interfaceorder : list string)
    (networks_pools : gmap string (list string)) (size : Z) :
  Forall (fun iname => is_Some (networks_pools !! iname)) interfaceorder ->
  public_network_size networks_pools = Ok size ->
  ∃ address_pools,
    create_address_pools interfaceorder networks_pools = Ok address_pools.
Proof.
  intros Hall Hsize. rewrite create_address_pools_unfold.
  destruct (initial_pools_total _ _ Hall) as [l Hl]. rewrite Hl. simpl.
  destruct (for_each_overrides_Ok networks_pools size
              (keys (dict_of fst snd l)) (dict_of fst snd l))
    as (aps & Haps & _);
    [apply keys_NoDup | apply keys_is_Some | done | eauto].
Qed.

End AddressPoolsMore.

(** X7. The pool [create_address_pools] returns for a network of the
    ordering: its [net] is its subnets joined by [":"]; address 1 is
    reserved for the gateway and for the L2 network device; a name that
    contains ["private"] gets the VLAN range 900 to 999 and any other
    name no VLAN range; a name that does not contain ["public"] has the
    single range [default = [2, -2]]. *)
Theorem address_pool_of_network
    (interfaceorder : list string)
    (networks_pools : gmap string (list string))
    (address_pools : gmap string AddressPool.t) (name : string) :
  create_address_pools interfaceorder networks_pools = Ok address_pools ->
  name ∈ interfaceorder ->
  ∃ subnets pool,
    networks_pools !! name = Some subnets ∧
    address_pools !! name = Some pool ∧
    AddressPool.net pool = join ":" subnets ∧
    AddressPool.ip_reserved (AddressPool.params pool)
    = <["l2_network_device" := 1]> (<["gateway" := 1]> ∅) ∧
    (AddressPool.vlan_start (AddressPool.params pool),
     AddressPool.vlan_end (AddressPool.params pool))
    = (if contains "private" name then (Some 900, Some 999)
       else (None, None)) ∧
    (contains "public" name = false ->
     AddressPool.ip_ranges (AddressPool.params pool)
     = <["default" := [2; -2]]> ∅).
Proof.
  rewrite create_address_pools_unfold. intros H Hname.
  destruct (initial_pools interfaceorder networks_pools) as [l|e] eqn:E;
    [|done].
  simpl in H.
  destruct (initial_pools_lookup _ _ _ _ E Hname) as (subnets & Hs & Hd).
  apply for_each_overrides_inv in H as [_ Hlook];
    [|apply keys_NoDup|apply keys_is_Some].
  exists subnets. eexists. split; [done|]. split.
  { rewrite Hlook, decide_True, Hd; [done|].
    apply elem_of_keys_dict_of. apply initial_pools_Ok in E as [-> _].
    done. }
  unfold overridden.
  destruct (contains "private" name), (contains "public" name);
    by repeat split.
Qed.

Lemma address_pool_of_network_witness :
  ∃ address_pools subnets pool,
    create_address_pools ["admin"; "public"; "private"] example_pools
    = Ok address_pools ∧
    example_pools !! "private" = Some subnets ∧
    address_pools !! "private" = Some pool ∧
    AddressPool.net pool = join ":" subnets ∧
    (AddressPool.vlan_start (AddressPool.params pool),
     AddressPool.vlan_end (AddressPool.params pool))
    = (Some 900, Some 999).
Proof.
  destruct (create_address_pools_total ["admin"; "public"; "private"]
              example_pools 128) as [aps E].
  { repeat (apply Forall_cons_2; [eexists; reflexivity|]).
    apply Forall_nil_2. }
  { reflexivity. }
  destruct (address_pool_of_network _ _ aps "private" E)
    as (subnets & pool & H1 & H2 & H3 & _ & H4 & _).
  { rewrite !elem_of_cons. tauto. }
  exists aps, subnets, pool. by repeat split.
Defined.

(** X8. The split of a public pool at any prefix length.  When the entry
    of ["public"] starts with a subnet [a.b.c.d/q] and a prefix length
    [p] with [q <= p <= 32], every network of the ordering whose name
    contains ["public"] gets the ranges [default = [2, S/2 - 1]] and
    [floating = [S/2, -2]] for [S = 2^(32 - p)].  For [p <= 29] the
    default range is not empty and ends right below the start of the
    floating range, which starts no later than address [S - 2]; from
    [p = 30] on the default range is empty (its end is below 2). *)
Theorem public_pool_split_at_prefix
    (interfaceorder : list string)
    (networks_pools : gmap string (list string))
    (cidr prefix : string) (more : list string)
    (net : netaddr.IPNetwork_t) (p : Z) (name : string) :
  Forall (fun iname => is_Some (networks_pools !! iname)) interfaceorder ->
  networks_pools !! "public" = Some (cidr :: prefix :: more) ->
  netaddr.IPNetwork cidr = Ok net -> int prefix = Ok p ->
  netaddr.prefixlen net <= p <= 32 ->
  name ∈ interfaceorder -> contains "public" name = true ->
  ∃ address_pools pool,
    create_address_pools interfaceorder networks_pools = Ok address_pools ∧
    address_pools !! name = Some pool ∧
    AddressPool.ip_ranges (AddressPool.params pool)
    = <["floating" := [2 ^ (32 - p) / 2; -2]]>
        (<["default" := [2; 2 ^ (32 - p) / 2 - 1]]> ∅) ∧
    (p <= 29 ->
     2 <= 2 ^ (32 - p) / 2 - 1 < 2 ^ (32 - p) / 2 ∧
     2 ^ (32 - p) / 2 <= 2 ^ (32 - p) - 2) ∧
    (30 <= p -> 2 ^ (32 - p) / 2 - 1 < 2).
Proof.
  intros Hall Hpub Hnet Hint Hp Hname Hcontains.
  pose proof (public_network_size_pow _ _ _ _ _ _ Hpub Hnet Hint Hp)
    as Hsize.
  rewrite create_address_pools_unfold.
  destruct (initial_pools_total _ _ Hall) as [l Hl]. rewrite Hl. simpl.
  destruct (for_each_overrides_Ok networks_pools (2 ^ (32 - p))
              (keys (dict_of fst snd l)) (dict_of fst snd l))
    as (aps & Haps & Hlook);
    [apply keys_NoDup | apply keys_is_Some | done |].
  destruct (initial_pools_lookup _ _ _ _ Hl Hname) as (subnets & Hs & Hd).
  exists aps. eexists. split; [done|]. split.
  { rewrite Hlook, decide_True, Hd; [done|].
    apply elem_of_keys_dict_of. apply initial_pools_Ok in Hl as [-> _].
    done. }
  split.
  { unfold overridden. rewrite Hcontains.
    by destruct (contains "private" name). }
  assert (2 ^ (32 - p) = 2 * 2 ^ (31 - p) ∨ p = 32) as [E| ->].
  { destruct (decide (p = 32)) as [|Hne]; [by right|left].
    rewrite <- Z.pow_succ_r by lia. f_equal. lia. }
  - rewrite E, Z.mul_comm, Z.div_mul by lia. split.
    + intros Hle.
      assert (2 ^ 2 <= 2 ^ (31 - p)) by (apply Z.pow_le_mono_r; lia).
      lia.
    + intros Hge.
      assert (2 ^ (31 - p) <= 2 ^ 1) by (apply Z.pow_le_mono_r; lia).
      lia.
  - split; [lia|]. intros _. done.
Qed.

Lemma public_pool_split_at_prefix_witness :
  ∃ address_pools pool,
    create_address_pools ["admin"; "public"]
      (<["admin" := ["10.109.0.0/16"; "24"]]>
         (<["public" := ["172.16.0.0/16"; "30"]]> ∅)) = Ok address_pools ∧
    address_pools !! "public" = Some pool ∧
    AddressPool.ip_ranges (AddressPool.params pool)
    = <["floating" := [2; -2]]> (<["default" := [2; 1]]> ∅).
Proof.
  destruct (public_pool_split_at_prefix
              ["admin"; "public"]
              (<["admin" := ["10.109.0.0/16"; "24"]]>
                 (<["public" := ["172.16.0.0/16"; "30"]]> ∅))
              "172.16.0.0/16" "30" []
              {| netaddr.value := 2886729728; netaddr.prefixlen := 16 |}
              30 "public")
    as (aps & pool & H1 & H2 & H3 & _).
  - apply Forall_cons_2; [eexists; reflexivity|].
    apply Forall_cons_2; [eexists; reflexivity|]. apply Forall_nil_2.
  - reflexivity.
  - reflexivity.
  - reflexivity.
  - simpl. lia.
  - apply list_elem_of_further, list_elem_of_here.
  - reflexivity.
  - change (2 ^ (32 - 30) / 2) with 2 in H3.
    exists aps, pool. split; [exact H1|]. split; [exact H2|exact H3].
Defined.

(** X9. The public split reads the entry of ["public"], whatever the name
    of the network being split.  When every network of the ordering has
    an entry and one of them has ["public"] in its name, the call fails
    with [KeyError('public')] if there is no entry named ["public"],
    even when the network has an entry under its own name, and with
    [IndexError] if the entry named ["public"] is an empty list. *)
Theorem public_split_needs_public_entry
    (interfaceorder : list string)
    (networks_pools : gmap string (list string)) :
  Forall (fun iname => is_Some (networks_pools !! iname)) interfaceorder ->
  Exists (fun iname => contains "public" iname = true) interfaceorder ->
  (networks_pools !! "public" = None ->
   create_address_pools interfaceorder networks_pools
   = Raise (KeyError "public")) ∧
  (networks_pools !! "public" = Some [] ->
   create_address_pools interfaceorder networks_pools = Raise IndexError).
Proof.
  intros Hall Hex.
  assert (∀ e, public_network_size networks_pools = Raise e ->
               create_address_pools interfaceorder networks_pools
               = Raise e) as Hgen.
  { intros e He. rewrite create_address_pools_unfold.
    destruct (initial_pools_total _ _ Hall) as [l Hl]. rewrite Hl. simpl.
    apply for_each_overrides_Raise; [apply keys_is_Some| |done].
    apply Exists_exists in Hex as (k & Hk & Hc).
    apply Exists_exists. exists k. split; [|done].
    apply elem_of_keys_dict_of. apply initial_pools_Ok in Hl as [-> _].
    done. }
  split.
  - intros Hnone. apply Hgen.
    unfold public_network_size, getitem. by rewrite Hnone.
  - intros Hempty. apply Hgen.
    unfold public_network_size, getitem. by rewrite Hempty.
Qed.

Lemma public_split_needs_public_entry_witness :
  create_address_pools ["admin"; "public2"]
    (<["admin" := ["10.109.0.0/16"; "24"]]>
       (<["public2" := ["10.0.0.0/24"; "25"]]> ∅))
  = Raise (KeyError "public").
Proof.
  apply (public_split_needs_public_entry ["admin"; "public2"]).
  - apply Forall_cons_2; [eexists; reflexivity|].
    apply Forall_cons_2; [eexists; reflexivity|]. apply Forall_nil_2.
  - apply Exists_cons_tl, Exists_cons_hd. reflexivity.
  - reflexivity.
Defined.

(** ** More on the L2 network devices *)

Section L2NetworkDevicesMore.

Lemma l2_device_entries (interfaceorder : list string)
    (networks_dhcp : gmap string bool)
    (networks_forwarding : gmap string (option string))
    (l : list (string * L2NetworkDevice.t)) :
  mapM (fun iname =>
          dhcp ← getitem networks_dhcp iname;
          mode ← getitem networks_forwarding iname;
          mret (iname,
                {| L2NetworkDevice.address_pool := iname;
                   L2NetworkDevice.dhcp := dhcp;
                   L2NetworkDevice.forward_mode := mode |}))
       interfaceorder = Ok l ->
  l.*1 = interfaceorder ∧
  Forall (fun '(iname, device) =>
            ∃ dhcp mode,
              networks_dhcp !! iname = Some dhcp ∧
              networks_forwarding !! iname = Some mode ∧
              device = {| L2NetworkDevice.address_pool := iname;
                          L2NetworkDevice.dhcp := dhcp;
                          L2NetworkDevice.forward_mode := mode |}) l.
Proof.
  rewrite mapM_Ok_Forall2.
  induction 1 as [|iname [k dev] order l Hi _ [IH1 IH2]]; [done|].
  unfold getitem in Hi.
  destruct (networks_dhcp !! iname) as [dhcp|] eqn:Ed; [|done].
  destruct (networks_forwarding !! iname) as [mode|] eqn:Ef; [|done].
  injection Hi as <- <-. simpl. split; [by f_equal|].
  constructor; [eauto|done].
Qed.

Lemma create_l2_network_devices_lookup (interfaceorder : list string)
    (networks_dhcp : gmap string bool)
    (networks_forwarding : gmap string (option string))
    (devices : gmap string L2NetworkDevice.t) (iname : string)
    (device : L2NetworkDevice.t) :
  create_l2_network_devices interfaceorder networks_dhcp
    networks_forwarding = Ok devices ->
  devices !! iname = Some device ->
  iname ∈ interfaceorder ∧
  ∃ dhcp mode,
    networks_dhcp !! iname = Some dhcp ∧
    networks_forwarding !! iname = Some mode ∧
    device = {| L2NetworkDevice.address_pool := iname;
                L2NetworkDevice.dhcp := dhcp;
                L2NetworkDevice.forward_mode := mode |}.
Proof.
  intros H Hd. split.
  { apply (create_l2_network_devices_dom _ _ _ _ H). eauto. }
  unfold create_l2_network_devices in H.
  destruct (mapM _ interfaceorder) as [l|e] eqn:E; [|done].
  injection H as <-.
  apply l2_device_entries in E as [_ Hall].
  apply lookup_dict_of_Some in Hd as ([k dev] & Hin & Hk & Hv).
  simpl in Hk, Hv. subst k dev.
  rewrite Forall_forall in Hall. exact (Hall _ Hin).
Qed.

End L2NetworkDevicesMore.

(** X10. The L2 network devices [create_l2_network_devices] returns are
    those of the ordering and no others; the device of a network is
    bound to the address pool of its own name and carries the DHCP flag
    and the forwarding mode listed for that name. *)
Theorem l2_network_devices_of_ordering
    (interfaceorder : list string)
    (networks_dhcp : gmap string bool)
    (networks_forwarding : gmap string (option string))
    (devices : gmap string L2NetworkDevice.t) :
  create_l2_network_devices interfaceorder networks_dhcp
    networks_forwarding = Ok devices ->
  (∀ iname, iname ∈ interfaceorder ->
     ∃ dhcp mode,
       networks_dhcp !! iname = Some dhcp ∧
       networks_forwarding !! iname = Some mode ∧
       devices !! iname
       = Some {| L2NetworkDevice.address_pool := iname;
                 L2NetworkDevice.dhcp := dhcp;
                 L2NetworkDevice.forward_mode := mode |}) ∧
  (∀ iname, iname ∉ interfaceorder -> devices !! iname = None).
Proof.
  intros H. split.
  - intros iname Hin.
    destruct (proj2 (create_l2_network_devices_dom _ _ _ _ H iname) Hin)
      as [device Hd].
    destruct (create_l2_network_devices_lookup _ _ _ _ _ _ H Hd)
      as (_ & dhcp & mode & H1 & H2 & ->).
    eauto.
  - intros iname Hin. apply eq_None_not_Some. intros Hs. apply Hin.
    by apply (create_l2_network_devices_dom _ _ _ _ H).
Qed.

Lemma l2_network_devices_of_ordering_witness :
  ∃ devices,
    create_l2_network_devices ["admin"; "private"] example_dhcp
      example_forwarding = Ok devices ∧
    devices !! "storage" = None.
Proof.
  destruct (create_l2_network_devices ["admin"; "private"] example_dhcp
              example_forwarding) as [devices|e] eqn:E;
    [|by vm_compute in E].
  exists devices. split; [reflexivity|].
  apply (l2_network_devices_of_ordering _ _ _ devices E).
  rewrite !elem_of_cons, elem_of_nil. intros [|[|[]]]; discriminate.
Defined.

(** X11. [create_l2_network_devices] succeeds when every network of the
    ordering is listed both in [networks_dhcp] and in
    [networks_forwarding]; otherwise it fails with [KeyError] on the
    first network of the ordering that one of the two does not list. *)
Theorem l2_network_devices_first_missing
    (interfaceorder : list string)
    (networks_dhcp : gmap string bool)
    (networks_forwarding : gmap string (option string)) :
  (Forall (fun iname => is_Some (networks_dhcp !! iname) ∧
                        is_Some (networks_forwarding !! iname))
          interfaceorder ->
   ∃ devices,
     create_l2_network_devices interfaceorder networks_dhcp
       networks_forwarding = Ok devices) ∧
  (∀ before iname after,
     interfaceorder = (before ++ iname :: after)%list ->
     Forall (fun iname => is_Some (networks_dhcp !! iname) ∧
                          is_Some (networks_forwarding !! iname))
            before ->
     networks_dhcp !! iname = None ∨ networks_forwarding !! iname = None ->
     create_l2_network_devices interfaceorder networks_dhcp
       networks_forwarding = Raise (KeyError iname)).
Proof.
  split.
  - intros Hall. unfold create_l2_network_devices.
    match goal with
    | |- context [mapM ?f interfaceorder] =>
        assert (∃ l, mapM f interfaceorder = Ok l) as [l ->]
    end.
    { induction Hall as [|iname order [[d Hd] [m Hm]] _ [l IH]].
      - by exists [].
      - eexists. apply mapM_Ok_cons. do 2 eexists.
        split; [done|]. split; [|exact IH].
        unfold getitem. rewrite Hd. simpl. by rewrite Hm. }
    simpl. eauto.
  - intros before iname after -> Hbefore Hmiss.
    unfold create_l2_network_devices.
    rewrite (mapM_Raise_first _ before after iname (KeyError iname));
      [done| |].
    + eapply Forall_impl; [exact Hbefore|].
      intros k [[d Hd] [m Hm]]. simpl. unfold getitem.
      rewrite Hd. simpl. rewrite Hm. simpl. eauto.
    + unfold getitem. destruct Hmiss as [Hd|Hm].
      * by rewrite Hd.
      * destruct (networks_dhcp !! iname); simpl; by rewrite ?Hm.
Qed.

Lemma l2_network_devices_first_missing_witness :
  create_l2_network_devices ["admin"; "bond0"; "bond1"] example_dhcp
    example_forwarding = Raise (KeyError "bond0").
Proof.
  apply (proj2 (l2_network_devices_first_missing
                  ["admin"; "bond0"; "bond1"] example_dhcp
                  example_forwarding) ["admin"] "bond0" ["bond1"]).
  - reflexivity.
  - apply Forall_cons_2; [|apply Forall_nil_2].
    split; eexists; reflexivity.
  - left. reflexivity.
Defined.

(** ** More on the assembled configuration *)

Section AssemblerMore.

Lemma string_app_inj_l (p a b : string) : p +:+ a = p +:+ b -> a = b.
Proof.
  induction p as [|c p IH]; [done|].
  change (String c (p +:+ a) = String c (p +:+ b) -> a = b).
  intros [= E]. by apply IH.
Qed.

Lemma pretty_N_length_ge_3 (x : N) :
  (100 ≤ x)%N -> (3 ≤ String.length (pretty x))%nat.
Proof.
  intros Hx. rewrite pretty_N_tens, string_app_length by lia. simpl.
  assert (10 ≤ x `div` 10)%N as Ht.
  { apply (N.div_le_lower_bound x 10 10); lia. }
  pose proof (pretty_N_length_ge _ Ht). lia.
Qed.

Lemma format_02_length (n : Z) :
  0 <= n ->
  if decide (n < 100) then String.length (format_02 n) = 2%nat
  else (3 ≤ String.length (format_02 n))%nat.
Proof.
  intros Hn. unfold format_02. rewrite str_nonneg by done.
  rewrite string_app_length.
  destruct (decide (n < 10)) as [H10|H10].
  - rewrite decide_True by lia.
    rewrite pretty_N_digit by lia. done.
  - pose proof (pretty_N_length_ge (Z.to_N n) ltac:(lia)) as Hlen.
    replace (2 - _)%nat with 0%nat by lia. simpl.
    destruct (decide (n < 100)) as [H100|H100].
    + rewrite pretty_N_tens by lia.
      rewrite (pretty_N_digit (Z.to_N n `div` 10)).
      * done.
      * apply N.Div0.div_lt_upper_bound; lia.
    + apply pretty_N_length_ge_3. lia.
Qed.

Lemma format_02_ge_10 (n : Z) : 10 <= n -> format_02 n = str n.
Proof.
  intros Hn. unfold format_02.
  pose proof (pretty_N_length_ge (Z.to_N n) ltac:(lia)) as Hlen.
  rewrite <- str_nonneg in Hlen by lia.
  by replace (2 - _)%nat with 0%nat by lia.
Qed.

(** Distinct numbers give distinct two-column names. *)
Lemma format_02_inj (n m : Z) :
  0 <= n -> 0 <= m -> format_02 n = format_02 m -> n = m.
Proof.
  intros Hn Hm E.
  pose proof (format_02_length n Hn) as Ln.
  pose proof (format_02_length m Hm) as Lm.
  pose proof (int_last2_slave_name EmptyString n Hn) as In.
  pose proof (int_last2_slave_name EmptyString m Hm) as Im.
  change (EmptyString +:+ format_02 n) with (format_02 n) in In.
  change (EmptyString +:+ format_02 m) with (format_02 m) in Im.
  rewrite E in In. rewrite In in Im. injection Im as Emod.
  rewrite E in Ln.
  destruct (decide (n < 100)), (decide (m < 100)); try lia.
  - rewrite !Z.mod_small in Emod by lia. done.
  - rewrite !format_02_ge_10 in E by lia. by apply (inj str).
Qed.

Lemma slave_names (a : Args.t) (l2_interfaceorder : list string)
    (numbers : list Z) (slaves : list Node.t) :
  mapM (slave_node a l2_interfaceorder) numbers = Ok slaves ->
  Node.name <$> slaves
  = (fun n => "slave-" +:+ format_02 n) <$> numbers ∧
  Forall (fun node => Node.role node = "fuel_slave") slaves.
Proof.
  rewrite mapM_Ok_Forall2.
  induction 1 as [|n node numbers slaves Hnode _ [IH1 IH2]]; [done|].
  unfold slave_node in Hnode.
  apply create_slave_config_Ok in Hnode
    as (_ & _ & _ & _ & _ & Hname & Hrole & _).
  split.
  - rewrite !fmap_cons. by f_equal.
  - by constructor.
Qed.

Lemma slave_interfaces_sequential (a : Args.t)
    (l2_interfaceorder : list string) (numbers : list Z)
    (slaves : list Node.t) :
  Args.networks_multiplenetworks a = false ->
  Args.networks_bonding a = false ->
  mapM (slave_node a l2_interfaceorder) numbers = Ok slaves ->
  Forall (fun node =>
            Node.interfaces (Node.params node)
            = sequential_interfaces l2_interfaceorder) slaves.
Proof.
  intros Hm Hb. rewrite mapM_Ok_Forall2.
  induction 1 as [|n node numbers slaves Hnode _ IH]; [done|].
  constructor; [|done].
  unfold slave_node in Hnode.
  apply create_slave_config_Ok in Hnode
    as (l & _ & Hl & _ & [Hi _] & _).
  rewrite Hm, Hb in Hl. by injection Hl as <-.
Qed.

Lemma ironic_names (a : Args.t) (numbers : list Z)
    (ironics : list Node.t) :
  mapM (ironic_node a) numbers = Ok ironics ->
  Node.name <$> ironics
  = (fun n => "ironic-slave-" +:+ format_02 n) <$> numbers ∧
  Forall (fun node =>
            Node.role node = "ironic_slave" ∧
            Node.interfaces (Node.params node)
            = sequential_interfaces ["ironic"]) ironics.
Proof.
  rewrite mapM_Ok_Forall2.
  induction 1 as [|n node numbers ironics Hnode _ [IH1 IH2]]; [done|].
  unfold ironic_node in Hnode.
  apply create_slave_config_Ok in Hnode
    as (interfaces & _ & Hi & _ & [Hl _] & Hname & Hrole & _).
  injection Hi as <-.
  split.
  - rewrite !fmap_cons. by f_equal.
  - by constructor.
Qed.

Lemma numbered_names_NoDup (p : string) (first count : Z) :
  0 <= first ->
  NoDup ((fun n => p +:+ format_02 n) <$> seqZ first count).
Proof.
  intros Hf. apply NoDup_fmap_2_strong; [|apply NoDup_seqZ].
  intros n m Hn%elem_of_seqZ Hm%elem_of_seqZ E.
  apply string_app_inj_l in E. apply format_02_inj in E; lia.
Qed.

Lemma length_range (a b : Z) : length (range a b) = Z.to_nat (b - a).
Proof. unfold range. apply length_seqZ. Qed.

End AssemblerMore.

(** X12. The nodes of an assembled configuration, for any counts: the
    admin node first, then the slaves ["slave-NN"] for the numbers 1 to
    [nodes_count - 1] (so that [nodes_count] counts the admin node in),
    then the ironic nodes ["ironic-slave-NN"] for the numbers 1 to
    [ironic_nodes_count]; the numbers are written in two columns at
    least.  No two nodes share a name. *)
Theorem assembled_nodes_named_apart
    (a : Args.t) (config : DevopsSettings.t) :
  create_devops_config a = Ok config ->
  ∃ group,
    DevopsSettings.groups config = [group] ∧
    Node.name <$> Group.nodes group
    = ("admin"
       :: ((fun n => "slave-" +:+ format_02 n)
             <$> range 1 (Args.nodes_count a))
       ++ ((fun n => "ironic-slave-" +:+ format_02 n)
             <$> range 1 (Args.ironic_nodes_count a + 1)))%list ∧
    length (Group.nodes group)
    = (1 + Z.to_nat (Args.nodes_count a - 1)
       + Z.to_nat (Args.ironic_nodes_count a))%nat ∧
    NoDup (Node.name <$> Group.nodes group).
Proof.
  intros H.
  apply create_devops_config_Ok in H
    as (l2 & devices & admin & slaves & ironics & group
        & _ & _ & _ & Hadmin & Hslaves & Hironics & Hg & _ & _ & Hnodes).
  apply create_admin_config_Ok in Hadmin
    as (_ & _ & _ & _ & _ & Hname & _).
  apply slave_names in Hslaves as [Hsn _].
  apply ironic_names in Hironics as [Hin _].
  assert (Node.name <$> Group.nodes group
          = ("admin"
             :: ((fun n => "slave-" +:+ format_02 n)
                   <$> range 1 (Args.nodes_count a))
             ++ ((fun n => "ironic-slave-" +:+ format_02 n)
                   <$> range 1 (Args.ironic_nodes_count a + 1)))%list)
    as Hnames.
  { rewrite Hnodes, fmap_cons, fmap_app. by rewrite Hname, Hsn, Hin. }
  exists group. split; [done|]. split; [done|]. split.
  - rewrite <- (length_fmap Node.name), Hnames. simpl.
    rewrite length_app, !length_fmap, !length_range.
    f_equal. f_equal. f_equal. lia.
  - rewrite Hnames. apply NoDup_cons. split.
    + rewrite elem_of_app, !list_elem_of_fmap.
      by intros [(n & E & _)|(n & E & _)].
    + apply NoDup_app. split; [by apply numbered_names_NoDup|].
      split; [|by apply numbered_names_NoDup].
      intros name (n & -> & _)%list_elem_of_fmap
                  (m & E & _)%list_elem_of_fmap.
      done.
Qed.

Lemma assembled_nodes_named_apart_witness :
  ∃ config group,
    create_devops_config (example_args false None) = Ok config ∧
    DevopsSettings.groups config = [group] ∧
    length (Group.nodes group) = 4%nat.
Proof.
  destruct (create_devops_config (example_args false None))
    as [config|e] eqn:E; [|by vm_compute in E].
  destruct (assembled_nodes_named_apart _ config E)
    as (group & Hg & _ & Hlen & _).
  exists config, group. split; [reflexivity|]. split; [exact Hg|].
  exact Hlen.
Defined.

(** X13. Without bonding and without multiple networks, the references
    of an assembled configuration resolve: every L2 network device is
    bound to an address pool of the configuration, every entry of
    [network_pools] names an L2 network device, and every interface of
    the admin node and of the slaves is attached to an L2 network
    device.  The ironic nodes are the exception: their one interface is
    attached to the device ["ironic"], which exists only when the
    interface ordering lists it; when it does not and there is an
    ironic node, that node's interface is attached to no device of the
    configuration. *)
Theorem assembled_references_resolve
    (a : Args.t) (config : DevopsSettings.t) :
  Args.networks_bonding a = false ->
  Args.networks_multiplenetworks a = false ->
  create_devops_config a = Ok config ->
  ∃ group,
    DevopsSettings.groups config = [group] ∧
    (∀ iname device,
       Group.l2_network_devices group !! iname = Some device ->
       is_Some (DevopsSettings.address_pools config
                  !! L2NetworkDevice.address_pool device)) ∧
    (∀ netname iname,
       Group.network_pools group !! netname = Some iname ->
       is_Some (Group.l2_network_devices group !! iname)) ∧
    (∀ node iface,
       node ∈ Group.nodes group ->
       iface ∈ Node.interfaces (Node.params node) ->
       is_Some (Group.l2_network_devices group
                  !! Interface.l2_network_device iface) ∨
       (Node.role node = "ironic_slave" ∧
        Interface.l2_network_device iface = "ironic")) ∧
    (0 < Args.ironic_nodes_count a ->
     "ironic" ∉ Args.networks_interfaceorder a ->
     ∃ node iface,
       node ∈ Group.nodes group ∧
       iface ∈ Node.interfaces (Node.params node) ∧
       Group.l2_network_devices group
         !! Interface.l2_network_device iface = None).
Proof.
  intros Hb Hm H.
  apply create_devops_config_Ok in H
    as (l2 & devices & admin & slaves & ironics & group
        & Hl2 & Haps & Hdev & Hadmin & Hslaves & Hironics & Hg
        & Hpools & Hdevices & Hnodes).
  rewrite Hb in Hl2. injection Hl2 as <-.
  rewrite Hb in Hadmin.
  exists group. split; [done|]. rewrite Hdevices.
  pose proof (create_l2_network_devices_dom _ _ _ _ Hdev) as Hdom.
  split; [|split; [|split]].
  - intros iname device Hd.
    destruct (create_l2_network_devices_lookup _ _ _ _ _ _ Hdev Hd)
      as (Hin & dhcp & mode & _ & _ & ->).
    simpl. by apply (create_address_pools_dom _ _ _ Haps).
  - intros netname iname Hn. rewrite Hpools, create_netpools_dict in Hn.
    apply lookup_dict_of_Some in Hn as (x & Hx & _ & <-).
    by apply Hdom.
  - intros node iface Hnode Hiface. rewrite Hnodes in Hnode.
    apply elem_of_cons in Hnode as [->|Hnode];
      [|apply elem_of_app in Hnode as [Hnode|Hnode]].
    + left. apply create_admin_config_Ok in Hadmin
        as (l & _ & [= <-] & _ & [Hl _] & _).
      rewrite Hl in Hiface. apply Hdom.
      rewrite <- (sequential_interfaces_devices
                    (Args.networks_interfaceorder a)).
      by apply list_elem_of_fmap_2.
    + left. apply (slave_interfaces_sequential _ _ _ _ Hm Hb) in Hslaves.
      rewrite Forall_forall in Hslaves.
      rewrite (Hslaves _ Hnode) in Hiface. apply Hdom.
      rewrite <- (sequential_interfaces_devices
                    (Args.networks_interfaceorder a)).
      by apply list_elem_of_fmap_2.
    + right. apply ironic_names in Hironics as [_ Hall].
      rewrite Forall_forall in Hall.
      destruct (Hall _ Hnode) as [Hrole Hi].
      rewrite Hi in Hiface. split; [done|].
      apply list_elem_of_singleton in Hiface. by subst iface.
  - intros Hcount Hnot.
    assert (range 1 (Args.ironic_nodes_count a + 1)
            = 1 :: range 2 (Args.ironic_nodes_count a + 1)) as Hr.
    { unfold range. rewrite seqZ_cons by lia. f_equal. f_equal; lia. }
    rewrite Hr in Hironics.
    apply mapM_Ok_cons in Hironics as (node & rest & -> & Hnode & _).
    unfold ironic_node in Hnode.
    apply create_slave_config_Ok in Hnode
      as (l & _ & [= <-] & _ & [Hi _] & _).
    exists node, (e1000 "iface0" "ironic"). split; [|split].
    + rewrite Hnodes. apply list_elem_of_further, elem_of_app. right.
      apply list_elem_of_here.
    + rewrite Hi. apply list_elem_of_here.
    + simpl. apply eq_None_not_Some. intros Hs. apply Hnot.
      by apply Hdom.
Qed.

Lemma assembled_references_resolve_witness :
  ∃ config group node iface,
    create_devops_config (example_args false None) = Ok config ∧
    DevopsSettings.groups config = [group] ∧
    node ∈ Group.nodes group ∧
    iface ∈ Node.interfaces (Node.params node) ∧
    Group.l2_network_devices group
      !! Interface.l2_network_device iface = None.
Proof.
  destruct (create_devops_config (example_args false None))
    as [config|e] eqn:E; [|by vm_compute in E].
  destruct (assembled_references_resolve (example_args false None) config
              eq_refl eq_refl E)
    as (group & Hg & _ & _ & _ & Hironic).
  destruct Hironic as (node & iface & H1 & H2 & H3).
  - reflexivity.
  - cbn [Args.networks_interfaceorder example_args].
    rewrite !elem_of_cons, elem_of_nil.
    intros [|[|[|[|[|[]]]]]]; discriminate.
  - exists config, group, node, iface.
    split; [reflexivity|]. split; [exact Hg|].
    split; [exact H1|]. split; [exact H2|exact H3].
Defined.

(** ** More on the template loader *)

Section PathsAndBlanks.

Lemma contains_sep_cons (c : ascii) (s : string) :
  contains "/" (String c s) = Ascii.eqb c "/"%char || contains "/" s.
Proof.
  cbn [contains String.prefix].
  destruct (ascii_dec "/" c) as [<-|Hne].
  - by destruct s.
  - destruct (Ascii.eqb_spec c "/"%char) as [->|_]; done.
Qed.

Lemma head_no_sep (s : string) :
  contains "/" s = false -> posixpath.head s = EmptyString.
Proof.
  induction s as [|c s IH]; [done|].
  rewrite contains_sep_cons. intros [Hc Hs]%orb_false_elim.
  simpl. by rewrite IH, Hc.
Qed.

Lemma head_app_sep (dir base : string) :
  contains "/" base = false ->
  posixpath.head (dir +:+ "/" +:+ base) = dir +:+ "/".
Proof.
  intros Hb. induction dir as [|c dir IH].
  - change (posixpath.head (String "/" base) = "/").
    simpl. by rewrite head_no_sep.
  - change (posixpath.head (String c (dir +:+ "/" +:+ base))
            = String c (dir +:+ "/")).
    simpl. rewrite IH. by destruct dir.
Qed.

Lemma rstrip_sep_cons (c : ascii) (s : string) :
  posixpath.rstrip_sep (String c s)
  = match posixpath.rstrip_sep s with
    | EmptyString =>
        if Ascii.eqb c "/"%char then EmptyString else String c EmptyString
    | r => String c r
    end.
Proof. done. Qed.

Lemma rstrip_sep_app_sep (dir : string) :
  dir ≠ EmptyString -> posixpath.endswith_sep dir = false ->
  posixpath.rstrip_sep (dir +:+ "/") = dir.
Proof.
  induction dir as [|c dir IH]; [done|]. intros _ He.
  change (posixpath.rstrip_sep (String c (dir +:+ "/")) = String c dir).
  rewrite rstrip_sep_cons.
  destruct dir as [|c' dir].
  - simpl in *. by rewrite He.
  - rewrite IH by done. done.
Qed.

Lemma all_sep_app_sep (dir : string) :
  dir ≠ EmptyString -> posixpath.endswith_sep dir = false ->
  posixpath.all_sep (dir +:+ "/") = false.
Proof.
  induction dir as [|c dir IH]; [done|]. intros _ He.
  change (Ascii.eqb c "/"%char && posixpath.all_sep (dir +:+ "/")
          = false).
  destruct dir as [|c' dir].
  - simpl in *. by rewrite He.
  - rewrite IH by done. apply andb_false_r.
Qed.

(** The directory of [dir/base]. *)
Lemma dirname_app_sep (dir base : string) :
  dir ≠ EmptyString -> posixpath.endswith_sep dir = false ->
  contains "/" base = false ->
  posixpath.dirname (dir +:+ "/" +:+ base) = dir.
Proof.
  intros Hd He Hb. unfold posixpath.dirname.
  rewrite head_app_sep by done.
  by rewrite all_sep_app_sep, rstrip_sep_app_sep.
Qed.

Lemma dirname_no_sep (base : string) :
  contains "/" base = false -> posixpath.dirname base = EmptyString.
Proof.
  intros Hb. unfold posixpath.dirname. by rewrite head_no_sep.
Qed.

Lemma join_empty (b : string) : posixpath.join EmptyString b = b.
Proof. unfold posixpath.join. by destruct (String.prefix "/" b). Qed.

Lemma join_dir (dir b : string) :
  dir ≠ EmptyString -> posixpath.endswith_sep dir = false ->
  posixpath.join dir b
  = if String.prefix "/" b then b else dir +:+ "/" +:+ b.
Proof.
  intros Hd He. unfold posixpath.join.
  destruct (String.prefix "/" b); [done|].
  by rewrite decide_False, He.
Qed.

Lemma lstrip_keeps (s1 s2 : string) (c : ascii) :
  isspace c = false ->
  ∃ s1', lstrip (s1 +:+ String c s2) = s1' +:+ String c s2.
Proof.
  intros Hc. induction s1 as [|x s1 [s1' IH]].
  - exists EmptyString.
    change (lstrip (String c s2) = String c s2). simpl. by rewrite Hc.
  - change (∃ s1', lstrip (String x (s1 +:+ String c s2))
                   = s1' +:+ String c s2).
    simpl. destruct (isspace x).
    + eauto.
    + by exists (String x s1).
Qed.

Lemma rstrip_keeps (s1 s2 : string) (c : ascii) :
  isspace c = false -> rstrip (s1 +:+ String c s2) ≠ EmptyString.
Proof.
  intros Hc. induction s1 as [|x s1 IH].
  - change (rstrip (String c s2) ≠ EmptyString). simpl.
    destruct (rstrip s2); by rewrite ?Hc.
  - change (rstrip (String x (s1 +:+ String c s2)) ≠ EmptyString).
    simpl. by destruct (rstrip (s1 +:+ String c s2)).
Qed.

(** A text with a character that is not white space does not strip to
    the empty string. *)
Lemma strip_keeps (s1 s2 : string) (c : ascii) :
  isspace c = false -> strip (s1 +:+ String c s2) ≠ EmptyString.
Proof.
  intros Hc. unfold strip.
  destruct (lstrip_keeps s1 s2 c Hc) as [s1' ->].
  by apply rstrip_keeps.
Qed.

Lemma split1_first (sep : ascii) (a b : string) :
  sep ∉ String.list_ascii_of_string a ->
  split1 sep (a +:+ String sep b) = (a, Some b).
Proof.
  induction a as [|c a IH]; intros Ha.
  - change (split1 sep (String sep b) = (EmptyString, Some b)).
    simpl. by rewrite Ascii.eqb_refl.
  - change (split1 sep (String c (a +:+ String sep b))
            = (String c a, Some b)).
    simpl in *. apply not_elem_of_cons in Ha as [Hc Ha].
    destruct (Ascii.eqb_spec c sep) as [->|_]; [done|].
    by rewrite IH.
Qed.

Lemma split1_none (sep : ascii) (a : string) :
  sep ∉ String.list_ascii_of_string a ->
  split1 sep a = (a, None).
Proof.
  induction a as [|c a IH]; intros Ha; [done|].
  simpl in *. apply not_elem_of_cons in Ha as [Hc Ha].
  destruct (Ascii.eqb_spec c sep) as [->|_]; [done|].
  by rewrite IH.
Qed.

End PathsAndBlanks.

Section TemplateLoaderMore.

Context {scalar : Type}.
Variable compose : string -> result (option node).
Variable construct_scalar : string -> string -> result scalar.
Variable files : string -> option string.
Variable environ : string -> option string.

Lemma yaml_load_include (depth : nat) (name text value : string) :
  compose text = Ok (Some (ScalarNode "!include" value)) ->
  yaml_load compose construct_scalar files environ (S depth) name text
  = match files (posixpath.join (posixpath.dirname name) value) with
    | None =>
        Some (Raise (DevopsError
                       (include_missing_error name
                          (posixpath.join (posixpath.dirname name)
                                          value))))
    | Some inputfile =>
        yaml_load compose construct_scalar files environ depth
          (posixpath.join (posixpath.dirname name) value) inputfile
    end.
Proof. intros Hc. simpl. by rewrite Hc. Qed.

Lemma yaml_load_os_env (depth : nat) (name text value : string) :
  compose text = Ok (Some (ScalarNode "!os_env" value)) ->
  yaml_load compose construct_scalar files environ (S depth) name text
  = yaml_get_env_variable environ
      (yaml_load compose construct_scalar files environ depth)
      name (ScalarNode "!os_env" value).
Proof. intros Hc. simpl. by rewrite Hc. Qed.

(** X14. An include is resolved beside the including file.  In the
    template [dir/base], the directive [!include value] reads [value]
    itself when it starts with ["/"] and [dir/value] otherwise; in a
    template named without a directory it reads [value].  A file that
    does not exist is a [DevopsError] that names the template and the
    resolved path; a file that exists is loaded under the resolved path,
    so that its own includes are resolved beside it in turn. *)
Theorem include_resolved_beside_template
    (depth : nat) (dir base text value : string) :
  contains "/" base = false ->
  compose text = Ok (Some (ScalarNode "!include" value)) ->
  (dir ≠ EmptyString -> posixpath.endswith_sep dir = false ->
   let name := dir +:+ "/" +:+ base in
   let file_name :=
     if String.prefix "/" value then value else dir +:+ "/" +:+ value in
   yaml_load compose construct_scalar files environ (S depth) name text
   = match files file_name with
     | None =>
         Some (Raise (DevopsError (include_missing_error name file_name)))
     | Some inputfile =>
         yaml_load compose construct_scalar files environ depth
           file_name inputfile
     end) ∧
  yaml_load compose construct_scalar files environ (S depth) base text
  = match files value with
    | None => Some (Raise (DevopsError (include_missing_error base value)))
    | Some inputfile =>
        yaml_load compose construct_scalar files environ depth
          value inputfile
    end.
Proof.
  intros Hb Hc. split.
  - intros Hd He. cbv zeta.
    rewrite (yaml_load_include _ _ _ _ Hc).
    by rewrite dirname_app_sep, join_dir.
  - rewrite (yaml_load_include _ _ _ _ Hc).
    by rewrite dirname_no_sep, join_empty.
Qed.

(** X15. The layout of the [!os_env] directive.  The text up to the
    first comma, stripped of surrounding white space, names the
    variable; all the text after that comma, stripped, is the default,
    further commas included.  A directive with a comma is never taken
    for an empty one: it loads the value of the variable when the
    environment has it and the default otherwise, as a document read
    from a string. *)
Theorem os_env_splits_at_first_comma
    (depth : nat) (name text variable default_val : string) :
  ","%char ∉ String.list_ascii_of_string variable ->
  compose text
  = Ok (Some (ScalarNode "!os_env" (variable +:+ "," +:+ default_val))) ->
  yaml_load compose construct_scalar files environ (S depth) name text
  = yaml_load compose construct_scalar files environ depth
      string_stream_name
      (match environ (strip variable) with
       | Some v => v
       | None => strip default_val
       end).
Proof.
  intros Hvar Hc. rewrite (yaml_load_os_env _ _ _ _ Hc).
  unfold yaml_get_env_variable.
  rewrite decide_False by (by apply strip_keeps).
  change (variable +:+ "," +:+ default_val)
    with (variable +:+ String ","%char default_val).
  rewrite split1_first by done. simpl.
  by destruct (environ (strip variable)).
Qed.

(** X16. The failures of the [!os_env] directive.  A directive whose
    text is empty or white space fails with a [DevopsError] that names
    the tag and the template, whatever the environment holds.  A
    directive without a comma whose variable the environment does not
    have fails with a [DevopsError] that names the variable, stripped of
    surrounding white space, and the template.  Neither loads
    anything: the failure is the same at every nesting depth. *)
Theorem os_env_failures
    (depth : nat) (name text value : string) :
  compose text = Ok (Some (ScalarNode "!os_env" value)) ->
  (strip value = EmptyString ->
   yaml_load compose construct_scalar files environ (S depth) name text
   = Some (Raise (DevopsError (env_required_error "!os_env" name)))) ∧
  (strip value ≠ EmptyString ->
   ","%char ∉ String.list_ascii_of_string value ->
   environ (strip value) = None ->
   yaml_load compose construct_scalar files environ (S depth) name text
   = Some (Raise (DevopsError (env_unset_error (strip value) name)))).
Proof.
  intros Hc. rewrite (yaml_load_os_env _ _ _ _ Hc).
  unfold yaml_get_env_variable. split.
  - intros Hs. by rewrite decide_True.
  - intros Hs Hcomma He. rewrite decide_False by done.
    rewrite split1_none by done. simpl. by rewrite He.
Qed.

(** X17. The value of an environment variable is loaded as a template
    of its own.  When it is an include directive, the file is looked up
    under the path as written (the document read from a string has no
    directory), not beside the template that holds the [!os_env]
    directive, and a missing file is reported against the string
    document. *)
Theorem os_env_value_may_include
    (depth : nat) (name text value v path : string) :
  strip value ≠ EmptyString ->
  environ (strip (split1 ","%char value).1) = Some v ->
  compose text = Ok (Some (ScalarNode "!os_env" value)) ->
  compose v = Ok (Some (ScalarNode "!include" path)) ->
  yaml_load compose construct_scalar files environ (S (S depth)) name text
  = match files path with
    | None =>
        Some (Raise (DevopsError
                       (include_missing_error string_stream_name path)))
    | Some inputfile =>
        yaml_load compose construct_scalar files environ depth
          path inputfile
    end.
Proof.
  intros Hs He Hc Hv. rewrite (yaml_load_os_env _ _ _ _ Hc).
  unfold yaml_get_env_variable. rewrite decide_False by done.
  rewrite He. rewrite (yaml_load_include _ _ _ _ Hv).
  by rewrite (dirname_no_sep string_stream_name), join_empty.
Qed.

End TemplateLoaderMore.

Lemma include_resolved_beside_template_witness :
  yaml_load compose_line construct_str nested_files env_unset 2
    "templates/default.yaml" "!include parts/nodes.yaml"
  = Some (Ok (ObjScalar "slave")).
Proof.
  destruct (include_resolved_beside_template
              compose_line construct_str nested_files env_unset
              1 "templates" "default.yaml" "!include parts/nodes.yaml"
              "parts/nodes.yaml" eq_refl eq_refl) as [H _].
  exact (H ltac:(discriminate) eq_refl).
Defined.

Lemma os_env_splits_at_first_comma_witness :
  yaml_load compose_line construct_str nested_files env_unset 2
    "templates/default.yaml" "!os_env POOLS , 10.109.0.0/16,24 "
  = Some (Ok (ObjScalar "10.109.0.0/16,24")).
Proof.
  refine (os_env_splits_at_first_comma
            compose_line construct_str nested_files env_unset
            1 "templates/default.yaml"
            "!os_env POOLS , 10.109.0.0/16,24 "
            "POOLS " " 10.109.0.0/16,24 " _ eq_refl).
  simpl. rewrite !elem_of_cons, elem_of_nil.
  intros [|[|[|[|[|[|[]]]]]]]; discriminate.
Defined.

Lemma os_env_failures_witness :
  yaml_load compose_line construct_str nested_files env_foo_baz 1
    "templates/default.yaml" "!os_env  "
  = Some (Raise (DevopsError
                   (env_required_error "!os_env"
                      "templates/default.yaml"))).
Proof.
  exact (proj1 (os_env_failures
                  compose_line construct_str nested_files env_foo_baz
                  0 "templates/default.yaml" "!os_env  " " " eq_refl)
               eq_refl).
Defined.

Lemma os_env_value_may_include_witness :
  yaml_load compose_line construct_str nested_files
    (fun name => if decide (name = "NODES")
                 then Some "!include parts/nodes.yaml" else None)
    3 "templates/default.yaml" "!os_env NODES"
  = Some (Raise (DevopsError
                   (include_missing_error string_stream_name
                      "parts/nodes.yaml"))).
Proof.
  exact (os_env_value_may_include
           compose_line construct_str nested_files
           (fun name => if decide (name = "NODES")
                        then Some "!include parts/nodes.yaml" else None)
           1 "templates/default.yaml" "!os_env NODES" "NODES"
           "!include parts/nodes.yaml" "parts/nodes.yaml"
           ltac:(discriminate) eq_refl eq_refl eq_refl).
Defined.

(** * devops.helpers.helpers *)

Section FreePortProofs.

Variable tcp_ping : string -> Z -> bool.

Lemma probe_ports_seqZ (first : Z) (count : nat) :
  (∀ port,
     probe_ports tcp_ping (seqZ first (Z.of_nat count)) = Ok port <->
     first <= port < first + Z.of_nat count ∧
     tcp_ping "localhost" port = false ∧
     ∀ q, first <= q < port -> tcp_ping "localhost" q = true) ∧
  (∀ e,
     probe_ports tcp_ping (seqZ first (Z.of_nat count)) = Raise e <->
     e = DevopsError "No free ports available" ∧
     ∀ q, first <= q < first + Z.of_nat count ->
          tcp_ping "localhost" q = true).
Proof.
  revert first. induction count as [|count IH]; intros first.
  - simpl. split.
    + intros port. split; [done|]. lia.
    + intros e. split.
      * intros [= <-]. split; [done|]. lia.
      * by intros [-> _].
  - rewrite Nat2Z.inj_succ, seqZ_cons by lia.
    rewrite Z.pred_succ. simpl.
    destruct (IH (Z.succ first)) as [IHok IHerr].
    destruct (tcp_ping "localhost" first) eqn:Hfirst; simpl.
    + split.
      * intros port. rewrite IHok. split.
        -- intros (Hr & Hfree & Hbusy). split; [lia|]. split; [done|].
           intros q Hq. destruct (decide (q = first)) as [->|Hne];
             [done|apply Hbusy; lia].
        -- intros (Hr & Hfree & Hbusy).
           assert (port ≠ first) by congruence.
           split; [lia|]. split; [done|]. intros q Hq. apply Hbusy. lia.
      * intros e. rewrite IHerr. split.
        -- intros [-> Hbusy]. split; [done|]. intros q Hq.
           destruct (decide (q = first)) as [->|Hne];
             [done|apply Hbusy; lia].
        -- intros [-> Hbusy]. split; [done|]. intros q Hq.
           apply Hbusy. lia.
    + split.
      * intros port. split.
        -- intros [= <-]. split; [lia|]. split; [done|]. lia.
        -- intros (Hr & Hfree & Hbusy).
           destruct (decide (port = first)) as [->|Hne]; [done|].
           rewrite Hbusy in Hfirst by lia. done.
      * intros e. split; [done|]. intros [_ Hbusy].
        rewrite Hbusy in Hfirst by lia. done.
Qed.

End FreePortProofs.

(** X18. [get_free_port] returns the lowest port from 32000 to 32099
    that does not answer a TCP probe on localhost, and nothing else: a
    port is returned exactly when it lies in that range, does not
    answer, and every port of the range below it answers.  The call
    fails exactly when all hundred ports answer, and then with the
    [DevopsError] ["No free ports available"]. *)
Theorem get_free_port_lowest_free (tcp_ping : string -> Z -> bool) :
  (∀ port,
     get_free_port tcp_ping = Ok port <->
     32000 <= port < 32100 ∧
     tcp_ping "localhost" port = false ∧
     ∀ q, 32000 <= q < port -> tcp_ping "localhost" q = true) ∧
  (∀ e,
     get_free_port tcp_ping = Raise e <->
     e = DevopsError "No free ports available" ∧
     ∀ q, 32000 <= q < 32100 -> tcp_ping "localhost" q = true).
Proof.
  exact (probe_ports_seqZ tcp_ping 32000 100).
Qed.

Section MacProofs.

Lemma hex_value_digit (n : N) :
  (n < 16)%N -> hex_value (hex_digit n) = Some n.
Proof.
  intros Hn.
  assert (n = 0 ∨ n = 1 ∨ n = 2 ∨ n = 3 ∨ n = 4 ∨ n = 5 ∨ n = 6 ∨ n = 7
          ∨ n = 8 ∨ n = 9 ∨ n = 10 ∨ n = 11 ∨ n = 12 ∨ n = 13 ∨ n = 14
          ∨ n = 15)%N as H by lia.
  by repeat (destruct H as [->|H]; [done|]); subst.
Qed.

Lemma octets_of_format_02x (b : Byte.byte) (rest : string) :
  octets_of_mac (format_02x b +:+ rest)
  = match rest with
    | EmptyString => Some [Byte.to_N b]
    | String c rest' =>
        if Ascii.eqb c ":"%char
        then cons (Byte.to_N b) <$> octets_of_mac rest'
        else None
    end.
Proof.
  unfold format_02x.
  change (String ?a (String ?b EmptyString) +:+ rest)
    with (String a (String b rest)).
  pose proof (Byte.to_N_bounded b) as Hb.
  cbn [octets_of_mac].
  rewrite !hex_value_digit;
    [|apply N.mod_lt; lia|apply N.Div0.div_lt_upper_bound; lia].
  replace (16 * (Byte.to_N b `div` 16) + Byte.to_N b `mod` 16)%N
    with (Byte.to_N b) by (apply N.div_mod; lia).
  done.
Qed.

Lemma octets_of_mac_cons (b : Byte.byte) (rest : string) :
  octets_of_mac (format_02x b +:+ ":" +:+ rest)
  = cons (Byte.to_N b) <$> octets_of_mac rest.
Proof.
  change (":" +:+ rest) with (String ":"%char rest).
  by rewrite octets_of_format_02x.
Qed.

Lemma octets_of_mac_last (b : Byte.byte) :
  octets_of_mac (format_02x b) = Some [Byte.to_N b].
Proof.
  rewrite <- (string_app_nil_r (format_02x b)).
  by rewrite octets_of_format_02x.
Qed.

Lemma format_02x_length (b : Byte.byte) :
  String.length (format_02x b) = 2%nat.
Proof. done. Qed.

Lemma to_N_inj : Inj (=) (=) Byte.to_N.
Proof.
  intros a b E. apply (f_equal Byte.of_N) in E.
  rewrite !Byte.of_to_N in E. by injection E.
Qed.

End MacProofs.

(** X19. Given the five bytes of [os.urandom(5)], [generate_mac]
    returns an address of 17 characters: six octets written as two
    lowercase hexadecimal digits each, with [":"] between them, the
    first octet being 0x64 and the other five the random bytes in
    order.  So two calls return the same address only when they drew
    the same bytes. *)
Theorem generate_mac_octets (urandom : nat -> list Byte.byte) :
  length (urandom 5%nat) = 5%nat ->
  ∃ mac,
    generate_mac urandom = Ok mac ∧
    String.length mac = 17%nat ∧
    octets_of_mac mac = Some (100%N :: (Byte.to_N <$> urandom 5%nat)) ∧
    ∀ urandom',
      length (urandom' 5%nat) = 5%nat ->
      generate_mac urandom' = Ok mac -> urandom' 5%nat = urandom 5%nat.
Proof.
  assert (∀ u : nat -> list Byte.byte,
            length (u 5%nat) = 5%nat ->
            ∃ mac, generate_mac u = Ok mac ∧
                   String.length mac = 17%nat ∧
                   octets_of_mac mac
                   = Some (100%N :: (Byte.to_N <$> u 5%nat))) as Hgen.
  { intros u Hu. unfold generate_mac.
    destruct (u 5%nat) as [|b0 [|b1 [|b2 [|b3 [|b4 [|b5 l]]]]]];
      try done.
    eexists. split; [done|]. split.
    - rewrite !string_app_length, !format_02x_length. done.
    - match goal with
      | |- octets_of_mac ("64:" +:+ ?s) = _ =>
          change (octets_of_mac ("64:" +:+ s))
            with (cons 100%N <$> octets_of_mac s)
      end.
      by rewrite !octets_of_mac_cons, octets_of_mac_last. }
  intros Hu. destruct (Hgen urandom Hu) as (mac & Hmac & Hlen & Hoct).
  exists mac. split; [done|]. split; [done|]. split; [done|].
  intros urandom' Hu' Hmac'.
  destruct (Hgen urandom' Hu') as (mac' & Hmac2 & _ & Hoct').
  rewrite Hmac' in Hmac2. injection Hmac2 as <-.
  rewrite Hoct in Hoct'. injection Hoct' as E.
  pose proof to_N_inj as Hinj. by apply (inj (fmap Byte.to_N)) in E.
Qed.

Lemma generate_mac_octets_witness :
  ∃ mac,
    generate_mac
      (fun _ => [Byte.x00; Byte.x0f; Byte.x10; Byte.xa5; Byte.xff])
    = Ok mac ∧
    String.length mac = 17%nat ∧
    octets_of_mac mac = Some [100; 0; 15; 16; 165; 255]%N.
Proof.
  destruct (generate_mac_octets
              (fun _ => [Byte.x00; Byte.x0f; Byte.x10; Byte.xa5; Byte.xff])
              eq_refl) as (mac & H & Hlen & Hoct & _).
  exists mac. split; [exact H|]. split; [exact Hlen|exact Hoct].
Defined.

Section UnderscoredProofs.

Lemma join_nonempty (sep : string) (l : list string) :
  Forall (fun s => s ≠ EmptyString) l ->
  join sep l = EmptyString -> l = [].
Proof.
  intros Hl. destruct Hl as [|x l Hx _]; [done|].
  destruct x as [|c x]; [done|]. unfold join. simpl. by destruct l.
Qed.

Lemma join_cons (sep x : string) (l : list string) :
  l ≠ [] -> join sep (x :: l) = x +:+ sep +:+ join sep l.
Proof. by destruct l. Qed.

Lemma filter_nonempty_Forall (args : list string) :
  Forall (fun s => s ≠ EmptyString)
         (filter (fun s => s ≠ EmptyString) args).
Proof. apply Forall_forall. by intros s [? _]%list_elem_of_filter. Qed.

Lemma underscored_empty (args : list string) :
  underscored args = EmptyString <->
  Forall (fun s => s = EmptyString) args.
Proof.
  unfold underscored. split.
  - intros H. apply join_nonempty in H; [|apply filter_nonempty_Forall].
    apply Forall_forall. intros s Hs.
    destruct (decide (s = EmptyString)) as [|Hne]; [done|].
    assert (s ∈ filter (fun s => s ≠ EmptyString) args) as Hin
      by (by apply list_elem_of_filter).
    rewrite H in Hin. by apply elem_of_nil in Hin.
  - intros H. induction H as [|s args -> _ IH]; [done|].
    by rewrite filter_cons_False by (by intros ?).
Qed.

End UnderscoredProofs.

(** X20. [underscored] skips empty strings wherever they stand, and puts
    one underscore between the strings it keeps: a string that is not
    empty, put in front, is followed by an underscore exactly when the
    rest gives something.  The result is empty only when every argument
    is empty. *)
Theorem underscored_skips_empty (before after : list string) (s : string) :
  underscored (before ++ EmptyString :: after) = underscored (before ++ after) ∧
  (s ≠ EmptyString ->
   underscored (s :: after)
   = if decide (underscored after = EmptyString) then s
     else s +:+ "_" +:+ underscored after) ∧
  (underscored after = EmptyString <->
   Forall (fun s => s = EmptyString) after).
Proof.
  split; [|split].
  - unfold underscored. rewrite !filter_app.
    by rewrite filter_cons_False by (by intros ?).
  - intros Hs. case_decide as He.
    + apply underscored_empty in He. unfold underscored.
      rewrite filter_cons_True by done.
      replace (filter (fun s => s ≠ EmptyString) after) with (@nil string);
        [done|].
      symmetry. induction He as [|x l -> _ IH]; [done|].
      by rewrite filter_cons_False by (by intros ?).
    + unfold underscored in *. rewrite filter_cons_True by done.
      apply join_cons. by intros E; rewrite E in He.
  - apply underscored_empty.
Qed.

Lemma underscored_skips_empty_witness :
  underscored (["env"] ++ EmptyString :: ["admin"]) = "env_admin".
Proof.
  rewrite (proj1 (underscored_skips_empty ["env"] ["admin"] "env")).
  reflexivity.
Defined.

Section DeepGetAttrProofs.

Context {object : Type}.
Variable getattr : object -> string -> result object.

Lemma split_nonempty (sep : ascii) (a : string) : split sep a ≠ [].
Proof.
  destruct a as [|c a]; [done|]. simpl.
  destruct (Ascii.eqb c sep); [done|]. by destruct (split sep a).
Qed.

Lemma split_app (sep : ascii) (a b : string) :
  split sep (a +:+ String sep b) = (split sep a ++ split sep b)%list.
Proof.
  induction a as [|c a IH].
  - change (split sep (String sep b)
            = (EmptyString :: split sep b)%list).
    simpl. by rewrite Ascii.eqb_refl.
  - change (split sep (String c (a +:+ String sep b))
            = (split sep (String c a) ++ split sep b)%list).
    simpl. rewrite IH. destruct (Ascii.eqb c sep); [done|].
    pose proof (split_nonempty sep a). by destruct (split sep a).
Qed.

Lemma split_single (sep : ascii) (a : string) :
  sep ∉ String.list_ascii_of_string a -> split sep a = [a].
Proof.
  induction a as [|c a IH]; [done|]. simpl.
  intros [Hc Ha]%not_elem_of_cons.
  destruct (Ascii.eqb_spec c sep) as [->|_]; [done|].
  by rewrite IH.
Qed.

Lemma for_each_app {A S} (body : S -> A -> result S) (s : S)
    (l1 l2 : list A) :
  for_each body s (l1 ++ l2)
  = (s' ← for_each body s l1; for_each body s' l2).
Proof.
  revert s. induction l1 as [|x l1 IH]; intros s; [done|].
  simpl. destruct (body s x); [apply IH|done].
Qed.

Lemma deepgetattr_raising (obj default : object) (attr : string)
    (splitter : ascii) :
  deepgetattr getattr obj attr default splitter true
  = for_each getattr obj (split splitter attr).
Proof.
  unfold deepgetattr.
  by destruct (for_each getattr obj (split splitter attr)) as [?|[]].
Qed.

End DeepGetAttrProofs.

(** X21. [deepgetattr] follows the attribute chain from left to right.
    A name without the splitter is the attribute itself.  When the
    chain [a] leads to an object, the chain [a.b] is the chain [b] from
    that object; when [a] fails, [a.b] fails the same way and [b] is not
    looked at.  Unless [do_raise] is set, an [AttributeError] anywhere
    in the chain gives the default and the call never raises
    [AttributeError]; any other exception of [getattr] is passed on
    with or without [do_raise]. *)
Theorem deepgetattr_follows_chain {object : Type}
    (getattr : object -> string -> result object)
    (obj default : object) (a b : string) (splitter : ascii)
    (do_raise : bool) :
  (splitter ∉ String.list_ascii_of_string a ->
   deepgetattr getattr obj a default splitter true = getattr obj a) ∧
  (∀ mid,
     deepgetattr getattr obj a default splitter true = Ok mid ->
     deepgetattr getattr obj (a +:+ String splitter b) default splitter
       do_raise
     = deepgetattr getattr mid b default splitter do_raise) ∧
  (∀ e,
     deepgetattr getattr obj a default splitter true = Raise e ->
     deepgetattr getattr obj (a +:+ String splitter b) default splitter
       true = Raise e) ∧
  deepgetattr getattr obj a default splitter false ≠ Raise AttributeError ∧
  (deepgetattr getattr obj a default splitter true = Raise AttributeError ->
   deepgetattr getattr obj a default splitter false = Ok default) ∧
  (∀ e,
     e ≠ AttributeError ->
     deepgetattr getattr obj a default splitter true = Raise e ->
     deepgetattr getattr obj a default splitter false = Raise e).
Proof.
  rewrite !deepgetattr_raising. repeat split.
  - intros Ha. rewrite split_single by done. simpl.
    by destruct (getattr obj a).
  - intros mid Hmid. unfold deepgetattr.
    by rewrite split_app, for_each_app, Hmid.
  - intros e He. by rewrite split_app, for_each_app, He.
  - unfold deepgetattr.
    by destruct (for_each getattr obj (split splitter a)) as [?|[]].
  - intros He. unfold deepgetattr. by rewrite He.
  - intros e Hne He. unfold deepgetattr. rewrite He. by destruct e.
Qed.

(** * devops.client.client *)

Section ClientProofs.

Lemma or_getitem_given (a : option Z) (d : gmap string Z) (k : string) :
  or_getitem (given a) d k = or_getitem a d k.
Proof.
  destruct a as [n|]; [|done]. simpl.
  destruct (truthy n) eqn:E; simpl; by rewrite ?E.
Qed.

Lemma or_else_given (a : option Z) (b : Z) :
  or_else (given a) b = or_else a b.
Proof.
  destruct a as [n|]; [|done]. simpl.
  destruct (truthy n) eqn:E; simpl; by rewrite ?E.
Qed.

Lemma or_string_given (a : option string) (b : string) :
  or_string (given_string a) b = or_string a b.
Proof. by destruct a as [[|c s]|]. Qed.

Lemma or_pool_given (a : option (list string))
    (d : gmap string (list string)) (k : string) :
  or_pool (given_pool a) d k = or_pool a d k.
Proof. by destruct a as [[|x l]|]. Qed.

Lemma truthy_or_else (a : option Z) (b : Z) :
  b ≠ 0 -> truthy (or_else a b) = true.
Proof.
  intros Hb. unfold or_else.
  assert (truthy b = true) as Hb'.
  { unfold truthy. by destruct (Z.eqb_spec b 0). }
  destruct a as [n|]; [|done]. by destruct (truthy n) eqn:E.
Qed.

Lemma slave_volumes_both (capacity second third : Z) (use_all_disks : bool)
    (multipath_count : Z) :
  truthy second = true -> truthy third = true ->
  slave_volumes capacity (Some second) (Some third) use_all_disks
    multipath_count
  = [ slave_volume "system" capacity (Some multipath_count);
      slave_volume "cinder" second (Some multipath_count);
      slave_volume "swift" third None ].
Proof.
  intros H2 H3. unfold slave_volumes, or_else. rewrite H2, H3.
  by destruct use_all_disks.
Qed.

Lemma slave_node_volumes (a : Args.t) (l2_interfaceorder : list string)
    (numbers : list Z) (slaves : list Node.t) :
  mapM (slave_node a l2_interfaceorder) numbers = Ok slaves ->
  Forall (fun node =>
            Node.volumes (Node.params node)
            = slave_volumes (Args.slave_volume_capacity a)
                (Args.second_volume_capacity a)
                (Args.third_volume_capacity a)
                (Args.use_all_disks a) (Args.multipath_count a)) slaves.
Proof.
  rewrite mapM_Ok_Forall2.
  induction 1 as [|n node numbers slaves Hnode _ IH]; [done|].
  constructor; [|done]. unfold slave_node in Hnode.
  by apply create_slave_config_Ok in Hnode
    as (_ & _ & _ & _ & _ & _ & _ & _ & Hv).
Qed.

Lemma create_env_arguments_Ok (s : settings.t)
    (boot_from : string) (env_name admin_iso_path : option string)
    (admin_vcpu admin_memory admin_sysvolume_capacity nodes_count
     slave_vcpu slave_memory second_volume_capacity
     third_volume_capacity : option Z)
    (net_pool : option (list string)) (a : Args.t) :
  create_env_arguments s boot_from env_name admin_iso_path admin_vcpu
    admin_memory admin_sysvolume_capacity nodes_count slave_vcpu
    slave_memory second_volume_capacity third_volume_capacity net_pool
  = Ok a ->
  (∃ admin public management private storage,
     or_pool net_pool (settings.POOLS s) "admin" = Ok admin ∧
     or_pool net_pool (settings.POOLS s) "public" = Ok public ∧
     or_pool net_pool (settings.POOLS s) "management" = Ok management ∧
     or_pool net_pool (settings.POOLS s) "private" = Ok private ∧
     or_pool net_pool (settings.POOLS s) "storage" = Ok storage ∧
     Args.networks_pools a
     = <["storage" := storage]>
         (<["private" := private]>
            (<["management" := management]>
               (<["public" := public]> (<["admin" := admin]> ∅))))) ∧
  Args.networks_interfaceorder a = settings.INTERFACE_ORDER s ∧
  Args.networks_bonding a = settings.BONDING s ∧
  Args.networks_bondinginterfaces a = settings.BONDING_INTERFACES s ∧
  Args.slave_volume_capacity a = settings.NODE_VOLUME_SIZE s ∧
  Args.second_volume_capacity a
  = Some (or_else second_volume_capacity (settings.NODE_VOLUME_SIZE s)) ∧
  Args.third_volume_capacity a
  = Some (or_else third_volume_capacity (settings.NODE_VOLUME_SIZE s)) ∧
  Args.use_all_disks a = settings.USE_ALL_DISKS s ∧
  Args.multipath_count a = settings.SLAVE_MULTIPATH_DISKS_COUNT s.
Proof.
  unfold create_env_arguments. intros H.
  destruct (or_getitem admin_vcpu _ _); [|done]. simpl in H.
  destruct (or_getitem admin_memory _ _); [|done]. simpl in H.
  destruct (getitem (settings.HARDWARE s) _); [|done]. simpl in H.
  destruct (or_getitem slave_vcpu _ _); [|done]. simpl in H.
  destruct (or_getitem slave_memory _ _); [|done]. simpl in H.
  destruct (or_pool net_pool _ "admin") as [p1|]; [|done]. simpl in H.
  destruct (or_pool net_pool _ "public") as [p2|]; [|done]. simpl in H.
  destruct (or_pool net_pool _ "management") as [p3|]; [|done].
  simpl in H.
  destruct (or_pool net_pool _ "private") as [p4|]; [|done]. simpl in H.
  destruct (or_pool net_pool _ "storage") as [p5|]; [|done]. simpl in H.
  destruct (getitem (settings.DRIVER_PARAMETERS s) _); [|done].
  injection H as <-. simpl. split; [|done].
  by exists p1, p2, p3, p4, p5.
Qed.

Lemma client_pools_lookup (admin public management private storage
    : list string) (name : string) (subnets : list string) :
  (<["storage" := storage]>
     (<["private" := private]>
        (<["management" := management]>
           (<["public" := public]>
              (<["admin" := admin]> (∅ : gmap string (list string)))))))
    !! name = Some subnets ->
  name ∈ client_networks ∧
  subnets ∈ [admin; public; management; private; storage].
Proof.
  unfold client_networks. rewrite !lookup_insert_Some, lookup_empty.
  rewrite !elem_of_cons.
  intros [[<- <-]|[_ [[<- <-]|[_ [[<- <-]|[_ [[<- <-]|[_ [[<- <-]|[_ ?]]]]]]]]]];
    [split; auto 10..|done].
Qed.

Lemma client_pools_is_Some (admin public management private storage
    : list string) (name : string) :
  name ∈ client_networks ->
  is_Some ((<["storage" := storage]>
              (<["private" := private]>
                 (<["management" := management]>
                    (<["public" := public]>
                       (<["admin" := admin]>
                          (∅ : gmap string (list string)))))))
             !! name).
Proof.
  unfold client_networks. rewrite !elem_of_cons, elem_of_nil.
  intros [->|[->|[->|[->|[->|[]]]]]]; by eexists.
Qed.

Lemma create_address_pools_net (interfaceorder : list string)
    (networks_pools : gmap string (list string))
    (address_pools : gmap string AddressPool.t) (name : string) :
  create_address_pools interfaceorder networks_pools = Ok address_pools ->
  name ∈ interfaceorder ->
  ∃ subnets pool,
    networks_pools !! name = Some subnets ∧
    address_pools !! name = Some pool ∧
    AddressPool.net pool = join ":" subnets.
Proof.
  rewrite create_address_pools_unfold. intros H Hname.
  destruct (initial_pools interfaceorder networks_pools) as [l|e] eqn:E;
    [|done].
  simpl in H.
  destruct (initial_pools_lookup _ _ _ _ E Hname) as (subnets & Hs & Hd).
  apply for_each_overrides_inv in H as [_ Hlook];
    [|apply keys_NoDup|apply keys_is_Some].
  exists subnets. eexists. split; [done|]. split.
  { rewrite Hlook, decide_True, Hd; [done|].
    apply elem_of_keys_dict_of. apply initial_pools_Ok in E as [-> _].
    done. }
  unfold overridden.
  by destruct (contains "private" name), (contains "public" name).
Qed.

Lemma create_address_pools_first_missing (before after : list string)
    (name : string) (networks_pools : gmap string (list string)) :
  Forall (fun iname => is_Some (networks_pools !! iname)) before ->
  networks_pools !! name = None ->
  create_address_pools (before ++ name :: after) networks_pools
  = Raise (KeyError name).
Proof.
  intros Hbefore Hname. rewrite create_address_pools_unfold.
  unfold initial_pools.
  rewrite (mapM_Raise_first _ before after name (KeyError name)); [done| |].
  - eapply Forall_impl; [exact Hbefore|]. intros k [v Hv]. simpl.
    unfold getitem. rewrite Hv. simpl. eauto.
  - unfold getitem. by rewrite Hname.
Qed.

End ClientProofs.

(** X22. [create_env] reads an argument that is zero, the empty string
    or the empty list as an argument that was not given: the
    configuration (or the failure) is the one of the call without it.
    So a count of zero nodes or a second volume of size zero cannot be
    asked for; the setting is used instead. *)
Theorem create_env_reads_falsy_as_missing (s : settings.t)
    (boot_from : string) (env_name admin_iso_path : option string)
    (admin_vcpu admin_memory admin_sysvolume_capacity nodes_count
     slave_vcpu slave_memory second_volume_capacity
     third_volume_capacity : option Z)
    (net_pool : option (list string)) :
  create_env s boot_from env_name admin_iso_path admin_vcpu admin_memory
    admin_sysvolume_capacity nodes_count slave_vcpu slave_memory
    second_volume_capacity third_volume_capacity net_pool
  = create_env s boot_from (given_string env_name)
      (given_string admin_iso_path) (given admin_vcpu)
      (given admin_memory) (given admin_sysvolume_capacity)
      (given nodes_count) (given slave_vcpu) (given slave_memory)
      (given second_volume_capacity) (given third_volume_capacity)
      (given_pool net_pool).
Proof.
  unfold create_env, create_env_arguments.
  by rewrite !or_getitem_given, !or_else_given, !or_string_given,
    !or_pool_given.
Qed.

(** X23. Through [create_env], every slave gets the three volumes
    system, cinder and swift whenever the setting [NODE_VOLUME_SIZE] is
    not zero, whether [USE_ALL_DISKS] is set or not and whatever is
    passed for the second and third capacity: a capacity that is not
    given is replaced by the setting before the assembler sees it. *)
Theorem create_env_slaves_have_three_volumes (s : settings.t)
    (boot_from : string) (env_name admin_iso_path : option string)
    (admin_vcpu admin_memory admin_sysvolume_capacity nodes_count
     slave_vcpu slave_memory second_volume_capacity
     third_volume_capacity : option Z)
    (net_pool : option (list string)) (config : DevopsSettings.t) :
  settings.NODE_VOLUME_SIZE s ≠ 0 ->
  create_env s boot_from env_name admin_iso_path admin_vcpu admin_memory
    admin_sysvolume_capacity nodes_count slave_vcpu slave_memory
    second_volume_capacity third_volume_capacity net_pool = Ok config ->
  ∃ group,
    DevopsSettings.groups config = [group] ∧
    ∀ node,
      node ∈ Group.nodes group -> Node.role node = "fuel_slave" ->
      Node.volumes (Node.params node)
      = [ slave_volume "system" (settings.NODE_VOLUME_SIZE s)
            (Some (settings.SLAVE_MULTIPATH_DISKS_COUNT s));
          slave_volume "cinder"
            (or_else second_volume_capacity (settings.NODE_VOLUME_SIZE s))
            (Some (settings.SLAVE_MULTIPATH_DISKS_COUNT s));
          slave_volume "swift"
            (or_else third_volume_capacity (settings.NODE_VOLUME_SIZE s))
            None ].
Proof.
  intros Hsize H. unfold create_env in H.
  destruct (create_env_arguments _ _ _ _ _ _ _ _ _ _ _ _ _) as [a|e] eqn:Ea;
    [|done].
  simpl in H.
  apply create_env_arguments_Ok in Ea
    as (_ & _ & _ & _ & Hc & H2 & H3 & Hu & Hm).
  apply create_devops_config_Ok in H
    as (l2 & devices & admin & slaves & ironics & group
        & _ & _ & _ & Hadmin & Hslaves & Hironics & Hg & _ & _ & Hnodes).
  exists group. split; [done|]. intros node Hnode Hrole.
  rewrite Hnodes in Hnode.
  apply elem_of_cons in Hnode as [->|Hnode];
    [|apply elem_of_app in Hnode as [Hnode|Hnode]].
  - apply create_admin_config_Ok in Hadmin
      as (_ & _ & _ & _ & _ & _ & Hr & _).
    by rewrite Hr in Hrole.
  - apply slave_node_volumes in Hslaves.
    rewrite Forall_forall in Hslaves. rewrite (Hslaves _ Hnode).
    rewrite Hc, H2, H3, Hu, Hm.
    apply slave_volumes_both; by apply truthy_or_else.
  - apply ironic_names in Hironics as [_ Hall].
    rewrite Forall_forall in Hall. destruct (Hall _ Hnode) as [Hr _].
    by rewrite Hr in Hrole.
Qed.

Lemma create_env_slaves_have_three_volumes_witness :
  ∃ config group,
    create_env (example_settings ["admin"; "public"]) "cdrom" None None
      None None None None None None (Some 0) None None = Ok config ∧
    DevopsSettings.groups config = [group] ∧
    ∀ node,
      node ∈ Group.nodes group -> Node.role node = "fuel_slave" ->
      Volume.name <$> Node.volumes (Node.params node)
      = ["system"; "cinder"; "swift"].
Proof.
  destruct (create_env (example_settings ["admin"; "public"]) "cdrom"
              None None None None None None None None (Some 0) None None)
    as [config|e] eqn:E; [|by vm_compute in E].
  destruct (create_env_slaves_have_three_volumes
              (example_settings ["admin"; "public"]) "cdrom"
              None None None None None None None None (Some 0) None None
              config ltac:(discriminate) E) as (group & Hg & Hv).
  exists config, group. split; [reflexivity|]. split; [exact Hg|].
  intros node Hnode Hrole. rewrite (Hv node Hnode Hrole). reflexivity.
Defined.

(** X24. A [net_pool] passed to [create_env] is the pool of every
    network: in the configuration, each network of the interface
    ordering is one of admin, public, management, private and storage,
    and its address pool has the subnets of [net_pool], joined by
    [":"], for its [net]; the pools of the settings are not read. *)
Theorem create_env_net_pool_for_every_network (s : settings.t)
    (boot_from : string) (env_name admin_iso_path : option string)
    (admin_vcpu admin_memory admin_sysvolume_capacity nodes_count
     slave_vcpu slave_memory second_volume_capacity
     third_volume_capacity : option Z)
    (subnet : string) (subnets : list string)
    (config : DevopsSettings.t) :
  create_env s boot_from env_name admin_iso_path admin_vcpu admin_memory
    admin_sysvolume_capacity nodes_count slave_vcpu slave_memory
    second_volume_capacity third_volume_capacity
    (Some (subnet :: subnets)) = Ok config ->
  ∀ name,
    name ∈ settings.INTERFACE_ORDER s ->
    name ∈ client_networks ∧
    ∃ pool,
      DevopsSettings.address_pools config !! name = Some pool ∧
      AddressPool.net pool = join ":" (subnet :: subnets).
Proof.
  intros H name Hname. unfold create_env in H.
  destruct (create_env_arguments _ _ _ _ _ _ _ _ _ _ _ _ _) as [a|e] eqn:Ea;
    [|done].
  simpl in H.
  apply create_env_arguments_Ok in Ea
    as ((p1 & p2 & p3 & p4 & p5 & [= <-] & [= <-] & [= <-] & [= <-]
         & [= <-] & Hpools) & Horder & _).
  apply create_devops_config_Ok in H
    as (l2 & devices & admin & slaves & ironics & group
        & _ & Haps & _).
  rewrite Horder in Haps.
  destruct (create_address_pools_net _ _ _ name Haps Hname)
    as (subnets' & pool & Hs & Hp & Hnet).
  rewrite Hpools in Hs. apply client_pools_lookup in Hs as [Hin Hsub].
  split; [done|]. exists pool. split; [done|]. rewrite Hnet.
  rewrite !elem_of_cons, elem_of_nil in Hsub.
  by destruct Hsub as [->|[->|[->|[->|[->|[]]]]]].
Qed.

Lemma create_env_net_pool_for_every_network_witness :
  ∃ config pool,
    create_env (example_settings ["admin"; "storage"]) "cdrom" None None
      None None None None None None None None
      (Some ["10.200.0.0/16"; "24"]) = Ok config ∧
    DevopsSettings.address_pools config !! "storage" = Some pool ∧
    AddressPool.net pool = "10.200.0.0/16:24".
Proof.
  destruct (create_env (example_settings ["admin"; "storage"]) "cdrom"
              None None None None None None None None None None
              (Some ["10.200.0.0/16"; "24"]))
    as [config|e] eqn:E; [|by vm_compute in E].
  destruct (create_env_net_pool_for_every_network
              (example_settings ["admin"; "storage"]) "cdrom"
              None None None None None None None None None None
              "10.200.0.0/16" ["24"] config E "storage")
    as (_ & pool & Hp & Hnet).
  - apply list_elem_of_further, list_elem_of_here.
  - exists config, pool. split; [reflexivity|]. split; [exact Hp|].
    exact Hnet.
Defined.

(** X25. [create_env] gives pools to five networks only.  When the
    settings the method reads are there and the interface ordering
    lists a network that is none of admin, public, management, private
    and storage, the call fails with [KeyError] on the first such
    network, also when the pools of the settings have an entry for
    it. *)
Theorem create_env_unknown_network (s : settings.t)
    (boot_from : string) (env_name admin_iso_path : option string)
    (admin_vcpu admin_memory admin_sysvolume_capacity nodes_count
     slave_vcpu slave_memory second_volume_capacity
     third_volume_capacity : option Z)
    (net_pool : option (list string)) (a : Args.t)
    (before after : list string) (name : string) :
  create_env_arguments s boot_from env_name admin_iso_path admin_vcpu
    admin_memory admin_sysvolume_capacity nodes_count slave_vcpu
    slave_memory second_volume_capacity third_volume_capacity net_pool
  = Ok a ->
  (settings.BONDING s = true -> is_Some (settings.BONDING_INTERFACES s)) ->
  settings.INTERFACE_ORDER s = (before ++ name :: after)%list ->
  Forall (fun iname => iname ∈ client_networks) before ->
  name ∉ client_networks ->
  create_env s boot_from env_name admin_iso_path admin_vcpu admin_memory
    admin_sysvolume_capacity nodes_count slave_vcpu slave_memory
    second_volume_capacity third_volume_capacity net_pool
  = Raise (KeyError name).
Proof.
  intros Ha Hbond Horder Hbefore Hname. unfold create_env. rewrite Ha.
  simpl.
  apply create_env_arguments_Ok in Ha
    as ((p1 & p2 & p3 & p4 & p5 & _ & _ & _ & _ & _ & Hpools)
        & Ho & Hb & Hbi & _).
  unfold create_devops_config. rewrite Hb, Hbi, Ho, Horder, Hpools.
  rewrite create_address_pools_first_missing.
  - destruct (settings.BONDING s); [|done].
    by destruct (Hbond eq_refl) as [d ->].
  - eapply Forall_impl; [exact Hbefore|]. intros k Hk.
    by apply client_pools_is_Some.
  - apply eq_None_not_Some. intros [v Hv].
    by apply client_pools_lookup in Hv as [Hin _].
Qed.

Lemma create_env_unknown_network_witness :
  create_env (example_settings ["admin"; "ironic"; "public"]) "cdrom"
    None None None None None None None None None None None
  = Raise (KeyError "ironic").
Proof.
  destruct (create_env_arguments
              (example_settings ["admin"; "ironic"; "public"]) "cdrom"
              None None None None None None None None None None None)
    as [a|e] eqn:E; [|by vm_compute in E].
  apply (create_env_unknown_network
           (example_settings ["admin"; "ironic"; "public"]) "cdrom"
           None None None None None None None None None None None
           a ["admin"] ["public"] "ironic" E).
  - discriminate.
  - reflexivity.
  - apply Forall_cons_2; [|apply Forall_nil_2].
    apply list_elem_of_here.
  - unfold client_networks. rewrite !elem_of_cons, elem_of_nil.
    intros [|[|[|[|[|[]]]]]]; discriminate.
Defined.

(** ** Templates without directives, nesting depth and the default
    templates *)

Section NodeInduction.

(** Induction on a node graph, with the hypothesis for every item of a
    sequence and for every key and value of a mapping. *)
Lemma node_nested_ind (P : node -> Prop) :
  (∀ tag value, P (ScalarNode tag value)) ->
  (∀ tag items, Forall P items -> P (SequenceNode tag items)) ->
  (∀ tag pairs,
     Forall (fun pair => P (fst pair) ∧ P (snd pair)) pairs ->
     P (MappingNode tag pairs)) ->
  ∀ n, P n.
Proof.
  intros Hscalar Hsequence Hmapping. fix IH 1.
  intros [tag value|tag items|tag pairs].
  - apply Hscalar.
  - apply Hsequence. induction items as [|item items IHitems].
    + apply Forall_nil_2.
    + apply Forall_cons_2; [apply IH|apply IHitems].
  - apply Hmapping. induction pairs as [|[key value] pairs IHpairs].
    + apply Forall_nil_2.
    + apply Forall_cons_2; [split; apply IH|apply IHpairs].
Qed.

End NodeInduction.

Section TemplateLoaderDepth.

Context {scalar : Type}.
Variable compose : string -> result (option node).
Variable construct_scalar : string -> string -> result scalar.

Lemma construct_object_plain
    (files files' : string -> option string)
    (environ environ' : string -> option string)
    (load load' : string -> string -> loading (object scalar))
    (name : string) (n : node) :
  plain n = true ->
  construct_object construct_scalar files environ load name n
  = construct_object construct_scalar files' environ' load' name n.
Proof.
  induction n as [tag value|tag items IH|tag pairs IH]
    using node_nested_ind; intros Hplain.
  - simpl in Hplain. unfold plain_tag in Hplain.
    apply andb_prop in Hplain as [Hplain _].
    apply andb_prop in Hplain
      as [Hi%negb_true_iff%bool_decide_eq_false
          Ho%negb_true_iff%bool_decide_eq_false].
    by rewrite !construct_object_scalar by done.
  - simpl in Hplain.
    apply andb_prop in Hplain as [->%bool_decide_eq_true Hitems].
    simpl. f_equal.
    induction IH as [|item items Hitem _ IHitems]; [done|].
    simpl in Hitems. apply andb_prop in Hitems as [H1 H2].
    rewrite (Hitem H1), (IHitems H2). done.
  - simpl in Hplain.
    apply andb_prop in Hplain as [->%bool_decide_eq_true Hpairs].
    simpl. f_equal.
    induction IH as [|[key value] pairs [Hkey Hvalue] _ IHpairs]; [done|].
    simpl in Hpairs. apply andb_prop in Hpairs as [H1 H2].
    apply andb_prop in H1 as [H1 Hv]. apply andb_prop in H1 as [_ Hk].
    simpl in Hkey, Hvalue.
    rewrite (Hkey Hk), (Hvalue Hv), (IHpairs H2). done.
Qed.

Variable files : string -> option string.
Variable environ : string -> option string.

Lemma construct_object_mono
    (load load' : string -> string -> loading (object scalar))
    (name : string) (n : node) (outcome : result (object scalar)) :
  (∀ name text outcome,
     load name text = Some outcome -> load' name text = Some outcome) ->
  construct_object construct_scalar files environ load name n
  = Some outcome ->
  construct_object construct_scalar files environ load' name n
  = Some outcome.
Proof.
  intros Hload. revert outcome.
  induction n as [tag value|tag items IH|tag pairs IH]
    using node_nested_ind; intros outcome.
  - destruct (decide (tag = "!include")) as [->|Hi];
      [|destruct (decide (tag = "!os_env")) as [->|Ho]].
    + rewrite !construct_object_include. unfold yaml_include.
      destruct (files _); [apply Hload|done].
    + rewrite !construct_object_os_env. unfold yaml_get_env_variable.
      case_decide; [done|].
      destruct (match environ _ with Some v => Some v | None => _ end);
        [apply Hload|done].
    + by rewrite !construct_object_scalar by done.
  - simpl. repeat case_decide; try done.
    match goal with
    | |- loading_bind (?f items) _ = _ -> loading_bind (?g items) _ = _ =>
        assert (∀ r, f items = Some r -> g items = Some r) as Hitems
    end.
    { induction IH as [|item items Hitem _ IHitems]; [done|].
      intros r.
      destruct (construct_object _ _ _ load name item) as [[x|e]|] eqn:E;
        simpl; [| |done].
      - rewrite (Hitem _ eq_refl). simpl.
        match goal with
        | |- loading_bind ?m _ = _ -> _ =>
            destruct m as [[xs|e]|] eqn:E'; [| |done]
        end.
        + rewrite (IHitems _ eq_refl). done.
        + rewrite (IHitems _ eq_refl). done.
      - rewrite (Hitem _ eq_refl). done. }
    match goal with
    | |- loading_bind ?m _ = _ -> _ =>
        destruct m as [r|] eqn:E; [|done]
    end.
    by rewrite (Hitems _ eq_refl).
  - simpl. repeat case_decide; try done.
    match goal with
    | |- loading_bind (?f pairs) _ = _ -> loading_bind (?g pairs) _ = _ =>
        assert (∀ r, f pairs = Some r -> g pairs = Some r) as Hpairs
    end.
    { induction IH as [|[key value] pairs [Hkey Hvalue] _ IHpairs];
        [done|].
      intros r. simpl in Hkey, Hvalue.
      destruct (construct_object _ _ _ load name key) as [[k|e]|] eqn:Ek;
        simpl; [| |done].
      - rewrite (Hkey _ eq_refl). simpl.
        destruct (construct_object _ _ _ load name value)
          as [[v|e]|] eqn:Ev; simpl; [| |done].
        + rewrite (Hvalue _ eq_refl). simpl.
          match goal with
          | |- loading_bind ?m _ = _ -> _ =>
              destruct m as [[kvs|e]|] eqn:E'; [| |done]
          end.
          * rewrite (IHpairs _ eq_refl). done.
          * rewrite (IHpairs _ eq_refl). done.
        + rewrite (Hvalue _ eq_refl). done.
      - rewrite (Hkey _ eq_refl). done. }
    match goal with
    | |- loading_bind ?m _ = _ -> _ =>
        destruct m as [r|] eqn:E; [|done]
    end.
    by rewrite (Hpairs _ eq_refl).
Qed.

Lemma yaml_load_succ (depth : nat) (name text : string)
    (outcome : result (object scalar)) :
  yaml_load compose construct_scalar files environ depth name text
  = Some outcome ->
  yaml_load compose construct_scalar files environ (S depth) name text
  = Some outcome.
Proof.
  revert name text outcome.
  induction depth as [|depth IH]; intros name text outcome; [done|].
  intros H. change (yaml_load compose construct_scalar files environ
                      (S (S depth)) name text)
    with (match compose text with
          | Raise e => Some (Raise e)
          | Ok None => Some (Ok ObjNone)
          | Ok (Some root) =>
              construct_object construct_scalar files environ
                (yaml_load compose construct_scalar files environ
                   (S depth)) name root
          end).
  change (yaml_load compose construct_scalar files environ
            (S depth) name text)
    with (match compose text with
          | Raise e => Some (Raise e)
          | Ok None => Some (Ok ObjNone)
          | Ok (Some root) =>
              construct_object construct_scalar files environ
                (yaml_load compose construct_scalar files environ
                   depth) name root
          end) in H.
  destruct (compose text) as [[root|]|e]; [|done..].
  eapply construct_object_mono; [|exact H]. apply IH.
Qed.

(** X26. A template of plain YAML reads nothing.  When the scalars of
    the composed document are neither directives ([!include],
    [!os_env]) nor tagged for a Python object, its sequences and
    mappings carry the default tags, and the keys of its mappings are
    scalars other than the merge key and the value key, the outcome of
    the load is the same whatever the files and the environment hold,
    and no nested load is made: a nesting depth of one is enough. *)
Theorem plain_template_reads_nothing
    (files' : string -> option string)
    (environ' : string -> option string)
    (depth : nat) (name text : string) (root : node) :
  compose text = Ok (Some root) ->
  plain root = true ->
  yaml_load compose construct_scalar files environ (S depth) name text
  = yaml_load compose construct_scalar files' environ' 1 name text.
Proof.
  intros Hc Hplain. simpl. rewrite Hc.
  by apply construct_object_plain.
Qed.


(** X28. [get_devops_config] looks for a template first under the name
    given and then, when there is no such file, under the directory
    [templates] beside the package file [devops_file].  A name that
    starts with ["/"] is looked up only as it is.  When the template is
    nowhere, the [DevopsError] names the path tried last: the one under
    [templates], not the name given. *)
Theorem get_devops_config_default_templates
    (depth : nat) (package module filename : string) :
  package ≠ EmptyString -> posixpath.endswith_sep package = false ->
  contains "/" module = false ->
  files filename = None ->
  let config_file :=
    if String.prefix "/" filename then filename
    else package +:+ "/templates/" +:+ filename in
  get_devops_config compose construct_scalar files environ
    (package +:+ "/" +:+ module) depth filename
  = match files config_file with
    | Some text =>
        yaml_load compose construct_scalar files environ depth
          config_file text
    | None =>
        Some (Raise (DevopsError (template_missing_error config_file)))
    end.
Proof.
  intros Hp He Hm Hf. cbv zeta.
  unfold get_devops_config, yaml_template_load. rewrite Hf.
  rewrite dirname_app_sep by done.
  rewrite (join_dir package "templates") by done.
  change (String.prefix "/" "templates") with false. cbv iota.
  assert (posixpath.join (package +:+ "/" +:+ "templates") filename
          = if String.prefix "/" filename then filename
            else package +:+ "/templates/" +:+ filename) as ->.
  { unfold posixpath.join. destruct (String.prefix "/" filename); [done|].
    assert (posixpath.endswith_sep (package +:+ "/" +:+ "templates")
            = false) as ->.
    { clear. induction package as [|c p IH]; [done|].
      change (posixpath.endswith_sep
                (String c (p +:+ "/" +:+ "templates")) = false).
      destruct p; [done|]. exact IH. }
    rewrite decide_False by (by destruct package).
    by rewrite !string_app_assoc. }
  done.
Qed.

End TemplateLoaderDepth.

Lemma plain_template_reads_nothing_witness :
  yaml_load compose_mapping construct_str cyclic_files env_foo_baz 5
    "templates/default.yaml" "any text"
  = Some (Ok (ObjOrderedDict
                [ (ObjScalar "name", ObjScalar "env");
                  (ObjScalar "nodes",
                   ObjList [ObjScalar "admin"; ObjScalar "slave"]) ])).
Proof.
  rewrite (plain_template_reads_nothing
             compose_mapping construct_str cyclic_files env_foo_baz
             (fun _ => None) (fun _ => None) 4 "templates/default.yaml"
             "any text" _ eq_refl eq_refl).
  reflexivity.
Defined.


Lemma get_devops_config_default_templates_witness :
  get_devops_config compose_line construct_str nested_files env_unset
    "/usr/lib/devops/__init__.py" 3 "default.yaml"
  = Some (Raise (DevopsError
                   (template_missing_error
                      "/usr/lib/devops/templates/default.yaml"))).
Proof.
  exact (get_devops_config_default_templates
           compose_line construct_str nested_files env_unset
           3 "/usr/lib/devops" "__init__.py" "default.yaml"
           ltac:(discriminate) eq_refl eq_refl eq_refl).
Defined.
